(** * Markdown-to-HTML conversion scripts: a shallow embedding

    The development follows [convert_html_only.py] (with the template of
    [convert_to_pdf_html.py] next to it).  A Python [str] is a sequence of
    code points; the operations of the standard library that the scripts call
    ([str.format], [re.sub], [re.search], [str.split], [str.strip],
    [str.replace], [int], [list.sort]) are written out for the patterns and
    arguments the scripts pass to them. *)

From Stdlib Require Import List NArith ZArith Lia Bool String Ascii.
From Stdlib Require Import Sorting.Permutation Sorting.Sorted.
Import ListNotations.

Set Implicit Arguments.

(** ** Strings *)

Module Str.

(** A code point, and a Python string. *)
Definition char := N.
Definition str := list char.

Definition byte_of (a : ascii) : N := N_of_ascii a.

(** Decoding of the UTF-8 bytes of a literal into code points.  A lead byte
    below 0x80 is a code point of its own; lead bytes 0xC0.., 0xE0.. and
    0xF0.. take one, two and three continuation bytes. *)
Fixpoint utf8_decode (fuel : nat) (bs : list N) : str :=
  match fuel with
  | O => []
  | S fuel' =>
    match bs with
    | [] => []
    | b :: r =>
      if (b <? 128)%N then b :: utf8_decode fuel' r
      else if (b <? 224)%N then
        match r with
        | b1 :: r' => ((b - 192) * 64 + (b1 - 128))%N :: utf8_decode fuel' r'
        | _ => []
        end
      else if (b <? 240)%N then
        match r with
        | b1 :: b2 :: r' =>
          ((b - 224) * 4096 + (b1 - 128) * 64 + (b2 - 128))%N
            :: utf8_decode fuel' r'
        | _ => []
        end
      else
        match r with
        | b1 :: b2 :: b3 :: r' =>
          ((b - 240) * 262144 + (b1 - 128) * 4096 + (b2 - 128) * 64
           + (b3 - 128))%N :: utf8_decode fuel' r'
        | _ => []
        end
    end
  end.

(** The code points of a literal of the source. *)
Definition lit (s : string) : str :=
  let bs := List.map byte_of (list_ascii_of_string s) in
  utf8_decode (List.length bs) bs.

Definition eqb (a b : str) : bool :=
  if list_eq_dec N.eq_dec a b then true else false.

(** [s.startswith(p)], returning what follows the prefix. *)
Fixpoint strip_prefix (p s : str) : option str :=
  match p with
  | [] => Some s
  | a :: p' =>
    match s with
    | [] => None
    | b :: s' => if (a =? b)%N then strip_prefix p' s' else None
    end
  end.

Definition startswith (s p : str) : bool :=
  match strip_prefix p s with Some _ => true | None => false end.

(** [sub in s]: some position of [s] starts with [sub]. *)
Fixpoint contains (sub s : str) : bool :=
  startswith s sub ||
  match s with
  | [] => false
  | _ :: s' => contains sub s'
  end.

(** [sep.join(parts)]. *)
Fixpoint join (sep : str) (parts : list str) : str :=
  match parts with
  | [] => []
  | [p] => p
  | p :: rest => p ++ sep ++ join sep rest
  end.

End Str.

Import Str.

(** ** [str.format] with keyword arguments

    The scanner follows CPython's [MarkupIterator_next] and [parse_field]:
    literal text runs to the next brace, a doubled brace is an escaped one,
    and a single opening brace starts a replacement field whose name runs to
    the first [}], [:] or [!]. *)

Module Format.

Inductive error : Type :=
| ValueError (msg : string)
| KeyError (name : str)
| IndexError
| Unmodelled.

Inductive result (A : Type) : Type :=
| Ok (a : A)
| Raise (e : error).
Arguments Ok {A} a.
Arguments Raise {A} e.

Definition lbrace : char := 123%N.
Definition rbrace : char := 125%N.
Definition colon : char := 58%N.
Definition bang : char := 33%N.
Definition lbracket : char := 91%N.
Definition rbracket : char := 93%N.
Definition dot : char := 46%N.

Definition is_brace (c : char) : bool := (c =? lbrace)%N || (c =? rbrace)%N.

(** The literal text up to the first brace, then that brace and the rest. *)
Fixpoint scan_literal (s : str) : str * option (char * str) :=
  match s with
  | [] => ([], None)
  | c :: r =>
    if is_brace c then ([], Some (c, r))
    else let '(l, k) := scan_literal r in (c :: l, k)
  end.

(** How the scan of a field name stops. *)
Inductive name_end : Type :=
| NameStop (name : str) (term : char) (rest : str)
| NameBrace
| NameEOS.

(** [inbr] is set between a [[] and the next []]: nothing ends the name
    there. *)
Fixpoint scan_name (inbr : bool) (s : str) : name_end :=
  match s with
  | [] => NameEOS
  | c :: r =>
    let keep (b : bool) :=
      match scan_name b r with
      | NameStop n t rest => NameStop (c :: n) t rest
      | other => other
      end in
    if inbr then keep (negb (c =? rbracket)%N)
    else if (c =? lbrace)%N then NameBrace
    else if (c =? lbracket)%N then keep true
    else if (c =? rbrace)%N || (c =? colon)%N || (c =? bang)%N
         then NameStop [] c r
    else keep false
  end.

(** The format spec runs to the brace that closes the field; [count] is the
    number of braces still open, less one. *)
Fixpoint scan_spec (count : nat) (s : str) : option (str * str) :=
  match s with
  | [] => None
  | c :: r =>
    if (c =? lbrace)%N then
      match scan_spec (S count) r with
      | Some (sp, rest) => Some (c :: sp, rest)
      | None => None
      end
    else if (c =? rbrace)%N then
      match count with
      | O => Some ([], r)
      | S count' =>
        match scan_spec count' r with
        | Some (sp, rest) => Some (c :: sp, rest)
        | None => None
        end
      end
    else
      match scan_spec count r with
      | Some (sp, rest) => Some (c :: sp, rest)
      | None => None
      end
  end.

Record field : Type := mkField {
  field_name : str;
  conversion : option char;
  format_spec : str
}.

Definition parse_spec (name : str) (conv : option char) (s : str)
  : result (field * str) :=
  match scan_spec 0 s with
  | Some (sp, rest) => Ok (mkField name conv sp, rest)
  | None => Raise (ValueError "unmatched '{' in format spec")
  end.

Definition parse_field (s : str) : result (field * str) :=
  match scan_name false s with
  | NameBrace => Raise (ValueError "unexpected '{' in field name")
  | NameEOS => Raise (ValueError "expected '}' before end of string")
  | NameStop name t rest =>
    if (t =? rbrace)%N then Ok (mkField name None [], rest)
    else if (t =? colon)%N then parse_spec name None rest
    else
      match rest with
      | [] => Raise (ValueError
                "end of string while looking for conversion specifier")
      | cv :: [] => parse_spec name (Some cv) []
      | cv :: c :: rest' =>
        if (c =? rbrace)%N then Ok (mkField name (Some cv) [], rest')
        else if (c =? colon)%N then parse_spec name (Some cv) rest'
        else Raise (ValueError "expected ':' after conversion specifier")
      end
  end.

(** One step of the markup iterator: the literal text, the field that
    follows it (if one does) and the rest of the template. *)
Definition markup_next (s : str) : result (str * option field * str) :=
  match scan_literal s with
  | (l, None) => Ok (l, None, [])
  | (l, Some (c, r)) =>
    match r with
    | [] =>
      if (c =? rbrace)%N
      then Raise (ValueError "Single '}' encountered in format string")
      else Raise (ValueError "Single '{' encountered in format string")
    | c' :: r' =>
      if (c =? c')%N then Ok (l ++ [c], None, r')
      else if (c =? rbrace)%N
      then Raise (ValueError "Single '}' encountered in format string")
      else
        match parse_field r with
        | Ok (f, rest) => Ok (l, Some f, rest)
        | Raise e => Raise e
        end
    end
  end.

(** The part of a field name before the first [.] or [[], and what
    follows. *)
Fixpoint name_split (s : str) : str * str :=
  match s with
  | [] => ([], [])
  | c :: r =>
    if (c =? dot)%N || (c =? lbracket)%N then ([], s)
    else let '(a, b) := name_split r in (c :: a, b)
  end.

Definition is_digit (c : char) : bool := (48 <=? c)%N && (c <=? 57)%N.
Definition is_ascii (c : char) : bool := (c <? 128)%N.

Definition kwargs := list (str * str).

Fixpoint lookup (kw : kwargs) (name : str) : option str :=
  match kw with
  | [] => None
  | (k, v) :: kw' => if Str.eqb k name then Some v else lookup kw' name
  end.

(** The value of a field.  The call passes no positional argument, so an
    empty or numeric name is out of range; a name is looked up among the
    keyword arguments.  Attribute and index access, the [!r] and [!a]
    conversions and a non-empty format spec are outside the model. *)
Definition render_field (kw : kwargs) (f : field) : result str :=
  let '(first, rest) := name_split (field_name f) in
  if negb (forallb is_ascii first) then Raise Unmodelled
  else if forallb is_digit first then Raise IndexError
  else
    match lookup kw first with
    | None => Raise (KeyError first)
    | Some v =>
      match rest, conversion f, format_spec f with
      | [], None, [] => Ok v
      | [], Some cv, [] =>
        if (cv =? 115)%N then Ok v
        else if (cv =? 114)%N || (cv =? 97)%N then Raise Unmodelled
        else Raise (ValueError "Unknown conversion specifier")
      | _, _, _ => Raise Unmodelled
      end
    end.

Fixpoint build_string (fuel : nat) (kw : kwargs) (s : str) : result str :=
  match fuel with
  | O => Raise Unmodelled
  | S fuel' =>
    match s with
    | [] => Ok []
    | _ =>
      match markup_next s with
      | Raise e => Raise e
      | Ok (l, None, rest) =>
        match build_string fuel' kw rest with
        | Ok out => Ok (l ++ out)
        | Raise e => Raise e
        end
      | Ok (l, Some f, rest) =>
        match render_field kw f with
        | Raise e => Raise e
        | Ok v =>
          match build_string fuel' kw rest with
          | Ok out => Ok (l ++ v ++ out)
          | Raise e => Raise e
          end
        end
      end
    end
  end.

(** [template.format] applied to the keyword arguments [kw]. *)
Definition format (template : str) (kw : kwargs) : result str :=
  build_string (S (List.length template)) kw template.

End Format.


(** ** The templates

    Both templates are the text between the triple quotes of
    [create_html_template], one list entry per source line. *)

Definition dq : string := String (ascii_of_nat 34) EmptyString.
Definition nl : string := String (ascii_of_nat 10) EmptyString.

(** The lines of a literal, joined by newlines, as code points. *)
Definition text_of_lines (ls : list string) : str :=
  lit (String.concat nl ls).

Local Open Scope string_scope.

Module HtmlOnlyTemplate.

Definition template_lines : list string :=
  [ "<!DOCTYPE html>";
    "<html lang=" ++ dq ++ "zh-CN" ++ dq ++ ">";
    "<head>";
    "    <meta charset=" ++ dq ++ "UTF-8" ++ dq ++ ">";
    "    <meta name=" ++ dq ++ "viewport" ++ dq ++ " content=" ++ dq ++ "width=device-width, initial-scale=1.0" ++ dq ++ ">";
    "    <title>{title}</title>";
    "    <style>";
    "        @media print {";
    "            @page {";
    "                size: A4;";
    "                margin: 2cm 1.5cm;";
    "            }";
    "";
    "            body {";
    "                font-size: 11pt;";
    "                line-height: 1.6;";
    "            }";
    "";
    "            h1 {";
    "                page-break-before: always;";
    "                font-size: 16pt;";
    "            }";
    "";
    "            h1:first-of-type {";
    "                page-break-before: auto;";
    "            }";
    "";
    "            h2 {";
    "                font-size: 14pt;";
    "            }";
    "";
    "            h3 {";
    "                font-size: 12pt;";
    "            }";
    "";
    "            p {";
    "                text-indent: 2em;";
    "                orphans: 2;";
    "                widows: 2;";
    "            }";
    "        }";
    "";
    "        body {";
    "            font-family: " ++ dq ++ "Times New Roman" ++ dq ++ ", " ++ dq ++ "SimSun" ++ dq ++ ", " ++ dq ++ "Microsoft YaHei" ++ dq ++ ", " ++ dq ++ "WenQuanYi Micro Hei" ++ dq ++ ", serif;";
    "            font-size: 12pt;";
    "            line-height: 1.8;";
    "            color: #333;";
    "            margin: 0;";
    "            padding: 20px;";
    "            max-width: 800px;";
    "            margin: 0 auto;";
    "            text-align: justify;";
    "        }";
    "";
    "        h1, h2, h3, h4, h5, h6 {";
    "            font-family: " ++ dq ++ "Times New Roman" ++ dq ++ ", " ++ dq ++ "SimSun" ++ dq ++ ", " ++ dq ++ "Microsoft YaHei" ++ dq ++ ", serif;";
    "            color: #2c3e50;";
    "            margin-top: 2em;";
    "            margin-bottom: 1em;";
    "            font-weight: bold;";
    "            page-break-after: avoid;";
    "        }";
    "";
    "        h1 {";
    "            font-size: 18pt;";
    "            color: #c0392b;";
    "            border-bottom: 3px solid #e74c3c;";
    "            padding-bottom: 0.5em;";
    "            text-align: center;";
    "            margin-top: 1em;";
    "        }";
    "";
    "        h2 {";
    "            font-size: 16pt;";
    "            color: #34495e;";
    "            border-left: 4px solid #3498db;";
    "            padding-left: 1em;";
    "            background-color: #f8f9fa;";
    "            padding-top: 0.5em;";
    "            padding-bottom: 0.5em;";
    "        }";
    "";
    "        h3 {";
    "            font-size: 14pt;";
    "            color: #7f8c8d;";
    "            font-style: italic;";
    "        }";
    "";
    "        h4 {";
    "            font-size: 13pt;";
    "            color: #95a5a6;";
    "        }";
    "";
    "        p {";
    "            margin-bottom: 1.2em;";
    "            text-indent: 2em;";
    "            orphans: 2;";
    "            widows: 2;";
    "        }";
    "";
    "        blockquote {";
    "            border-left: 4px solid #bdc3c7;";
    "            padding-left: 1.5em;";
    "            margin-left: 0;";
    "            margin-right: 0;";
    "            font-style: italic;";
    "            color: #7f8c8d;";
    "            background-color: #f8f9fa;";
    "            padding-top: 0.5em;";
    "            padding-bottom: 0.5em;";
    "        }";
    "";
    "        code {";
    "            background-color: #f8f9fa;";
    "            padding: 0.2em 0.4em;";
    "            border-radius: 3px;";
    "            font-family: " ++ dq ++ "Courier New" ++ dq ++ ", monospace;";
    "            font-size: 0.9em;";
    "            border: 1px solid #e9ecef;";
    "        }";
    "";
    "        pre {";
    "            background-color: #f8f9fa;";
    "            padding: 1em;";
    "            border-radius: 5px;";
    "            overflow-x: auto;";
    "            border: 1px solid #e9ecef;";
    "            font-family: " ++ dq ++ "Courier New" ++ dq ++ ", monospace;";
    "            font-size: 0.9em;";
    "            line-height: 1.4;";
    "        }";
    "";
    "        pre code {";
    "            background: none;";
    "            padding: 0;";
    "            border: none;";
    "        }";
    "";
    "        table {";
    "            border-collapse: collapse;";
    "            width: 100%;";
    "            margin: 1em 0;";
    "            font-size: 11pt;";
    "        }";
    "";
    "        th, td {";
    "            border: 1px solid #ddd;";
    "            padding: 0.75em;";
    "            text-align: left;";
    "        }";
    "";
    "        th {";
    "            background-color: #f8f9fa;";
    "            font-weight: bold;";
    "            color: #2c3e50;";
    "        }";
    "";
    "        ul, ol {";
    "            margin-bottom: 1em;";
    "            padding-left: 2em;";
    "        }";
    "";
    "        li {";
    "            margin-bottom: 0.5em;";
    "        }";
    "";
    "        .toc {";
    "            page-break-after: always;";
    "            background-color: #f8f9fa;";
    "            padding: 2em;";
    "            border-radius: 10px;";
    "            margin-bottom: 2em;";
    "        }";
    "";
    "        .toc h2 {";
    "            color: #c0392b;";
    "            border: none;";
    "            background: none;";
    "            padding: 0;";
    "            text-align: center;";
    "            margin-bottom: 1.5em;";
    "        }";
    "";
    "        .toc ul {";
    "            list-style: none;";
    "            padding-left: 0;";
    "        }";
    "";
    "        .toc li {";
    "            margin-bottom: 0.8em;";
    "            padding-left: 1em;";
    "        }";
    "";
    "        .toc a {";
    "            color: #3498db;";
    "            text-decoration: none;";
    "        }";
    "";
    "        .toc a:hover {";
    "            text-decoration: underline;";
    "        }";
    "";
    "        strong {";
    "            color: #c0392b;";
    "            font-weight: bold;";
    "        }";
    "";
    "        em {";
    "            color: #8e44ad;";
    "            font-style: italic;";
    "        }";
    "";
    "        .page-break {";
    "            page-break-before: always;";
    "        }";
    "    </style>";
    "</head>";
    "<body>";
    "    {content}";
    "</body>";
    "</html>" ].

(** [create_html_template()] of [convert_html_only.py]. *)
Definition create_html_template : str := text_of_lines template_lines.

End HtmlOnlyTemplate.

Module PdfHtmlTemplate.

Definition template_lines : list string :=
  [ "<!DOCTYPE html>";
    "<html lang=" ++ dq ++ "zh-CN" ++ dq ++ ">";
    "<head>";
    "    <meta charset=" ++ dq ++ "UTF-8" ++ dq ++ ">";
    "    <meta name=" ++ dq ++ "viewport" ++ dq ++ " content=" ++ dq ++ "width=device-width, initial-scale=1.0" ++ dq ++ ">";
    "    <title>{title}</title>";
    "    <style>";
    "        @page {";
    "            size: A4;";
    "            margin: 2cm 1.5cm;";
    "        }";
    "";
    "        body {";
    "            font-family: " ++ dq ++ "Times New Roman" ++ dq ++ ", " ++ dq ++ "SimSun" ++ dq ++ ", " ++ dq ++ "Microsoft YaHei" ++ dq ++ ", " ++ dq ++ "WenQuanYi Micro Hei" ++ dq ++ ", serif;";
    "            font-size: 12pt;";
    "            line-height: 1.8;";
    "            color: #333;";
    "            margin: 0;";
    "            padding: 0;";
    "            text-align: justify;";
    "        }";
    "";
    "        .container {";
    "            max-width: 100%;";
    "            margin: 0 auto;";
    "            padding: 20px;";
    "        }";
    "";
    "        h1, h2, h3, h4, h5, h6 {";
    "            font-family: " ++ dq ++ "Times New Roman" ++ dq ++ ", " ++ dq ++ "SimSun" ++ dq ++ ", " ++ dq ++ "Microsoft YaHei" ++ dq ++ ", serif;";
    "            color: #2c3e50;";
    "            margin-top: 2em;";
    "            margin-bottom: 1em;";
    "            font-weight: bold;";
    "            page-break-after: avoid;";
    "        }";
    "";
    "        h1 {";
    "            font-size: 18pt;";
    "            color: #c0392b;";
    "            border-bottom: 3px solid #e74c3c;";
    "            padding-bottom: 0.5em;";
    "            text-align: center;";
    "            margin-top: 1em;";
    "        }";
    "";
    "        h2 {";
    "            font-size: 16pt;";
    "            color: #34495e;";
    "            border-left: 4px solid #3498db;";
    "            padding-left: 1em;";
    "            background-color: #f8f9fa;";
    "            padding-top: 0.5em;";
    "            padding-bottom: 0.5em;";
    "        }";
    "";
    "        h3 {";
    "            font-size: 14pt;";
    "            color: #7f8c8d;";
    "            font-style: italic;";
    "        }";
    "";
    "        h4 {";
    "            font-size: 13pt;";
    "            color: #95a5a6;";
    "        }";
    "";
    "        p {";
    "            margin-bottom: 1.2em;";
    "            text-indent: 2em;";
    "            orphans: 2;";
    "            widows: 2;";
    "        }";
    "";
    "        blockquote {";
    "            border-left: 4px solid #bdc3c7;";
    "            padding-left: 1.5em;";
    "            margin-left: 0;";
    "            margin-right: 0;";
    "            font-style: italic;";
    "            color: #7f8c8d;";
    "            background-color: #f8f9fa;";
    "            padding-top: 0.5em;";
    "            padding-bottom: 0.5em;";
    "        }";
    "";
    "        code {";
    "            background-color: #f8f9fa;";
    "            padding: 0.2em 0.4em;";
    "            border-radius: 3px;";
    "            font-family: " ++ dq ++ "Courier New" ++ dq ++ ", monospace;";
    "            font-size: 0.9em;";
    "            border: 1px solid #e9ecef;";
    "        }";
    "";
    "        pre {";
    "            background-color: #f8f9fa;";
    "            padding: 1em;";
    "            border-radius: 5px;";
    "            overflow-x: auto;";
    "            border: 1px solid #e9ecef;";
    "            font-family: " ++ dq ++ "Courier New" ++ dq ++ ", monospace;";
    "            font-size: 0.9em;";
    "            line-height: 1.4;";
    "        }";
    "";
    "        pre code {";
    "            background: none;";
    "            padding: 0;";
    "            border: none;";
    "        }";
    "";
    "        table {";
    "            border-collapse: collapse;";
    "            width: 100%;";
    "            margin: 1em 0;";
    "            font-size: 11pt;";
    "        }";
    "";
    "        th, td {";
    "            border: 1px solid #ddd;";
    "            padding: 0.75em;";
    "            text-align: left;";
    "        }";
    "";
    "        th {";
    "            background-color: #f8f9fa;";
    "            font-weight: bold;";
    "            color: #2c3e50;";
    "        }";
    "";
    "        ul, ol {";
    "            margin-bottom: 1em;";
    "            padding-left: 2em;";
    "        }";
    "";
    "        li {";
    "            margin-bottom: 0.5em;";
    "        }";
    "";
    "        .toc {";
    "            page-break-after: always;";
    "            background-color: #f8f9fa;";
    "            padding: 2em;";
    "            border-radius: 10px;";
    "            margin-bottom: 2em;";
    "        }";
    "";
    "        .toc h2 {";
    "            color: #c0392b;";
    "            border: none;";
    "            background: none;";
    "            padding: 0;";
    "            text-align: center;";
    "            margin-bottom: 1.5em;";
    "        }";
    "";
    "        .toc ul {";
    "            list-style: none;";
    "            padding-left: 0;";
    "        }";
    "";
    "        .toc li {";
    "            margin-bottom: 0.8em;";
    "            padding-left: 1em;";
    "        }";
    "";
    "        .toc a {";
    "            color: #3498db;";
    "            text-decoration: none;";
    "        }";
    "";
    "        .toc a:hover {";
    "            text-decoration: underline;";
    "        }";
    "";
    "        strong {";
    "            color: #c0392b;";
    "            font-weight: bold;";
    "        }";
    "";
    "        em {";
    "            color: #8e44ad;";
    "            font-style: italic;";
    "        }";
    "";
    "        .page-break {";
    "            page-break-before: always;";
    "        }";
    "";
    "        @media print {";
    "            body {";
    "                font-size: 11pt;";
    "                line-height: 1.6;";
    "            }";
    "";
    "            h1 {";
    "                page-break-before: always;";
    "                font-size: 16pt;";
    "            }";
    "";
    "            h1:first-of-type {";
    "                page-break-before: auto;";
    "            }";
    "";
    "            h2 {";
    "                font-size: 14pt;";
    "            }";
    "";
    "            h3 {";
    "                font-size: 12pt;";
    "            }";
    "";
    "            p {";
    "                text-indent: 2em;";
    "                orphans: 2;";
    "                widows: 2;";
    "            }";
    "        }";
    "    </style>";
    "</head>";
    "<body>";
    "    <div class=" ++ dq ++ "container" ++ dq ++ ">";
    "        {content}";
    "    </div>";
    "</body>";
    "</html>" ].

(** [create_html_template()] of [convert_to_pdf_html.py]. *)
Definition create_html_template : str := text_of_lines template_lines.

End PdfHtmlTemplate.

Local Close Scope string_scope.

(** ** More of [str] *)

Module StrOps.

Definition newline : char := 10%N.

(** [str.isspace] on one code point, as [str.strip()] uses it. *)
Definition is_space (c : char) : bool :=
  ((9 <=? c) && (c <=? 13) || (28 <=? c) && (c <=? 32)
   || (c =? 133) || (c =? 160) || (c =? 5760)
   || (8192 <=? c) && (c <=? 8202)
   || (c =? 8232) || (c =? 8233) || (c =? 8239) || (c =? 8287)
   || (c =? 12288))%N.

Fixpoint lstrip (s : str) : str :=
  match s with
  | [] => []
  | c :: r => if is_space c then lstrip r else s
  end.

Definition rstrip (s : str) : str := rev (lstrip (rev s)).

(** [s.strip()]. *)
Definition strip (s : str) : str := rstrip (lstrip s).

(** [s.split(sep)] for a non-empty [sep].  [skip] counts the code points of
    a separator found earlier that are still to be passed over. *)
Fixpoint split_go (sep : str) (skip : nat) (s : str) : list str :=
  match s with
  | [] => [[]]
  | c :: t =>
    match skip with
    | S k => split_go sep k t
    | O =>
      if startswith s sep
      then [] :: split_go sep (pred (List.length sep)) t
      else
        match split_go sep 0 t with
        | h :: r => (c :: h) :: r
        | [] => [[c]]
        end
    end
  end.

Definition split (sep s : str) : list str := split_go sep 0 s.

(** [s.replace(old, new)] for a non-empty [old]. *)
Fixpoint replace_go (old new : str) (skip : nat) (s : str) : str :=
  match s with
  | [] => []
  | c :: t =>
    match skip with
    | S k => replace_go old new k t
    | O =>
      if startswith s old
      then new ++ replace_go old new (pred (List.length old)) t
      else c :: replace_go old new 0 t
    end
  end.

Definition replace (old new s : str) : str := replace_go old new 0 s.

(** The text before and after the first occurrence of [sub]. *)
Fixpoint find (sub s : str) : option (str * str) :=
  match strip_prefix sub s with
  | Some rest => Some ([], rest)
  | None =>
    match s with
    | [] => None
    | c :: t =>
      match find sub t with
      | Some (a, b) => Some (c :: a, b)
      | None => None
      end
    end
  end.

(** The span between the first occurrence of [op] and the first occurrence
    of [cl] after it. *)
Definition first_span (op cl s : str) : option str :=
  match find op s with
  | None => None
  | Some (_, r) =>
    match find cl r with
    | None => None
    | Some (g, _) => Some g
    end
  end.

(** [l1] is [l2] with some entries left out, the order kept. *)
Inductive subseq (A : Type) : list A -> list A -> Prop :=
| subseq_nil : subseq [] []
| subseq_skip : forall x l1 l2, subseq l1 l2 -> subseq l1 (x :: l2)
| subseq_take : forall x l1 l2, subseq l1 l2 -> subseq (x :: l1) (x :: l2).

End StrOps.

Import StrOps.

(** ** The regular expressions of the scripts

    Every pattern of the scripts has the shape
    [ [^] literal (.*?) (literal | $) ]: an optional line anchor, a literal,
    one lazy group and either a closing literal or the end of a line.  Both
    anchors are only used with [re.MULTILINE]. *)

Module Re.

Record pattern : Type := mkPat {
  anchored : bool;
  opener : str;
  dotall : bool;
  closer : option str
}.

(** [^] under [re.MULTILINE]: at the start of the text or after a
    newline. *)
Definition at_bol (prev : option char) : bool :=
  match prev with
  | None => true
  | Some c => (c =? newline)%N
  end.

(** What follows the group: the closing literal, or [$] under
    [re.MULTILINE] (the end of the text, or just before a newline, which is
    not consumed). *)
Definition closes (p : pattern) (s : str) : option str :=
  match closer p with
  | Some cl => strip_prefix cl s
  | None =>
    match s with
    | [] => Some []
    | c :: _ => if (c =? newline)%N then Some s else None
    end
  end.

(** [(.*?)] followed by the closer: the shortest run of code points (none
    of them a newline, unless [re.DOTALL]) after which the closer matches.
    Returns the group and the text after the match. *)
Fixpoint lazy_group (p : pattern) (s : str) : option (str * str) :=
  match closes p s with
  | Some rest => Some ([], rest)
  | None =>
    match s with
    | [] => None
    | c :: r =>
      if dotall p || negb (c =? newline)%N then
        match lazy_group p r with
        | Some (g, rest) => Some (c :: g, rest)
        | None => None
        end
      else None
    end
  end.

Definition closer_length (p : pattern) : nat :=
  match closer p with
  | Some cl => List.length cl
  | None => O
  end.

(** A match that starts at the head of [s], [prev] being the code point
    before it: the group and the number of code points matched. *)
Definition match_at (p : pattern) (prev : option char) (s : str)
  : option (str * nat) :=
  if anchored p && negb (at_bol prev) then None
  else
    match strip_prefix (opener p) s with
    | None => None
    | Some s1 =>
      match lazy_group p s1 with
      | None => None
      | Some (g, _) =>
        Some (g, List.length (opener p) + List.length g + closer_length p)
      end
    end.

(** [re.sub(p, pre \1 post, s)]: the matches are found from left to right
    and do not overlap; text outside them is copied.  [skip] counts the code
    points of the last match still to be passed over.  Every pattern opens
    with a literal, so a match is never empty. *)
Fixpoint sub_from (p : pattern) (pre post : str) (skip : nat)
    (prev : option char) (s : str) : str :=
  match s with
  | [] => []
  | c :: t =>
    match skip with
    | S k => sub_from p pre post k (Some c) t
    | O =>
      match match_at p prev s with
      | Some (g, n) =>
        pre ++ g ++ post ++ sub_from p pre post (pred n) (Some c) t
      | None => c :: sub_from p pre post 0 (Some c) t
      end
    end
  end.

Definition sub (p : pattern) (pre post : str) (s : str) : str :=
  sub_from p pre post 0 None s.

(** [re.search(p, s)]: group 1 of the leftmost match. *)
Fixpoint search_from (p : pattern) (prev : option char) (s : str)
  : option str :=
  match match_at p prev s with
  | Some (g, _) => Some g
  | None =>
    match s with
    | [] => None
    | c :: t => search_from p (Some c) t
    end
  end.

Definition search (p : pattern) (s : str) : option str :=
  search_from p None s.

(** The code point before the position reached after [a]. *)
Definition prev_after (prev : option char) (a : str) : option char :=
  fold_left (fun _ c => Some c) a prev.

(** What an anchored pattern that closes with [$] does to one line. *)
Definition line_rule (p : pattern) (pre post : str) (line : str) : str :=
  match strip_prefix (opener p) line with
  | Some rest => pre ++ rest ++ post
  | None => line
  end.

(** No line of [s] starts with [k], [prev] being the code point before
    [s]. *)
Fixpoint bol_free (k : char) (prev : option char) (s : str) : bool :=
  match s with
  | [] => true
  | c :: t => negb (at_bol prev && (c =? k)%N) && bol_free k (Some c) t
  end.

(** What can follow a line: nothing, or a newline. *)
Definition line_end (tail : str) : Prop :=
  tail = [] \/ exists r, tail = newline :: r.

(** The literal the closer stands for; [$] takes no code point. *)
Definition closer_text (p : pattern) : str :=
  match closer p with
  | Some cl => cl
  | None => []
  end.

(** Whether a match of [p] can start with [c]. *)
Definition opens_with (p : pattern) (c : char) : bool :=
  match opener p with
  | k :: _ => (k =? c)%N
  | [] => true
  end.

(** No match of [p] starts inside [s], whatever follows [s]: at each of
    its positions the first code point of the opener is missing, or [p] is
    anchored and the position is no start of a line.  [prev] is the code
    point before [s]. *)
Fixpoint inert (p : pattern) (prev : option char) (s : str) : bool :=
  match s with
  | [] => true
  | c :: t =>
    negb ((negb (anchored p) || at_bol prev) && opens_with p c)
    && inert p (Some c) t
  end.

(** A text after which a line starts: the empty text, or one that ends
    with a newline. *)
Definition line_start (a : str) : bool := at_bol (prev_after None a).

End Re.

(** ** [simple_markdown_to_html] *)

Module Markdown.

Import Re.

(** [r'^# (.*?)$'] to [r'^#### (.*?)$'], with [re.MULTILINE]. *)
Definition h1_pat : pattern := mkPat true (lit "# ") false None.
Definition h2_pat : pattern := mkPat true (lit "## ") false None.
Definition h3_pat : pattern := mkPat true (lit "### ") false None.
Definition h4_pat : pattern := mkPat true (lit "#### ") false None.

(** [r'\*\*(.*?)\*\*'] and [r'\*(.*?)\*']. *)
Definition bold_pat : pattern := mkPat false (lit "**") false (Some (lit "**")).
Definition italic_pat : pattern := mkPat false (lit "*") false (Some (lit "*")).

(** [r'```(.*?)```'] with [re.DOTALL], and [r'`(.*?)`']. *)
Definition fence_pat : pattern := mkPat false (lit "```") true (Some (lit "```")).
Definition code_pat : pattern := mkPat false (lit "`") false (Some (lit "`")).

(** [r'^> (.*?)$'] with [re.MULTILINE]. *)
Definition quote_pat : pattern := mkPat true (lit "> ") false None.

(** The four header substitutions, in the order of the source. *)
Definition headers (html : str) : str :=
  let html := sub h1_pat (lit "<h1>") (lit "</h1>") html in
  let html := sub h2_pat (lit "<h2>") (lit "</h2>") html in
  let html := sub h3_pat (lit "<h3>") (lit "</h3>") html in
  sub h4_pat (lit "<h4>") (lit "</h4>") html.

Definition bold_italic (html : str) : str :=
  let html := sub bold_pat (lit "<strong>") (lit "</strong>") html in
  sub italic_pat (lit "<em>") (lit "</em>") html.

Definition code_blocks (html : str) : str :=
  let html := sub fence_pat (lit "<pre><code>") (lit "</code></pre>") html in
  sub code_pat (lit "<code>") (lit "</code>") html.

Definition blockquotes (html : str) : str :=
  sub quote_pat (lit "<blockquote>") (lit "</blockquote>") html.

(** The test of the paragraph loop: the segment is already a block
    element. *)
Definition is_block (para : str) : bool :=
  startswith para (lit "<h") || startswith para (lit "<block")
  || startswith para (lit "<pre") || startswith para (lit "<ul")
  || startswith para (lit "<ol").

(** One turn of the paragraph loop: what it appends to
    [html_paragraphs]. *)
Definition paragraph (para : str) : list str :=
  let para := strip para in
  match para with
  | [] => []
  | _ =>
    if is_block para then [para]
    else [lit "<p>" ++ para ++ lit "</p>"]
  end.

Definition paragraphs (html : str) : str :=
  join (lit nl) (flat_map paragraph (split (lit nl ++ lit nl) html)).

(** An entry of [html_paragraphs]: not empty, and a block element or a
    paragraph element. *)
Definition fragment_entry (seg : str) : Prop :=
  seg <> []
  /\ (is_block seg = true \/ exists x, seg = lit "<p>" ++ x ++ lit "</p>").

Definition simple_markdown_to_html (md_content : str) : str :=
  paragraphs (blockquotes (code_blocks (bold_italic (headers md_content)))).

(** The four header substitutions on one line. *)
Definition header_rules (line : str) : str :=
  line_rule h4_pat (lit "<h4>") (lit "</h4>")
    (line_rule h3_pat (lit "<h3>") (lit "</h3>")
       (line_rule h2_pat (lit "<h2>") (lit "</h2>")
          (line_rule h1_pat (lit "<h1>") (lit "</h1>") line))).

(** *** Headings, as the specification words them

    A line that begins with one to four [#] and a space is a heading of that
    level; its text is the rest of the line. *)

Fixpoint leading_hashes (line : str) : nat * str :=
  match line with
  | c :: r =>
    if (c =? 35)%N then let '(n, rest) := leading_hashes r in (S n, rest)
    else (O, line)
  | [] => (O, [])
  end.

Definition heading_level (line : str) : option (nat * str) :=
  match leading_hashes line with
  | (n, c :: rest) =>
    if (c =? 32)%N && (1 <=? n)%nat && (n <=? 4)%nat
    then Some (n, rest) else None
  | _ => None
  end.

Definition heading_tag (closing : bool) (n : nat) : str :=
  (if closing then lit "</h" else lit "<h") ++ [(48 + N.of_nat n)%N] ++ lit ">".

Definition heading_line (line : str) : str :=
  match heading_level line with
  | Some (n, rest) => heading_tag false n ++ rest ++ heading_tag true n
  | None => line
  end.

(** *** Plain text

    Text without the code points that open a pattern of the transformer
    ([#], [*], a backtick, [>]), and without a blank line. *)
Definition is_markup (c : char) : bool :=
  (c =? 35)%N || (c =? 42)%N || (c =? 96)%N || (c =? 62)%N.

Definition plain (s : str) : bool :=
  forallb (fun c => negb (is_markup c)) s
  && negb (contains (lit nl ++ lit nl) s).

(** Text that no rule of the transformer takes hold of, whatever stands
    around it: no [*] and no backtick in it, and none of its lines starts
    with [#] or [>].  [prev] is the code point before the text. *)
Definition quiet (prev : option char) (s : str) : bool :=
  forallb (fun c => negb ((c =? 42)%N || (c =? 96)%N)) s
  && bol_free 35%N prev s && bol_free 62%N prev s.

(** A fenced block and the block code element made from it. *)
Definition fenced (body : str) : str := lit "```" ++ body ++ lit "```".
Definition code_block (body : str) : str :=
  lit "<pre><code>" ++ body ++ lit "</code></pre>".

(** *** Block quotes, line by line *)

(** A line that begins with [>] and a space is a block quote of its own
    around the rest of the line. *)
Definition quote_line (line : str) : str :=
  match strip_prefix (lit "> ") line with
  | Some rest => lit "<blockquote>" ++ rest ++ lit "</blockquote>"
  | None => line
  end.

End Markdown.

(** ** The file collector: [glob] and the sort by partition *)

Module Collector.

Definition slash : char := 47%N.

(** [int(s)] in base 10, as CPython 3.11 reads a [str]: every code point
    from 127 on is first mapped to a blank when it is white space and to its
    ASCII digit when it is a decimal digit of the Unicode database; then the
    blanks of C's [isspace] are stripped on both sides (the separators
    U+001C to U+001F are white space for [str.strip] and not here), and an
    optional sign and the digits are read, single underscores allowed
    between two digits.  A text of more than 4300 digits is refused.  [None]
    is [ValueError]. *)
Definition int_space (c : char) : bool :=
  is_space c && negb ((28 <=? c) && (c <=? 31))%N.

(** The digit zero of every run of ten decimal digits outside ASCII
    (Unicode 14.0). *)
Definition decimal_zeros : list N :=
  [1632; 1776; 1984; 2406; 2534; 2662; 2790; 2918; 3046; 3174; 3302; 3430;
   3558; 3664; 3792; 3872; 4160; 4240; 6112; 6160; 6470; 6608; 6784; 6800;
   6992; 7088; 7232; 7248; 42528; 43216; 43264; 43472; 43504; 43600; 44016;
   65296; 66720; 68912; 69734; 69872; 69942; 70096; 70384; 70736; 70864;
   71248; 71360; 71472; 71904; 72016; 72784; 73040; 73120; 92768; 92864;
   93008; 120782; 120792; 120802; 120812; 120822; 123200; 123632; 125264;
   130032]%N.

Definition digit_val (c : char) : option Z :=
  if Format.is_digit c then Some (Z.of_N c - 48)%Z
  else
    match List.find (fun z => (z <=? c) && (c <? z + 10))%N decimal_zeros with
    | Some z => Some (Z.of_N (c - z))
    | None => None
    end.

Fixpoint digits (acc : Z) (after_digit : bool) (s : str) : option Z :=
  match s with
  | [] => if after_digit then Some acc else None
  | c :: r =>
    match digit_val c with
    | Some d => digits (acc * 10 + d)%Z true r
    | None =>
      if (c =? 95)%N && after_digit then
        match r with
        | [] => None
        | _ => digits acc false r
        end
      else None
    end
  end.

Fixpoint skip_spaces (s : str) : str :=
  match s with
  | [] => []
  | c :: r => if int_space c then skip_spaces r else s
  end.

(** [sys.get_int_max_str_digits()], by default. *)
Definition max_str_digits : N := 4300%N.

Definition digit_count (s : str) : N :=
  N.of_nat (List.length (filter (fun c => negb (c =? 95)%N) s)).

(** The digits after the sign. *)
Definition int_digits (s : str) : option Z :=
  match digits 0 false s with
  | Some n => if (digit_count s <=? max_str_digits)%N then Some n else None
  | None => None
  end.

Definition int (s : str) : option Z :=
  match rev (skip_spaces (rev (skip_spaces s))) with
  | [] => None
  | c :: r =>
    if (c =? 45)%N then option_map Z.opp (int_digits r)
    else if (c =? 43)%N then int_digits r
    else int_digits (c :: r)
  end.

(** [int(x.split('/part')[1].split('/')[0])]; [None] when the index [1] is
    out of range or the segment is not an integer. *)
Definition part_index (x : str) : option Z :=
  match nth_error (split (lit "/part") x) 1 with
  | None => None
  | Some seg =>
    match split (lit "/") seg with
    | [] => None
    | first :: _ => int first
    end
  end.

(** [a <= b] on strings: code point by code point, a proper prefix
    first. *)
Fixpoint str_leb (a b : str) : bool :=
  match a, b with
  | [], _ => true
  | _ :: _, [] => false
  | x :: a', y :: b' =>
    if (x <? y)%N then true
    else if (y <? x)%N then false
    else str_leb a' b'
  end.

(** The sort key [(int(...), x)] and the order of such tuples. *)
Definition key : Type := (Z * str)%type.

Definition key_leb (k1 k2 : key) : bool :=
  if (fst k1 <? fst k2)%Z then true
  else if (fst k2 <? fst k1)%Z then false
  else str_leb (snd k1) (snd k2).

Definition sort_key (x : str) : option key :=
  match part_index x with
  | Some n => Some (n, x)
  | None => None
  end.

(** The keys of all entries, computed before anything moves; one failure
    fails the sort. *)
Fixpoint keyed (l : list str) : option (list (key * str)) :=
  match l with
  | [] => Some []
  | x :: r =>
    match sort_key x, keyed r with
    | Some k, Some kr => Some ((k, x) :: kr)
    | _, _ => None
    end
  end.

(** [list.sort] is stable: an entry goes before the first one whose key is
    not smaller than its own. *)
Fixpoint insert (e : key * str) (l : list (key * str)) : list (key * str) :=
  match l with
  | [] => [e]
  | e' :: r =>
    if key_leb (fst e) (fst e') then e :: l else e' :: insert e r
  end.

Fixpoint isort (l : list (key * str)) : list (key * str) :=
  match l with
  | [] => []
  | e :: r => insert e (isort r)
  end.

(** [all_files.sort(key=lambda x: (int(...), x))]. *)
Definition sort_files (all_files : list str) : option (list str) :=
  match keyed all_files with
  | Some kl => Some (List.map snd (isort kl))
  | None => None
  end.

Definition endswith (s suffix : str) : bool :=
  startswith (rev s) (rev suffix).

(** The decimal digit [i] as [f"{i}"] prints it, for [i] in [range(7)]. *)
Definition digit_char (i : nat) : char := (48 + N.of_nat i)%N.

(** A path matched by [dir + "/part" + i + "/*" + ext]: the directory
    prefix, then a name without a slash that does not start with a dot (a
    [*] of [glob] skips hidden names) and ends with [ext]. *)
Definition glob_match (dir ext : str) (i : nat) (path : str) : bool :=
  match strip_prefix (dir ++ lit "/part" ++ [digit_char i] ++ [slash]) path with
  | None => false
  | Some name =>
    negb (existsb (N.eqb slash) name)
    && negb (startswith name (lit "."))
    && endswith name ext
  end.

(** [glob.glob(pattern)] on a listing of the paths that exist, in the order
    the directory scan yields them. *)
Definition glob (dir ext : str) (i : nat) (listing : list str) : list str :=
  filter (glob_match dir ext i) listing.

(** The loop over [range(7)] that extends [all_files]. *)
Definition collect (dir ext : str) (listing : list str) : list str :=
  flat_map (fun i => glob dir ext i listing) (seq 0 7).

(** The order of the decorated entries. *)
Definition entry_le (e1 e2 : key * str) : Prop :=
  key_leb (fst e1) (fst e2) = true.

(** An entry made by [keyed] carries its path inside its key. *)
Definition decorated (e : key * str) : Prop := snd (fst e) = snd e.

(** The order the collector promises: first by partition index, then by
    path. *)
Definition path_le (a b : str) : Prop :=
  exists na nb : Z,
    part_index a = Some na /\ part_index b = Some nb
    /\ (na < nb \/ (na = nb /\ str_leb a b = true))%Z.

(** A path as the glob patterns of the scripts produce it: under [src] or
    [html_output], a directory [part] with one decimal digit. *)
Definition under_part (dir : str) (i : nat) (x : str) : Prop :=
  exists name, x = dir ++ lit "/part" ++ digit_char i :: slash :: name.

Definition collected (x : str) : Prop :=
  exists i, (i < 10)%nat
    /\ (under_part (lit "src") i x \/ under_part (lit "html_output") i x).

(** [x] is a path of partition [i], of the sources or of the output. *)
Definition in_partition (i : nat) (x : str) : Prop :=
  under_part (lit "src") i x \/ under_part (lit "html_output") i x.

End Collector.

(** ** [convert_html_only.py]: converter, combiner and [main] *)

Module HtmlOnly.

Import Re Markdown Collector.

Definition create_html_template : str := HtmlOnlyTemplate.create_html_template.

(** *** Files and printed lines

    A file system is the list of the paths that exist, in directory-scan
    order, each with its text; [None] is a file that [open] or [read]
    fails on (not readable, or not UTF-8).  Directories are not listed:
    a directory is there when a file is under it, or when [os.makedirs] has
    made it, which changes nothing for the files. *)
Definition fs : Type := list (str * option str).

Fixpoint read (f : fs) (path : str) : option str :=
  match f with
  | [] => None
  | (p, c) :: r => if Str.eqb p path then c else read r path
  end.

Fixpoint write (f : fs) (path content : str) : fs :=
  match f with
  | [] => [(path, Some content)]
  | (p, c) :: r =>
    if Str.eqb p path then (p, Some content) :: r
    else (p, c) :: write r path content
  end.

Definition listing (f : fs) : list str := List.map fst f.

(** The directories above [path]: what stands before each of its slashes. *)
Fixpoint ancestors (done rest : str) : list str :=
  match rest with
  | [] => []
  | c :: r =>
    (if (c =? slash)%N then [done] else []) ++ ancestors (done ++ [c]) r
  end.

(** [os.makedirs(path, exist_ok=True)] returns ([true]) unless [path] is
    empty, or [path] or a directory above it is there as a file: then
    [mkdir] raises and so does the call.  Rights of access are not
    modelled. *)
Definition makedirs (f : fs) (path : str) : bool :=
  negb (Str.eqb path [])
  && forallb (fun d => negb (existsb (Str.eqb d) (listing f)))
       (ancestors [] path ++ [path]).

(** [os.path.dirname]: what stands before the last slash, without the
    slashes it ends with unless it is made of slashes only. *)
Fixpoint drop_name (reversed : str) : str :=
  match reversed with
  | [] => []
  | c :: r => if (c =? slash)%N then reversed else drop_name r
  end.

Fixpoint drop_slashes (reversed : str) : str :=
  match reversed with
  | [] => []
  | c :: r => if (c =? slash)%N then drop_slashes r else reversed
  end.

Definition dirname (path : str) : str :=
  let head := drop_name (rev path) in
  if forallb (N.eqb slash) head then rev head else rev (drop_slashes head).

(** The lines the script prints that carry data; banners of fixed text are
    left out. *)
Inductive event : Type :=
| Converted (md_file html_file : str)
| ConvertError (md_file : str)
| Found (all_files : list str)
| Tally (success_count total_count : nat)
| ReadError (html_file : str)
| CreatedCombined (combined_file : str)
| AllDone (combined_file : str).

Record world : Type := mkWorld {
  files : fs;
  printed : list event
}.

Definition print (e : event) (w : world) : world :=
  mkWorld (files w) (printed w ++ [e]).

(** An exception that leaves [main]. *)
Inductive failure : Type :=
| MakedirsFailure (path : str)
| SortKeyFailure
| FormatFailure (e : Format.error).

Inductive outcome (A : Type) : Type :=
| Return (a : A)
| Raised (e : failure).
Arguments Return {A} a.
Arguments Raised {A} e.

(** [os.path.basename]. *)
Definition basename (path : str) : str := last (split (lit "/") path) [].

(** *** [convert_md_file_to_html] *)

Definition title_of (md_file : str) : str :=
  replace (lit "_") (lit " ") (replace (lit ".md") [] (basename md_file)).

Definition html_path (md_file : str) : str :=
  replace (lit "src/") (lit "html_output/")
    (replace (lit ".md") (lit ".html") md_file).

(** Every exception of the body is caught: the function prints the error
    and returns [None]. *)
Definition convert_md_file_to_html (md_file : str) (w : world)
  : option str * world :=
  match read (files w) md_file with
  | None => (None, print (ConvertError md_file) w)
  | Some md_content =>
    let html_content := simple_markdown_to_html md_content in
    let title := title_of md_file in
    let template := create_html_template in
    match Format.format template
            [(lit "content", html_content); (lit "title", title)] with
    | Format.Raise _ => (None, print (ConvertError md_file) w)
    | Format.Ok full_html =>
      let html_file := html_path md_file in
      if makedirs (files w) (dirname html_file) then
        let w := mkWorld (write (files w) html_file full_html) (printed w) in
        (Some html_file, print (Converted md_file html_file) w)
      else (None, print (ConvertError md_file) w)
    end
  end.

(** *** [create_combined_html] *)

Local Open Scope string_scope.

(** The literal bound to [title_page]. *)
Definition title_page_lines : list string :=
  [ "";
    "    <h1>《只有弱智才买股票》</h1>";
    "    <div style=" ++ dq ++ "text-align: center; margin-top: 3em;" ++ dq ++ ">";
    "        <h2>二级市场与生产实践的彻底脱节</h2>";
    "        <h3>——一个投机泡沫的悼词</h3>";
    "    </div>";
    "    <div style=" ++ dq ++ "page-break-after: always;" ++ dq ++ "></div>";
    "    " ].

(** The literal [toc] starts from. *)
Definition toc_open_lines : list string :=
  [ "";
    "    <div class=" ++ dq ++ "toc" ++ dq ++ ">";
    "        <h2>目录</h2>";
    "        <ul>";
    "    " ].

(** The literal appended to [toc] after the entries. *)
Definition toc_close_lines : list string :=
  [ "";
    "        </ul>";
    "    </div>";
    "    " ].

(** The title passed by [create_combined_html]. *)
Definition combined_title_text : string := "《只有弱智才买股票》- 完整版".

Local Close Scope string_scope.

Definition title_page : str := text_of_lines title_page_lines.

(** [os.path.basename(html_file).replace('.html', '')]. *)
Definition base_name (html_file : str) : str :=
  replace (lit ".html") [] (basename html_file).

Definition readable_name (html_file : str) : str :=
  replace (lit "_") (lit " ") (base_name html_file).

Definition toc_entry (html_file : str) : str :=
  lit "<li><a href=" ++ lit dq ++ lit "#" ++ base_name html_file ++ lit dq
  ++ lit ">" ++ readable_name html_file ++ lit "</a></li>".

Definition toc (all_files : list str) : str :=
  text_of_lines toc_open_lines
  ++ List.concat (List.map toc_entry all_files)
  ++ text_of_lines toc_close_lines.

(** [r'<body>(.*?)</body>'] and [r'<div class="container">(.*?)</div>'],
    both with [re.DOTALL]. *)
Definition body_pat : pattern :=
  mkPat false (lit "<body>") true (Some (lit "</body>")).
Definition container_pat : pattern :=
  mkPat false (lit "<div class=" ++ lit dq ++ lit "container" ++ lit dq ++ lit ">")
    true (Some (lit "</div>")).

Definition section_open (html_file : str) : str :=
  lit "<div id=" ++ lit dq ++ base_name html_file ++ lit dq ++ lit ">".

Definition page_break : str :=
  lit "<div style=" ++ lit dq ++ lit "page-break-after: always;" ++ lit dq
  ++ lit "></div>".

(** What the body of the second loop appends to [combined_content] for the
    text of one file. *)
Definition section_of (html_file content : str) : list str :=
  match search body_pat content with
  | Some body_content =>
    let body_content := sub container_pat [] [] body_content in
    [section_open html_file; body_content; lit "</div>"; page_break]
  | None => []
  end.

(** The text between the first [<body>] and the first [</body>] after
    it. *)
Definition first_body (content : str) : option str :=
  first_span (lit "<body>") (lit "</body>") content.

(** The entries a section is made of. *)
Definition section_around (html_file body_content : str) : list str :=
  [section_open html_file; sub container_pat [] [] body_content;
   lit "</div>"; page_break].

(** One turn of the second loop: a file that cannot be read is reported
    and passed over. *)
Definition add_file (f : fs) (html_file : str) : list str * list event :=
  match read f html_file with
  | Some content => (section_of html_file content, [])
  | None => ([], [ReadError html_file])
  end.

Definition sections (f : fs) (all_files : list str) : list str :=
  flat_map (fun h => fst (add_file f h)) all_files.

Definition read_errors (f : fs) (all_files : list str) : list event :=
  flat_map (fun h => snd (add_file f h)) all_files.

(** Whether the second loop appends a section for [html_file]. *)
Definition has_section (f : fs) (html_file : str) : bool :=
  match fst (add_file f html_file) with
  | [] => false
  | _ => true
  end.

(** [combined_content] when the second loop ends. *)
Definition combined_content (f : fs) (all_files : list str) : list str :=
  title_page :: toc all_files :: sections f all_files.

Definition combined_file : str := lit "html_output/combined_all_parts.html".

Definition create_combined_html (w : world) : outcome str * world :=
  let all_files := collect (lit "html_output") (lit ".html") (listing (files w)) in
  match sort_files all_files with
  | None => (Raised SortKeyFailure, w)
  | Some all_files =>
    let content := combined_content (files w) all_files in
    let w := mkWorld (files w) (printed w ++ read_errors (files w) all_files) in
    let full_combined_content := join (lit nl) content in
    let template := create_html_template in
    match Format.format template
            [(lit "content", full_combined_content);
             (lit "title", lit combined_title_text)] with
    | Format.Raise e => (Raised (FormatFailure e), w)
    | Format.Ok combined_html =>
      let w := mkWorld (write (files w) combined_file combined_html)
                       (printed w) in
      (Return combined_file, print (CreatedCombined combined_file) w)
    end
  end.

(** *** [main] *)

(** [if html_file:] holds for a path that is not empty. *)
Definition truthy (html_file : option str) : bool :=
  match html_file with
  | Some (_ :: _) => true
  | _ => false
  end.

(** The conversion loop, from [success_count]. *)
Fixpoint convert_each (all_files : list str) (success_count : nat)
    (w : world) : nat * world :=
  match all_files with
  | [] => (success_count, w)
  | md_file :: rest =>
    let '(html_file, w) := convert_md_file_to_html md_file w in
    convert_each rest
      (if truthy html_file then S success_count else success_count) w
  end.

(** [main] after the output directory is made. *)
Definition convert_all (w : world) : outcome unit * world :=
  let all_files := collect (lit "src") (lit ".md") (listing (files w)) in
  match sort_files all_files with
  | None => (Raised SortKeyFailure, w)
  | Some all_files =>
    let w := print (Found all_files) w in
    let total_count := List.length all_files in
    let '(success_count, w) := convert_each all_files 0 w in
    let w := print (Tally success_count total_count) w in
    if (0 <? success_count)%nat then
      match create_combined_html w with
      | (Raised e, w) => (Raised e, w)
      | (Return combined_file, w) =>
        (Return tt, print (AllDone combined_file) w)
      end
    else (Return tt, w)
  end.

Definition output_dir : str := lit "html_output".

Definition main (w : world) : outcome unit * world :=
  if makedirs (files w) output_dir then convert_all w
  else (Raised (MakedirsFailure output_dir), w).

(** *** The run, as the claims speak of it *)

(** The conversions of the loop in order: each file with what the
    converter returned for it. *)
Fixpoint convert_trace (all_files : list str) (w : world)
  : list (str * option str) :=
  match all_files with
  | [] => []
  | md_file :: rest =>
    let '(html_file, w') := convert_md_file_to_html md_file w in
    (md_file, html_file) :: convert_trace rest w'
  end.

(** The output paths the loop counted. *)
Definition successes (trace : list (str * option str)) : list str :=
  flat_map (fun e => match snd e with
                     | Some (c :: path) => [c :: path]
                     | _ => []
                     end) trace.

(** The line the converter prints for a file. *)
Definition line_of (e : str * option str) : event :=
  match snd e with
  | Some html_file => Converted (fst e) html_file
  | None => ConvertError (fst e)
  end.

(** *** Paths of the pipeline *)

(** A source file of partition [i], and the output file the converter
    names for it. *)
Definition source_path (i : nat) (stem : str) : str :=
  lit "src/part" ++ digit_char i :: slash :: stem ++ lit ".md".

Definition output_path (i : nat) (stem : str) : str :=
  lit "html_output/part" ++ digit_char i :: slash :: stem ++ lit ".html".

End HtmlOnly.

(** ** [convert_to_pdf.py]: the conversion loop *)

Module ToPdf.

Import Collector.

(** What [subprocess.run] comes back with: the exit status of the
    program, or an exception (the program cannot be started). *)
Inductive ran : Type :=
| Exit (returncode : Z)
| Fails.

(** [os.path.join(a, b)] for two components. *)
Definition path_join (a b : str) : str :=
  if startswith b (lit "/") then b
  else if Str.eqb a [] || endswith a (lit "/") then a ++ b
  else a ++ lit "/" ++ b.

Definition output_dir : str := lit "pdf_output".

(** The output file of the loop for [md_file]. *)
Definition pdf_file_of (md_file : str) : str :=
  let base_name := replace (lit ".md") (lit ".pdf") (HtmlOnly.basename md_file) in
  path_join output_dir base_name.

(** The command of [convert_md_to_pdf_wkhtmltopdf]. *)
Definition wkhtmltopdf_cmd (md_file pdf_file : str) : list str :=
  [lit "pandoc"; md_file; lit "-o"; pdf_file;
   lit "--pdf-engine=wkhtmltopdf"; lit "--css=pdf_style.css";
   lit "--toc"; lit "--toc-depth=3";
   lit "--variable"; lit "geometry:margin=1in";
   lit "--variable"; lit "fontsize=12pt";
   lit "--variable"; lit "documentclass=article";
   lit "--variable"; lit "mainfont=SimSun";
   lit "--variable"; lit "CJKmainfont=SimSun"].

(** The command of [convert_md_to_pdf_basic]. *)
Definition basic_cmd (md_file pdf_file : str) : list str :=
  [lit "pandoc"; md_file; lit "-o"; pdf_file;
   lit "--toc"; lit "--toc-depth=3";
   lit "--variable"; lit "geometry:margin=1in";
   lit "--variable"; lit "fontsize=12pt"].

Section Tools.

(** The machine the programs run on, and what running a command does to
    it. *)
Variable env : Type.
Variable run : list str -> env -> ran * env.

(** The state of the script: the machine and the commands run so far. *)
Record state : Type := mkState {
  machine : env;
  calls : list (list str)
}.

Definition subprocess_run (cmd : list str) (s : state) : ran * state :=
  let '(r, e) := run cmd (machine s) in
  (r, mkState e (calls s ++ [cmd])).

(** Both converters return [True] on exit status 0 and [False] on any
    other status and on any exception. *)
Definition succeeded (r : ran) : bool :=
  match r with
  | Exit rc => (rc =? 0)%Z
  | Fails => false
  end.

Definition convert_md_to_pdf_wkhtmltopdf (md_file pdf_file : str) (s : state)
  : bool * state :=
  let '(result, s) := subprocess_run (wkhtmltopdf_cmd md_file pdf_file) s in
  (succeeded result, s).

Definition convert_md_to_pdf_basic (md_file pdf_file : str) (s : state)
  : bool * state :=
  let '(result, s) := subprocess_run (basic_cmd md_file pdf_file) s in
  (succeeded result, s).

(** The body of the loop for one file: the first method, then the basic
    one if the first failed. *)
Definition convert_one (md_file : str) (s : state) : bool * state :=
  let pdf_file := pdf_file_of md_file in
  let '(success, s) := convert_md_to_pdf_wkhtmltopdf md_file pdf_file s in
  if negb success then convert_md_to_pdf_basic md_file pdf_file s
  else (success, s).

(** The loop of [main], from [success_count]. *)
Fixpoint convert_each (all_files : list str) (success_count : nat)
    (s : state) : nat * state :=
  match all_files with
  | [] => (success_count, s)
  | md_file :: rest =>
    let '(success, s) := convert_one md_file s in
    convert_each rest (if success then S success_count else success_count) s
  end.

End Tools.

(** The commands the loop runs for one file: the first method, and the
    basic one when [fallback] is set. *)
Definition commands_for (e : str * bool) : list (list str) :=
  let md_file := fst e in
  wkhtmltopdf_cmd md_file (pdf_file_of md_file)
  :: (if snd e then [basic_cmd md_file (pdf_file_of md_file)] else []).

(** How many files went without the fallback. *)
Definition first_tries (tries : list bool) : nat :=
  List.length (filter negb tries).

End ToPdf.

(** ** [convert_to_pdf_html.py] *)

Module PdfHtml.

Import Collector ToPdf.

Definition create_html_template : str := PdfHtmlTemplate.create_html_template.

(** The lines the script prints that carry data. *)
Inductive event : Type :=
| Installed (package : str)
| InstallFailed (package : str)
| Found (all_files : list str)
| ConvertedHtml (md_file : str)
| HtmlError (md_file : str)
| ConvertedPdf (html_file engine : str)
| EnginesFailed
| EngineRaised
| Tally (success_count total_count : nat).

(** An exception that leaves [main]. *)
Inductive abort : Type :=
| CannotStart (cmd : list str)
| MakedirsFailure (path : str)
| SortKeyFailure.

Inductive outcome (A : Type) : Type :=
| Return (a : A)
| Raised (e : abort).
Arguments Return {A} a.
Arguments Raised {A} e.

Definition packages : list str := [lit "markdown"; lit "weasyprint"; lit "PyPDF2"].

Definition pip_cmd (package : str) : list str :=
  [lit "pip3"; lit "install"; package].

Definition wkhtmltopdf_cmd (html_file pdf_file : str) : list str :=
  [lit "wkhtmltopdf"; lit "--enable-local-file-access"; lit "--print-media-type";
   lit "--page-size"; lit "A4";
   lit "--margin-top"; lit "2cm"; lit "--margin-bottom"; lit "2cm";
   lit "--margin-left"; lit "1.5cm"; lit "--margin-right"; lit "1.5cm";
   lit "--encoding"; lit "UTF-8"; lit "--minimum-font-size"; lit "12";
   html_file; pdf_file].

Definition weasyprint_cmd (html_file pdf_file : str) : list str :=
  [lit "weasyprint"; html_file; pdf_file].

Section Tools.

Variable env : Type.
Variable run : list str -> env -> ran * env.

(** [markdown.Markdown(extensions=[...]).convert(md_content)]: the HTML it
    returns, or [None] when it raises. *)
Variable markdown_convert : str -> option str.

(** The merge of the PDFs of the output directory with [PyPDF2], with
    every exception caught. *)
Variable merge_pdfs : env -> env.

(** Whether [os.remove] removes a file that is there; it raises when this
    does not hold (rights of access, a directory under that name). *)
Variable removable : str -> bool.

Record world : Type := mkWorld {
  files : HtmlOnly.fs;
  printed : list event;
  machine : env;
  calls : list (list str)
}.

Definition print (e : event) (w : world) : world :=
  mkWorld (files w) (printed w ++ [e]) (machine w) (calls w).

Definition subprocess_run (cmd : list str) (w : world) : ran * world :=
  let '(r, e) := run cmd (machine w) in
  (r, mkWorld (files w) (printed w) e (calls w ++ [cmd])).

(** Every exception of the body is caught: the function prints the error
    and returns [None]. *)
Definition convert_md_to_html (md_file : str) (w : world)
  : option str * world :=
  match HtmlOnly.read (files w) md_file with
  | None => (None, print (HtmlError md_file) w)
  | Some md_content =>
    match markdown_convert md_content with
    | None => (None, print (HtmlError md_file) w)
    | Some html_content =>
      let title := HtmlOnly.title_of md_file in
      let template := create_html_template in
      match Format.format template
              [(lit "title", title); (lit "content", html_content)] with
      | Format.Raise _ => (None, print (HtmlError md_file) w)
      | Format.Ok full_html =>
        let html_file := replace (lit ".md") (lit ".html") md_file in
        let w := mkWorld (HtmlOnly.write (files w) html_file full_html)
                         (printed w) (machine w) (calls w) in
        (Some html_file, print (ConvertedHtml md_file) w)
      end
    end
  end.

Definition is_zero (rc : Z) : bool := (rc =? 0)%Z.

(** [wkhtmltopdf] first; [weasyprint] when it exits with another status
    than 0.  An exception of either call ([FileNotFoundError] or another)
    is caught by one of the two handlers, which print a line and return
    [False] both. *)
Definition convert_html_to_pdf (html_file pdf_file : str) (w : world)
  : bool * world :=
  match subprocess_run (wkhtmltopdf_cmd html_file pdf_file) w with
  | (Fails, w) => (false, print EngineRaised w)
  | (Exit rc, w) =>
    if is_zero rc then (true, print (ConvertedPdf html_file (lit "wkhtmltopdf")) w)
    else
      match subprocess_run (weasyprint_cmd html_file pdf_file) w with
      | (Fails, w) => (false, print EngineRaised w)
      | (Exit rc, w) =>
        if is_zero rc
        then (true, print (ConvertedPdf html_file (lit "weasyprint")) w)
        else (false, print EnginesFailed w)
      end
  end.

(** [subprocess.run(..., check=True)] inside a handler for
    [CalledProcessError] only: another status than 0 is reported, an
    exception of the call goes up. *)
Fixpoint install_each (pkgs : list str) (w : world) : outcome unit * world :=
  match pkgs with
  | [] => (Return tt, w)
  | package :: rest =>
    match subprocess_run (pip_cmd package) w with
    | (Fails, w) => (Raised (CannotStart (pip_cmd package)), w)
    | (Exit rc, w) =>
      install_each rest
        (print (if is_zero rc then Installed package else InstallFailed package) w)
    end
  end.

Definition install_requirements (w : world) : outcome unit * world :=
  install_each packages w.

(** The first loop of [main]: the HTML files made. *)
Fixpoint to_html_each (all_files : list str) (html_files : list str)
    (w : world) : list str * world :=
  match all_files with
  | [] => (html_files, w)
  | md_file :: rest =>
    let '(html_file, w) := convert_md_to_html md_file w in
    to_html_each rest
      (if HtmlOnly.truthy html_file
       then html_files ++ match html_file with Some h => [h] | None => [] end
       else html_files) w
  end.

(** The files without [path]. *)
Fixpoint remove (f : HtmlOnly.fs) (path : str) : HtmlOnly.fs :=
  match f with
  | [] => []
  | (p, c) :: r => if Str.eqb p path then r else (p, c) :: remove r path
  end.

(** [os.remove(html_file)] under [try: ... except: pass]: when the call
    raises (no such file, or [removable] does not hold) nothing changes. *)
Definition os_remove (f : HtmlOnly.fs) (path : str) : HtmlOnly.fs :=
  if removable path then remove f path else f.

Definition pdf_file_of (html_file : str) : str :=
  path_join output_dir
    (replace (lit ".html") (lit ".pdf") (HtmlOnly.basename html_file)).

(** The second loop of [main]. *)
Fixpoint to_pdf_each (html_files : list str) (success_count : nat)
    (w : world) : nat * world :=
  match html_files with
  | [] => (success_count, w)
  | html_file :: rest =>
    let '(success, w) := convert_html_to_pdf html_file (pdf_file_of html_file) w in
    if success then
      to_pdf_each rest (S success_count)
        (mkWorld (os_remove (files w) html_file) (printed w) (machine w)
           (calls w))
    else to_pdf_each rest success_count w
  end.

Definition main (w : world) : outcome unit * world :=
  match install_requirements w with
  | (Raised e, w) => (Raised e, w)
  | (Return _, w) =>
    if negb (HtmlOnly.makedirs (files w) output_dir)
    then (Raised (MakedirsFailure output_dir), w)
    else
    let all_files :=
      collect (lit "src") (lit ".md") (HtmlOnly.listing (files w)) in
    match sort_files all_files with
    | None => (Raised SortKeyFailure, w)
    | Some all_files =>
      let w := print (Found all_files) w in
      let total_count := List.length all_files in
      let '(html_files, w) := to_html_each all_files [] w in
      let '(success_count, w) := to_pdf_each html_files 0 w in
      let w := print (Tally success_count total_count) w in
      if (0 <? success_count)%nat
      then (Return tt,
            mkWorld (files w) (printed w) (merge_pdfs (machine w)) (calls w))
      else (Return tt, w)
    end
  end.

End Tools.

End PdfHtml.

(** * Properties *)

(** ** Prefixes and substrings *)

Section StrFacts.

Lemma eqb_eq (a b : str) : eqb a b = true <-> a = b.
Proof.
  unfold eqb. destruct (list_eq_dec N.eq_dec a b); split; congruence.
Qed.

Lemma strip_prefix_Some (p s r : str) :
  strip_prefix p s = Some r <-> s = p ++ r.
Proof.
  revert s; induction p as [|a p IH]; intros s; simpl.
  - split; congruence.
  - destruct s as [|b s]; [split; discriminate|].
    destruct (N.eqb_spec a b) as [->|Hne].
    + rewrite IH. split; congruence.
    + split; [discriminate | intros H; congruence].
Qed.

Lemma strip_prefix_app (p r : str) : strip_prefix p (p ++ r) = Some r.
Proof. now apply strip_prefix_Some. Qed.

Lemma contains_app (sub a b : str) : contains sub (a ++ sub ++ b) = true.
Proof.
  induction a as [|c a IH]; simpl.
  - assert (H : startswith (sub ++ b) sub = true)
      by (unfold startswith; now rewrite strip_prefix_app).
    destruct (sub ++ b); simpl; now rewrite H.
  - rewrite IH. apply orb_true_r.
Qed.

Lemma contains_inv (sub s : str) :
  contains sub s = true -> exists a b, s = a ++ sub ++ b.
Proof.
  induction s as [|c s IH]; simpl.
  - unfold startswith.
    destruct (strip_prefix sub []) as [r|] eqn:E; [|discriminate].
    apply strip_prefix_Some in E. intros _. exists [], r. exact E.
  - unfold startswith. destruct (strip_prefix sub (c :: s)) as [r|] eqn:E.
    + apply strip_prefix_Some in E. intros _. exists [], r. exact E.
    + simpl. intros H. destruct (IH H) as (a & b & ->).
      exists (c :: a), b. reflexivity.
Qed.

End StrFacts.

(** Replaces a literal of the goal by its code points. *)
Ltac eval_lit t :=
  let v := eval vm_compute in t in
  change t with v in *.

(** ** The document wrapper *)

Section Wrapper.

Example format_ok :
  Format.format (lit "<t>{title}</t>{{x}}{content}")
    [(lit "content", lit "C"); (lit "title", lit "T")]
  = Format.Ok (lit "<t>T</t>{x}C").
Proof. vm_compute. reflexivity. Qed.

Example format_css :
  Format.format (lit "a { b: c }") [(lit "content", lit "C")]
  = Format.Raise (Format.KeyError (lit " b")).
Proof. vm_compute. reflexivity. Qed.

Variables content title : str.

(** C1.  Filling the template of [convert_html_only.py] raises for every
    fragment and title: the braces of the style rules are single braces, and
    the scanner meets the one of [@page] inside the field that the one of
    [@media print] opens.  In the template of [convert_to_pdf_html.py] the
    field opened by [@page] is named by the text up to the colon of [size:],
    which is no keyword of the call.  No document is returned in either
    case. *)
Theorem wrapper_format_raises :
  Format.format HtmlOnlyTemplate.create_html_template
    [(lit "content", content); (lit "title", title)]
  = Format.Raise (Format.ValueError "unexpected '{' in field name")
  /\
  Format.format PdfHtmlTemplate.create_html_template
    [(lit "title", title); (lit "content", content)]
  = Format.Raise (Format.KeyError (lit nl ++ lit "            size")).
Proof.
  split; vm_compute; reflexivity.
Qed.

End Wrapper.

(** ** The sort key *)

Section SortKey.

Import Collector.

Lemma split_go_nonempty (sep : str) (k : nat) (s : str) :
  split_go sep k s <> [].
Proof.
  revert k; induction s as [|c t IH]; intros k; simpl.
  - discriminate.
  - destruct k; [|apply IH].
    destruct (startswith (c :: t) sep); [discriminate|].
    destruct (split_go sep 0 t) eqn:E; discriminate.
Qed.

(** The first segment of a text that starts with a code point other than a
    slash, followed by a slash: either that code point alone, or a text
    that goes on with the slash. *)
Lemma split_part_head (d : char) (rest : str) :
  d <> slash ->
  exists seg tl,
    split_go (lit "/part") 0 (d :: slash :: rest) = seg :: tl
    /\ (seg = [d] \/ exists x, seg = d :: slash :: x).
Proof.
  intros Hd. eval_lit (lit "/part").
  cbn [split_go]. unfold startswith at 1. cbn [strip_prefix].
  destruct (N.eqb_spec 47 d) as [E|_]; [exfalso; apply Hd; now rewrite <- E|].
  destruct (startswith _ _).
  - eexists _, _. split; [reflexivity|]. now left.
  - destruct (split_go _ 0 rest) as [|h r] eqn:E.
    + now apply split_go_nonempty in E.
    + eexists _, _. split; [reflexivity|]. right. now exists h.
Qed.

Lemma split_slash_head (d : char) (seg : str) :
  d <> slash ->
  seg = [d] \/ (exists x, seg = d :: slash :: x) ->
  exists tl, split (lit "/") seg = [d] :: tl.
Proof.
  intros Hd [->|[x ->]]; eval_lit (lit "/"); unfold split; cbn [split_go];
    unfold startswith at 1; cbn [strip_prefix];
    (destruct (N.eqb_spec 47 d) as [E|_];
     [exfalso; apply Hd; now rewrite <- E|]).
  - now exists [].
  - unfold startswith. cbn. eexists. reflexivity.
Qed.

Lemma digit_char_not_slash (i : nat) : (i < 10)%nat -> digit_char i <> slash.
Proof.
  unfold digit_char, slash. intros H E. lia.
Qed.

(** An ASCII code point is a digit only as one of [0] to [9]. *)
Lemma digit_val_ascii (c : char) :
  Format.is_ascii c = true -> Format.is_digit c = false -> digit_val c = None.
Proof.
  intros A D. unfold digit_val. rewrite D.
  unfold Format.is_ascii in A. apply N.ltb_lt in A.
  assert (F : Forall (fun z => ((z <=? c) && (c <? z + 10))%N = false)
                decimal_zeros).
  { unfold decimal_zeros.
    repeat constructor; apply andb_false_intro1, N.leb_gt; lia. }
  induction F as [|z l Hz _ IH]; [reflexivity|].
  cbn [List.find]. now rewrite Hz.
Qed.

Lemma int_digit (i : nat) :
  (i < 10)%nat -> int [digit_char i] = Some (Z.of_nat i).
Proof.
  intros H.
  do 10 (destruct i as [|i]; [vm_compute; reflexivity|]). lia.
Qed.

(** The key of a text that continues, after a first [/part], with a digit
    and a slash. *)
Lemma part_index_tail (i : nat) (rest : str) :
  (i < 10)%nat ->
  exists seg tl,
    split_go (lit "/part") 0 (digit_char i :: slash :: rest) = seg :: tl
    /\ exists tl', split (lit "/") seg = [digit_char i] :: tl'.
Proof.
  intros H. pose proof (digit_char_not_slash H) as Hd.
  destruct (split_part_head rest Hd) as (seg & tl & E & Hs).
  exists seg, tl. split; [exact E|]. now apply split_slash_head.
Qed.

Lemma split_src (r : str) :
  split (lit "/part") (lit "src/part" ++ r)
  = lit "src" :: split (lit "/part") r.
Proof. reflexivity. Qed.

Lemma split_html_output (r : str) :
  split (lit "/part") (lit "html_output/part" ++ r)
  = lit "html_output" :: split (lit "/part") r.
Proof. reflexivity. Qed.

Lemma part_index_src (i : nat) (rest : str) :
  (i < 10)%nat ->
  part_index (lit "src/part" ++ digit_char i :: slash :: rest)
  = Some (Z.of_nat i).
Proof.
  intros H. destruct (part_index_tail rest H) as (seg & tl & E & tl' & E').
  unfold part_index. rewrite split_src. unfold split at 1. rewrite E.
  cbn [nth_error]. rewrite E'. now apply int_digit.
Qed.

Lemma part_index_html_output (i : nat) (rest : str) :
  (i < 10)%nat ->
  part_index (lit "html_output/part" ++ digit_char i :: slash :: rest)
  = Some (Z.of_nat i).
Proof.
  intros H. destruct (part_index_tail rest H) as (seg & tl & E & tl' & E').
  unfold part_index. rewrite split_html_output. unfold split at 1. rewrite E.
  cbn [nth_error]. rewrite E'. now apply int_digit.
Qed.

End SortKey.

(** ** The order of the collected files *)

Section KeyOrder.

Import Collector.

Lemma str_leb_total (a b : str) : str_leb a b = false -> str_leb b a = true.
Proof.
  revert b; induction a as [|x a IH]; intros [|y b]; simpl; try congruence.
  destruct (N.ltb_spec x y); [discriminate|].
  destruct (N.ltb_spec y x); [reflexivity|]. apply IH.
Qed.

Lemma str_leb_antisym (a b : str) :
  str_leb a b = true -> str_leb b a = true -> a = b.
Proof.
  revert b; induction a as [|x a IH]; intros [|y b]; simpl; try congruence.
  destruct (N.ltb_spec x y), (N.ltb_spec y x); try discriminate; try lia.
  intros H1 H2. assert (x = y) by lia. subst. f_equal. now apply IH.
Qed.

Lemma str_leb_trans (a b c : str) :
  str_leb a b = true -> str_leb b c = true -> str_leb a c = true.
Proof.
  revert b c; induction a as [|x a IH]; intros [|y b] [|z c]; simpl;
    try congruence.
  destruct (N.ltb_spec x y), (N.ltb_spec y x), (N.ltb_spec y z),
    (N.ltb_spec z y), (N.ltb_spec x z), (N.ltb_spec z x);
    try discriminate; try reflexivity; try lia.
  apply IH.
Qed.

Lemma key_leb_total (k1 k2 : key) :
  key_leb k1 k2 = false -> key_leb k2 k1 = true.
Proof.
  unfold key_leb. destruct (Z.ltb_spec (fst k1) (fst k2)); [discriminate|].
  destruct (Z.ltb_spec (fst k2) (fst k1)); [reflexivity|]. apply str_leb_total.
Qed.

Lemma key_leb_antisym (k1 k2 : key) :
  key_leb k1 k2 = true -> key_leb k2 k1 = true -> k1 = k2.
Proof.
  unfold key_leb. destruct k1 as [n1 s1], k2 as [n2 s2]; simpl.
  destruct (Z.ltb_spec n1 n2), (Z.ltb_spec n2 n1); try discriminate; try lia.
  intros H1 H2. assert (n1 = n2) by lia. subst. f_equal.
  now apply str_leb_antisym.
Qed.

Lemma key_leb_trans (k1 k2 k3 : key) :
  key_leb k1 k2 = true -> key_leb k2 k3 = true -> key_leb k1 k3 = true.
Proof.
  unfold key_leb. destruct k1 as [n1 s1], k2 as [n2 s2], k3 as [n3 s3]; simpl.
  destruct (Z.ltb_spec n1 n2), (Z.ltb_spec n2 n1), (Z.ltb_spec n2 n3),
    (Z.ltb_spec n3 n2), (Z.ltb_spec n1 n3), (Z.ltb_spec n3 n1);
    try discriminate; try reflexivity; try lia.
  apply str_leb_trans.
Qed.

Lemma insert_perm (e : key * str) (l : list (key * str)) :
  Permutation (insert e l) (e :: l).
Proof.
  induction l as [|e' l IH]; simpl; [reflexivity|].
  destruct (key_leb (fst e) (fst e')); [reflexivity|].
  rewrite IH. apply perm_swap.
Qed.

Lemma isort_perm (l : list (key * str)) : Permutation (isort l) l.
Proof.
  induction l as [|e l IH]; simpl; [reflexivity|].
  rewrite insert_perm. now constructor.
Qed.

Lemma insert_sorted (e : key * str) (l : list (key * str)) :
  StronglySorted entry_le l -> StronglySorted entry_le (insert e l).
Proof.
  induction 1 as [|e' l Hs IH Hall]; simpl.
  - repeat constructor.
  - destruct (key_leb (fst e) (fst e')) eqn:E.
    + constructor; [now constructor|]. constructor; [exact E|].
      eapply Forall_impl; [|exact Hall]. intros x Hx.
      unfold entry_le in *. eapply key_leb_trans; eauto.
    + constructor; [exact IH|].
      eapply Permutation_Forall; [symmetry; apply insert_perm|].
      constructor; [|exact Hall]. now apply key_leb_total.
Qed.

Lemma isort_sorted (l : list (key * str)) : StronglySorted entry_le (isort l).
Proof.
  induction l as [|e l IH]; simpl; [constructor | now apply insert_sorted].
Qed.

Lemma decorated_antisym (e1 e2 : key * str) :
  decorated e1 -> decorated e2 -> entry_le e1 e2 -> entry_le e2 e1 -> e1 = e2.
Proof.
  unfold decorated, entry_le. intros D1 D2 H1 H2.
  pose proof (key_leb_antisym _ _ H1 H2) as E.
  destruct e1 as [k1 x1], e2 as [k2 x2]; simpl in *. subst. reflexivity.
Qed.

(** Two sorted lists of decorated entries with the same entries are the
    same list. *)
Lemma sorted_perm_unique (l1 l2 : list (key * str)) :
  Forall decorated l1 ->
  StronglySorted entry_le l1 -> StronglySorted entry_le l2 ->
  Permutation l1 l2 -> l1 = l2.
Proof.
  revert l2; induction l1 as [|a l1 IH]; intros l2 D S1 S2 P.
  - now apply Permutation_nil in P.
  - destruct l2 as [|b l2];
      [symmetry in P; now apply Permutation_nil in P|].
    inversion D as [|? ? Da D1]; subst.
    inversion S1 as [|? ? S1' A1]; subst.
    inversion S2 as [|? ? S2' A2]; subst.
    assert (Db : decorated b).
    { rewrite Forall_forall in D. apply D.
      eapply Permutation_in; [symmetry; exact P|]. now left. }
    assert (E : a = b).
    { assert (Ha : In a (b :: l2))
        by (eapply Permutation_in; [exact P|]; now left).
      assert (Hb : In b (a :: l1))
        by (eapply Permutation_in; [symmetry; exact P|]; now left).
      destruct Ha as [->|Ha]; [reflexivity|].
      destruct Hb as [->|Hb]; [reflexivity|].
      rewrite Forall_forall in A1, A2.
      apply decorated_antisym; auto. }
    subst b. f_equal. apply IH; auto.
    now apply Permutation_cons_inv in P.
Qed.

End KeyOrder.

Section CollectorOrder.

Import Collector.

Lemma keyed_perm (l l' : list str) :
  Permutation l l' ->
  forall kl, keyed l = Some kl ->
  exists kl', keyed l' = Some kl' /\ Permutation kl kl'.
Proof.
  induction 1 as [|x l l' P IH|x y l|l l' l'' P1 IH1 P2 IH2]; intros kl.
  - simpl. intros [= <-]. now exists [].
  - simpl. destruct (sort_key x) as [k|]; [|discriminate].
    destruct (keyed l) as [kr|]; [|discriminate]. intros [= <-].
    destruct (IH kr eq_refl) as (kr' & -> & P').
    exists ((k, x) :: kr'). split; [reflexivity | now constructor].
  - simpl. destruct (sort_key y) as [ky|]; [|discriminate].
    destruct (sort_key x) as [kx|]; [|discriminate].
    destruct (keyed l) as [kr|]; [|discriminate]. intros [= <-].
    exists ((kx, x) :: (ky, y) :: kr). split; [reflexivity | apply perm_swap].
  - intros E. destruct (IH1 kl E) as (kl' & E' & P').
    destruct (IH2 kl' E') as (kl'' & E'' & P'').
    exists kl''. split; [exact E'' | now transitivity kl'].
Qed.

Lemma keyed_spec (l : list str) (kl : list (key * str)) :
  keyed l = Some kl ->
  List.map snd kl = l
  /\ Forall decorated kl
  /\ Forall (fun e => part_index (snd e) = Some (fst (fst e))) kl.
Proof.
  revert kl; induction l as [|x l IH]; simpl; intros kl.
  - intros [= <-]. repeat split; constructor.
  - unfold sort_key at 1. destruct (part_index x) as [n|] eqn:E; [|discriminate].
    destruct (keyed l) as [kr|]; [|discriminate]. intros [= <-].
    destruct (IH kr eq_refl) as (M & D & K).
    split; [|split].
    + simpl. now rewrite M.
    + constructor; [reflexivity | exact D].
    + constructor; [exact E | exact K].
Qed.

Lemma keyed_defined (l : list str) :
  Forall (fun x => part_index x <> None) l -> exists kl, keyed l = Some kl.
Proof.
  induction 1 as [|x l Hx _ [kr IH]]; simpl.
  - now exists [].
  - unfold sort_key. destruct (part_index x) as [n|]; [|congruence].
    rewrite IH. eexists. reflexivity.
Qed.

Lemma entry_le_path_le (e1 e2 : key * str) :
  decorated e1 -> decorated e2 ->
  part_index (snd e1) = Some (fst (fst e1)) ->
  part_index (snd e2) = Some (fst (fst e2)) ->
  entry_le e1 e2 -> path_le (snd e1) (snd e2).
Proof.
  unfold decorated, entry_le, key_leb.
  destruct e1 as [[n1 s1] x1], e2 as [[n2 s2] x2]; simpl.
  intros -> -> K1 K2 H. exists n1, n2. repeat split; auto.
  destruct (Z.ltb_spec n1 n2); [now left|].
  destruct (Z.ltb_spec n2 n1); [discriminate|]. right. split; [lia | exact H].
Qed.

Lemma sorted_map_snd (kl : list (key * str)) :
  Forall decorated kl ->
  Forall (fun e => part_index (snd e) = Some (fst (fst e))) kl ->
  StronglySorted entry_le kl ->
  StronglySorted path_le (List.map snd kl).
Proof.
  intros D K S. induction S as [|e kl S IH A]; simpl; [constructor|].
  inversion D; inversion K; subst. constructor; [now apply IH|].
  rewrite Forall_map. rewrite Forall_forall in *. intros e' He'.
  apply entry_le_path_le; auto.
Qed.

Lemma collected_part_index (x : str) :
  collected x -> part_index x <> None.
Proof.
  intros (i & Hi & [[name ->]|[name ->]]).
  - change (lit "src" ++ lit "/part" ++ digit_char i :: slash :: name)
      with (lit "src/part" ++ digit_char i :: slash :: name).
    rewrite part_index_src by exact Hi. discriminate.
  - change (lit "html_output" ++ lit "/part" ++ digit_char i :: slash :: name)
      with (lit "html_output/part" ++ digit_char i :: slash :: name).
    rewrite part_index_html_output by exact Hi. discriminate.
Qed.

Lemma sort_files_spec (l sorted : list str) :
  sort_files l = Some sorted ->
  Permutation sorted l /\ StronglySorted path_le sorted.
Proof.
  unfold sort_files. destruct (keyed l) as [kl|] eqn:E; [|discriminate].
  intros [= <-]. destruct (keyed_spec _ E) as (M & D & K). split.
  - rewrite <- M. apply Permutation_map, isort_perm.
  - apply sorted_map_snd.
    + eapply Permutation_Forall; [symmetry; apply isort_perm | exact D].
    + eapply Permutation_Forall; [symmetry; apply isort_perm | exact K].
    + apply isort_sorted.
Qed.

Lemma sort_files_perm (l l' sorted : list str) :
  Permutation l l' -> sort_files l = Some sorted ->
  sort_files l' = Some sorted.
Proof.
  unfold sort_files. intros P.
  destruct (keyed l) as [kl|] eqn:E; [|discriminate]. intros [= <-].
  destruct (keyed_perm P E) as (kl' & -> & P'). do 2 f_equal.
  destruct (keyed_spec _ E) as (_ & D & _).
  symmetry. apply sorted_perm_unique.
  - eapply Permutation_Forall; [symmetry; apply isort_perm | exact D].
  - apply isort_sorted.
  - apply isort_sorted.
  - rewrite !isort_perm. exact P'.
Qed.

End CollectorOrder.

Section CollectorClaims.

Import Collector.

Lemma collect_under_part (dir ext : str) (listing : list str) (x : str) :
  In x (collect dir ext listing) ->
  exists i, (i < 7)%nat /\ under_part dir i x.
Proof.
  unfold collect, glob. rewrite in_flat_map. intros (i & Hi & Hx).
  apply in_seq in Hi. apply filter_In in Hx. destruct Hx as [_ Hx].
  unfold glob_match in Hx.
  destruct (strip_prefix _ x) as [name|] eqn:E; [|discriminate].
  apply strip_prefix_Some in E. exists i. split; [lia|]. exists name.
  rewrite E. now rewrite <- !app_assoc.
Qed.

Lemma collect_collected (ext : str) (listing : list str) :
  Forall collected (collect (lit "src") ext listing)
  /\ Forall collected (collect (lit "html_output") ext listing).
Proof.
  split; apply Forall_forall; intros x Hx;
    destruct (collect_under_part _ _ _ _ Hx) as (i & Hi & U);
    exists i; (split; [lia|]); [now left | now right].
Qed.

Lemma sort_files_defined (l : list str) :
  Forall collected l -> exists sorted, sort_files l = Some sorted.
Proof.
  intros H. unfold sort_files.
  destruct (@keyed_defined l) as [kl ->]; [|eexists; reflexivity].
  eapply Forall_impl; [|exact H]. apply collected_part_index.
Qed.

Lemma in_partition_index (i : nat) (x : str) :
  (i < 10)%nat -> in_partition i x -> part_index x = Some (Z.of_nat i).
Proof.
  intros Hi [[name ->]|[name ->]].
  - change (lit "src" ++ lit "/part" ++ digit_char i :: slash :: name)
      with (lit "src/part" ++ digit_char i :: slash :: name).
    now apply part_index_src.
  - change (lit "html_output" ++ lit "/part" ++ digit_char i :: slash :: name)
      with (lit "html_output/part" ++ digit_char i :: slash :: name).
    now apply part_index_html_output.
Qed.

Lemma sorted_earlier (A : Type) (R : A -> A -> Prop)
    (before between after : list A) (x y : A) :
  StronglySorted R (before ++ x :: between ++ y :: after) -> R x y.
Proof.
  induction before as [|b before IH]; cbn [app]; intros S;
    apply StronglySorted_inv in S; destruct S as [S F].
  - rewrite Forall_forall in F. apply F. rewrite in_app_iff. right. now left.
  - now apply IH.
Qed.

(** C4.  The sort of paths under numbered partitions succeeds and returns
    the same paths; the key of a path of partition [N] is the number [N];
    of two paths of the result, the earlier one is of a partition with a
    smaller number, or of the same partition and not greater as a text; and
    the result is the same for every order in which the paths were
    discovered. *)
Theorem collector_sorts_by_partition_then_path (l : list str) :
  Forall collected l ->
  exists sorted,
    sort_files l = Some sorted
    /\ Permutation sorted l
    /\ StronglySorted path_le sorted
    /\ (forall x i, In x l -> (i < 10)%nat -> in_partition i x ->
          part_index x = Some (Z.of_nat i))
    /\ (forall before x between y after i j,
          sorted = before ++ x :: between ++ y :: after ->
          (i < 10)%nat -> (j < 10)%nat ->
          in_partition i x -> in_partition j y ->
          (i < j)%nat \/ (i = j /\ str_leb x y = true))
    /\ forall l', Permutation l l' -> sort_files l' = Some sorted.
Proof.
  intros H. destruct (sort_files_defined H) as [sorted E].
  exists sorted. destruct (sort_files_spec _ E) as [P S].
  split; [exact E|]. split; [exact P|]. split; [exact S|].
  split; [|split].
  - intros x i _ Hi Hx. now apply in_partition_index.
  - intros before x between y after i j -> Hi Hj Hx Hy.
    apply sorted_earlier in S. destruct S as (na & nb & Ka & Kb & O).
    rewrite (in_partition_index Hi Hx) in Ka.
    rewrite (in_partition_index Hj Hy) in Kb.
    injection Ka as <-. injection Kb as <-.
    destruct O as [O|[O L]]; [left; lia | right; split; [lia | exact L]].
  - intros l' P'. eapply sort_files_perm; eauto.
Qed.

(** C9.  For a path under [src/partN/] or [html_output/partN/] with one
    decimal digit [N] and a base name without a slash, the sort key
    expression returns [N]; and the sort never fails on what the glob
    patterns collect, whatever the directory listing. *)
Theorem sort_key_of_collected_path (i : nat) (name : str) :
  (i < 10)%nat -> ~ In slash name ->
  part_index (lit "src/part" ++ digit_char i :: slash :: name ++ lit ".md")
  = Some (Z.of_nat i)
  /\ part_index
       (lit "html_output/part" ++ digit_char i :: slash :: name ++ lit ".html")
     = Some (Z.of_nat i)
  /\ (forall listing,
        sort_files (collect (lit "src") (lit ".md") listing) <> None)
  /\ (forall listing,
        sort_files (collect (lit "html_output") (lit ".html") listing) <> None).
Proof.
  intros Hi _. split; [now apply part_index_src|].
  split; [now apply part_index_html_output|].
  split; intros listing;
    destruct (collect_collected (lit ".md") listing) as [M1 M2];
    destruct (collect_collected (lit ".html") listing) as [H1 H2].
  - destruct (sort_files_defined M1) as [r ->]. discriminate.
  - destruct (sort_files_defined H2) as [r ->]. discriminate.
Qed.

End CollectorClaims.

(** ** Facts about the regular expressions *)

Section ReFacts.

Import Re.

Variable p : pattern.
Variables pre post : str.

Lemma prev_after_app (prev : option char) (a b : str) :
  prev_after prev (a ++ b) = prev_after (prev_after prev a) b.
Proof. unfold prev_after. apply fold_left_app. Qed.

Lemma prev_after_cons (prev : option char) (c : char) (a : str) :
  prev_after prev (c :: a) = prev_after (Some c) a.
Proof. reflexivity. Qed.

(** The previous code point after a text that has no newline is no
    newline, unless the text is empty. *)
Lemma at_bol_after (c : char) (a : str) :
  c <> newline -> ~ In newline a -> at_bol (prev_after (Some c) a) = false.
Proof.
  revert c; induction a as [|d a IH]; intros c Hc Ha; simpl.
  - now apply N.eqb_neq.
  - apply IH; intros E; apply Ha; [now left | now right].
Qed.

(** Passing over the rest of a match. *)
Lemma sub_from_skip (a b : str) (prev : option char) :
  sub_from p pre post (List.length a) prev (a ++ b)
  = sub_from p pre post 0 (prev_after prev a) b.
Proof.
  revert prev; induction a as [|c a IH]; intros prev; [reflexivity|].
  simpl. apply IH.
Qed.

(** The substitution at a position where the pattern matches [m]. *)
Lemma sub_from_match (prev : option char) (g m rest : str) :
  m <> [] ->
  match_at p prev (m ++ rest) = Some (g, List.length m) ->
  sub_from p pre post 0 prev (m ++ rest)
  = pre ++ g ++ post ++ sub_from p pre post 0 (prev_after prev m) rest.
Proof.
  destruct m as [|c m]; [congruence|]. intros _ M.
  change ((c :: m) ++ rest) with (c :: (m ++ rest)) in *.
  cbn [sub_from]. rewrite M. cbn [List.length pred].
  now rewrite sub_from_skip.
Qed.

(** An anchored pattern matches nowhere inside a line. *)
Lemma match_at_inside (c : char) (s : str) :
  anchored p = true -> c <> newline -> match_at p (Some c) s = None.
Proof.
  intros A Hc. unfold match_at. rewrite A. simpl.
  apply N.eqb_neq in Hc. now rewrite Hc.
Qed.

(** A text in which the first code point of the opener does not occur is
    copied. *)
Lemma match_at_absent (k : char) (o : str) (prev : option char) (c : char)
    (t : str) :
  opener p = k :: o -> c <> k -> match_at p prev (c :: t) = None.
Proof.
  intros O Hc. unfold match_at. rewrite O. cbn [strip_prefix].
  destruct (N.eqb_spec k c) as [E|_]; [congruence|].
  now destruct (anchored p && negb (at_bol prev)).
Qed.

Lemma sub_from_copy (k : char) (o : str) (a r : str) (prev : option char) :
  opener p = k :: o -> ~ In k a ->
  sub_from p pre post 0 prev (a ++ r)
  = a ++ sub_from p pre post 0 (prev_after prev a) r.
Proof.
  intros O. revert prev; induction a as [|c a IH]; intros prev Ha;
    [reflexivity|].
  cbn [app sub_from]. rewrite (@match_at_absent k o prev c (a ++ r) O).
  - rewrite IH; [reflexivity|]. intros E. apply Ha. now right.
  - intros E. apply Ha. now left.
Qed.

Lemma sub_from_absent (k : char) (o : str) (s : str) (prev : option char) :
  opener p = k :: o -> ~ In k s -> sub_from p pre post 0 prev s = s.
Proof.
  intros O H. rewrite <- (app_nil_r s) at 1.
  rewrite (@sub_from_copy k o s [] prev O H). simpl. apply app_nil_r.
Qed.

End ReFacts.

(** ** Anchored patterns, line by line *)

Section LinePatterns.

Import Re.

Variable p : pattern.
Variables pre post : str.
Variables (k : char) (o : str).

Hypothesis p_anchored : anchored p = true.
Hypothesis p_dot : dotall p = false.
Hypothesis p_closer : closer p = None.
Hypothesis p_opener : opener p = k :: o.
Hypothesis p_opener_line : ~ In newline (opener p).

Lemma lazy_group_line (l tail : str) :
  ~ In newline l -> line_end tail ->
  lazy_group p (l ++ tail) = Some (l, tail).
Proof.
  intros Hl Ht. induction l as [|c l IH]; simpl.
  - destruct Ht as [->|[r ->]]; cbn [lazy_group]; unfold closes;
      rewrite p_closer; [reflexivity|]. now rewrite N.eqb_refl.
  - assert (Hc : c <> newline) by (intros E; apply Hl; now left).
    cbn [lazy_group]. unfold closes. rewrite p_closer.
    apply N.eqb_neq in Hc. rewrite Hc.
    rewrite p_dot. cbn [orb negb]. rewrite IH; [reflexivity|].
    intros E. apply Hl. now right.
Qed.

Lemma strip_prefix_line (op l tail : str) :
  ~ In newline op -> line_end tail ->
  strip_prefix op l = None -> strip_prefix op (l ++ tail) = None.
Proof.
  intros Hop Ht. revert l; induction op as [|a op IH]; intros l; simpl;
    [discriminate|].
  assert (Ha : a <> newline) by (intros E; apply Hop; now left).
  destruct l as [|b l]; simpl.
  - intros _. destruct Ht as [->|[r ->]]; [reflexivity|].
    apply N.eqb_neq in Ha. now rewrite Ha.
  - destruct (a =? b)%N; [|reflexivity]. apply IH.
    intros E. apply Hop. now right.
Qed.

Lemma match_line_hit (prev : option char) (l r tail : str) :
  at_bol prev = true -> strip_prefix (opener p) l = Some r ->
  ~ In newline l -> line_end tail ->
  match_at p prev (l ++ tail) = Some (r, List.length l).
Proof.
  intros B S Hl Ht. apply strip_prefix_Some in S. subst l.
  unfold match_at. rewrite p_anchored, B. simpl.
  rewrite <- app_assoc, strip_prefix_app.
  rewrite lazy_group_line; auto.
  - unfold closer_length. rewrite p_closer, length_app. f_equal. f_equal. lia.
  - intros E. apply Hl. apply in_or_app. now right.
Qed.

Lemma match_line_miss (prev : option char) (l tail : str) :
  strip_prefix (opener p) l = None -> line_end tail ->
  match_at p prev (l ++ tail) = None.
Proof.
  intros S Ht. unfold match_at.
  rewrite (@strip_prefix_line _ _ _ p_opener_line Ht S).
  now destruct (anchored p && negb (at_bol prev)).
Qed.

Lemma copy_line (prev : option char) (l tail : str) :
  ~ In newline l -> match_at p prev (l ++ tail) = None ->
  sub_from p pre post 0 prev (l ++ tail)
  = l ++ sub_from p pre post 0 (prev_after prev l) tail.
Proof.
  revert prev; induction l as [|c l IH]; intros prev Hl M; [reflexivity|].
  cbn [app sub_from] in *. rewrite M. cbn [prev_after fold_left]. f_equal.
  apply IH.
  - intros E. apply Hl. now right.
  - apply match_at_inside; [exact p_anchored|]. intros E. apply Hl. now left.
Qed.

Lemma sub_line (prev : option char) (l tail : str) :
  at_bol prev = true -> ~ In newline l -> line_end tail ->
  sub_from p pre post 0 prev (l ++ tail)
  = line_rule p pre post l
    ++ sub_from p pre post 0 (prev_after prev l) tail.
Proof.
  intros B Hl Ht. unfold line_rule.
  destruct (strip_prefix (opener p) l) as [r|] eqn:S.
  - rewrite (@sub_from_match p pre post prev r l tail).
    + now rewrite <- !app_assoc.
    + apply strip_prefix_Some in S. rewrite p_opener in S. now subst l.
    + now apply match_line_hit.
  - apply copy_line; [exact Hl|]. now apply match_line_miss.
Qed.

Lemma sub_newline (prev : option char) (s : str) :
  sub_from p pre post 0 prev (newline :: s)
  = newline :: sub_from p pre post 0 (Some newline) s.
Proof.
  cbn [sub_from]. rewrite (@match_at_absent p k o prev newline s p_opener);
    [reflexivity|].
  intros E. apply p_opener_line. rewrite p_opener. now left.
Qed.

(** An anchored substitution acts on each line by itself. *)
Lemma sub_lines (lines : list str) (prev : option char) :
  at_bol prev = true -> Forall (fun l => ~ In newline l) lines ->
  sub_from p pre post 0 prev (join [newline] lines)
  = join [newline] (List.map (line_rule p pre post) lines).
Proof.
  intros B H. revert prev B.
  induction H as [|l lines Hl H IH]; intros prev B; [reflexivity|].
  destruct lines as [|l2 lines].
  - cbn [join List.map]. rewrite <- (app_nil_r l) at 1.
    rewrite sub_line; auto; [|now left]. simpl. apply app_nil_r.
  - change (join [newline] (l :: l2 :: lines))
      with (l ++ newline :: join [newline] (l2 :: lines)).
    rewrite sub_line; auto; [|right; eexists; reflexivity].
    rewrite sub_newline, IH by reflexivity. reflexivity.
Qed.

End LinePatterns.

(** ** Headings *)

Section Headings.

Import Re Markdown.

Lemma line_rule_no_newline (p : pattern) (pre post l : str) :
  ~ In newline pre -> ~ In newline post -> ~ In newline l ->
  ~ In newline (line_rule p pre post l).
Proof.
  intros Hpre Hpost Hl. unfold line_rule.
  destruct (strip_prefix (opener p) l) as [r|] eqn:S; [|exact Hl].
  apply strip_prefix_Some in S. subst l.
  rewrite !in_app_iff in *. tauto.
Qed.

Ltac no_newline_lit :=
  let F := fresh "F" in
  vm_compute; intros F;
  repeat (destruct F as [F|F]; [discriminate F|]); exact F.

Lemma headers_lines (lines : list str) :
  Forall (fun l => ~ In newline l) lines ->
  headers (join [newline] lines) = join [newline] (List.map header_rules lines).
Proof.
  intros H. unfold headers, sub.
  rewrite (@sub_lines h1_pat _ _ 35%N [32%N]); try reflexivity; auto;
    [|no_newline_lit].
  rewrite (@sub_lines h2_pat _ _ 35%N [35; 32]%N); try reflexivity;
    [| no_newline_lit
     | rewrite Forall_map; eapply Forall_impl; [|exact H]; intros l Hl;
       apply line_rule_no_newline; auto; no_newline_lit].
  rewrite (@sub_lines h3_pat _ _ 35%N [35; 35; 32]%N); try reflexivity;
    [| no_newline_lit
     | rewrite !Forall_map; eapply Forall_impl; [|exact H]; intros l Hl;
       repeat apply line_rule_no_newline; auto; no_newline_lit].
  rewrite (@sub_lines h4_pat _ _ 35%N [35; 35; 35; 32]%N); try reflexivity;
    [| no_newline_lit
     | rewrite !Forall_map; eapply Forall_impl; [|exact H]; intros l Hl;
       repeat apply line_rule_no_newline; auto; no_newline_lit].
  rewrite !map_map. reflexivity.
Qed.

End Headings.

Section HeadingRefinement.

Import Re Markdown.

Lemma eqb_hash_sym (c : char) : (35 =? c)%N = (c =? 35)%N.
Proof. apply N.eqb_sym. Qed.

Lemma eqb_space_sym (c : char) : (32 =? c)%N = (c =? 32)%N.
Proof. apply N.eqb_sym. Qed.

(** Case analysis on whether the next code point is a [#] or a space. *)
Ltac next_char l c :=
  destruct l as [|c l]; [reflexivity|];
  destruct (N.eqb_spec c 35) as [->|?].

(** Reduces the comparisons of the goal: those between two literals by
    computation, those with [c] by the hypotheses at hand. *)
Ltac eqb_step c :=
  match goal with
  | |- context [(N.pos ?a =? N.pos ?b)%N] =>
    let v := eval vm_compute in (N.pos a =? N.pos b)%N in
    change (N.pos a =? N.pos b)%N with v
  | |- context [(N.pos ?a =? c)%N] => rewrite (N.eqb_sym (N.pos a) c)
  | H : (c =? ?b)%N = _ |- context [(c =? ?b)%N] => rewrite H
  end.

Ltac norm c := repeat first [progress cbn -[N.eqb] | eqb_step c].

Ltac no_hash c :=
  let E := fresh "E" in
  assert (E : (c =? 35)%N = false) by (now apply N.eqb_neq);
  unfold header_rules, heading_line, heading_level, line_rule;
  norm c;
  let E' := fresh "E" in
  destruct (c =? 32)%N eqn:E'; norm c; try reflexivity.

Lemma header_rules_heading_line (l : str) : header_rules l = heading_line l.
Proof.
  next_char l c1; [|no_hash c1].
  next_char l c2; [|no_hash c2].
  next_char l c3; [|no_hash c3].
  next_char l c4; [|no_hash c4].
  next_char l c5; [|no_hash c5].
  unfold header_rules, heading_line, heading_level, line_rule. cbn.
  destruct (leading_hashes l) as [n rest]. cbn -[N.eqb].
  destruct rest as [|c r]; [reflexivity|].
  now rewrite andb_false_r.
Qed.

End HeadingRefinement.

Section HeadingFive.

Import Re Markdown.

Lemma heading_line_five (r : str) :
  heading_line (lit "#####" ++ r) = lit "#####" ++ r.
Proof.
  unfold heading_line, heading_level. cbn.
  destruct (leading_hashes r) as [n rest]. cbn -[N.eqb].
  destruct rest as [|c rest]; [reflexivity|]. now rewrite andb_false_r.
Qed.

End HeadingFive.

(** ** Delimited patterns *)

Section Delimited.

Import Re.

Variable p : pattern.
Variables pre post : str.
Variables (k : char) (o : str) (k' : char) (c' : str).

Hypothesis p_free : anchored p = false.
Hypothesis p_dotall : dotall p = true.
Hypothesis p_opener : opener p = k :: o.
Hypothesis p_closer : closer p = Some (k' :: c').

(** With [re.DOTALL] the lazy group runs to the first occurrence of the
    closer. *)
Lemma lazy_group_find (s : str) : lazy_group p s = find (k' :: c') s.
Proof.
  induction s as [|c s IH].
  - cbn [lazy_group find]. unfold closes. rewrite p_closer. reflexivity.
  - cbn [lazy_group find]. unfold closes. rewrite p_closer.
    destruct (strip_prefix (k' :: c') (c :: s)); [reflexivity|].
    rewrite p_dotall. cbn [orb]. now rewrite IH.
Qed.

Lemma find_first (sub g rest : str) (c : char) (sub' : str) :
  sub = c :: sub' -> ~ In c g -> find sub (g ++ sub ++ rest) = Some (g, rest).
Proof.
  intros E Hg. induction g as [|d g IH].
  - subst sub. change ([] ++ (c :: sub') ++ rest) with (c :: (sub' ++ rest)).
    cbn [find]. change (c :: sub' ++ rest) with ((c :: sub') ++ rest).
    now rewrite strip_prefix_app.
  - cbn [app find].
    assert (S : strip_prefix sub (d :: g ++ sub ++ rest) = None).
    { rewrite E at 1. cbn [strip_prefix].
      destruct (N.eqb_spec c d) as [->|_]; [exfalso; apply Hg; now left|].
      reflexivity. }
    rewrite S, IH; [reflexivity|]. intros F. apply Hg. now right.
Qed.

Lemma match_at_delimited (prev : option char) (g rest : str) :
  ~ In k' g ->
  match_at p prev (opener p ++ g ++ (k' :: c') ++ rest)
  = Some (g, List.length (opener p ++ g ++ k' :: c')).
Proof.
  intros Hg. unfold match_at. rewrite p_free. cbn [andb].
  rewrite strip_prefix_app, lazy_group_find.
  rewrite (@find_first (k' :: c') g rest k' c' eq_refl Hg).
  unfold closer_length. rewrite p_closer, !length_app.
  now rewrite Nat.add_assoc.
Qed.

(** One delimited span in a text that has no other opener. *)
Lemma sub_delimited (a g b : str) :
  ~ In k a -> ~ In k' g -> ~ In k b ->
  sub p pre post (a ++ opener p ++ g ++ (k' :: c') ++ b)
  = a ++ pre ++ g ++ post ++ b.
Proof.
  intros Ha Hg Hb. unfold sub.
  rewrite (@sub_from_copy p pre post k o a _ None p_opener Ha). f_equal.
  replace (opener p ++ g ++ (k' :: c') ++ b)
    with ((opener p ++ g ++ k' :: c') ++ b)
    by (now rewrite <- !app_assoc).
  rewrite (@sub_from_match p pre post _ g).
  - rewrite (@sub_from_absent p pre post k o b _ p_opener Hb). reflexivity.
  - rewrite p_opener. discriminate.
  - rewrite <- !app_assoc. now apply match_at_delimited.
Qed.

End Delimited.

(** ** Anchored patterns on a text without a match *)

Section BolFree.

Import Re.

Variable p : pattern.
Variables pre post : str.
Variables (k : char) (o : str).

Hypothesis p_anchored : anchored p = true.
Hypothesis p_opener : opener p = k :: o.

Lemma sub_from_bol_free (s : str) (prev : option char) :
  bol_free k prev s = true -> sub_from p pre post 0 prev s = s.
Proof.
  revert prev; induction s as [|c s IH]; intros prev H; [reflexivity|].
  cbn [bol_free sub_from] in *. apply andb_prop in H. destruct H as [H1 H2].
  assert (M : match_at p prev (c :: s) = None).
  { unfold match_at. rewrite p_anchored, p_opener. cbn [andb strip_prefix].
    destruct (at_bol prev); [|reflexivity]. cbn [negb andb] in *.
    rewrite N.eqb_sym. destruct (c =? k)%N; [discriminate|reflexivity]. }
  rewrite M. f_equal. now apply IH.
Qed.

End BolFree.

Section BolFreeFacts.

Import Re.

Lemma bol_free_app (k : char) (prev : option char) (x y : str) :
  bol_free k prev (x ++ y)
  = bol_free k prev x && bol_free k (prev_after prev x) y.
Proof.
  revert prev; induction x as [|c x IH]; intros prev; [reflexivity|].
  cbn [app bol_free]. rewrite IH, andb_assoc. reflexivity.
Qed.

Lemma bol_free_absent (k : char) (prev : option char) (x : str) :
  ~ In k x -> bol_free k prev x = true.
Proof.
  revert prev; induction x as [|c x IH]; intros prev H; [reflexivity|].
  cbn [bol_free]. rewrite IH by (intros F; apply H; now right).
  destruct (N.eqb_spec c k) as [->|_]; [exfalso; apply H; now left|].
  now rewrite andb_false_r.
Qed.

End BolFreeFacts.

(** ** The paragraph stage *)

(** Settles that a code point is in none of the literals at hand. *)
Ltac absent_lit :=
  let F := fresh "F" in
  vm_compute; intros F;
  repeat (destruct F as [F|F]; [discriminate F|]); exact F.

Section Paragraphs.

Import Re Markdown.

Lemma split_none (sep s : str) :
  contains sep s = false -> split sep s = [s].
Proof.
  unfold split. induction s as [|c s IH]; intros H; [reflexivity|].
  cbn [contains split_go] in *. apply orb_false_elim in H.
  destruct H as [H1 H2]. rewrite H1, IH by exact H2. reflexivity.
Qed.

(** Two texts without a blank line, joined by a code point that is no
    newline. *)
Lemma no_blank_mid (x y : str) (c : char) :
  c <> newline ->
  contains [newline; newline] x = false ->
  contains [newline; newline] y = false ->
  contains [newline; newline] (x ++ c :: y) = false.
Proof.
  intros Hc Hx Hy. induction x as [|d x IH].
  - cbn [app contains]. rewrite Hy, orb_false_r.
    unfold startswith. cbn [strip_prefix].
    destruct (N.eqb_spec newline c) as [E|_]; [congruence | reflexivity].
  - cbn [app contains] in *. apply orb_false_elim in Hx.
    destruct Hx as [H1 H2]. rewrite (IH H2), orb_false_r.
    unfold startswith in *. cbn [strip_prefix] in *.
    destruct (newline =? d)%N; [|reflexivity].
    destruct x as [|e x]; cbn [app].
    + destruct (N.eqb_spec newline c) as [E|_]; [congruence | reflexivity].
    + destruct (newline =? e)%N; [discriminate H1 | reflexivity].
Qed.

Lemma lstrip_keep (a r : str) (c : char) :
  is_space c = false -> exists a', lstrip (a ++ c :: r) = a' ++ c :: r.
Proof.
  intros Hc. induction a as [|d a [a' IH]].
  - exists []. cbn [app lstrip]. now rewrite Hc.
  - cbn [app lstrip]. destruct (is_space d).
    + now exists a'.
    + now exists (d :: a).
Qed.

Lemma rstrip_keep (x b : str) (c : char) :
  is_space c = false -> exists b', rstrip (x ++ c :: b) = x ++ c :: b'.
Proof.
  intros Hc. unfold rstrip. rewrite rev_app_distr. cbn [rev].
  rewrite <- app_assoc. cbn [app].
  destruct (@lstrip_keep (rev b) (rev x) c Hc) as [b' ->].
  exists (rev b'). rewrite rev_app_distr. cbn [rev].
  rewrite rev_involutive, <- app_assoc. reflexivity.
Qed.

(** Stripping keeps a part of the text that starts and ends with code
    points that are no white space. *)
Lemma strip_keep (a m b : str) (c1 c2 : char) :
  is_space c1 = false -> is_space c2 = false ->
  exists a' b', strip (a ++ c1 :: m ++ c2 :: b) = a' ++ c1 :: m ++ c2 :: b'.
Proof.
  intros H1 H2. unfold strip.
  destruct (@lstrip_keep a (m ++ c2 :: b) c1 H1) as [a' ->].
  replace (a' ++ c1 :: m ++ c2 :: b) with ((a' ++ c1 :: m) ++ c2 :: b)
    by (now rewrite <- app_assoc).
  destruct (@rstrip_keep (a' ++ c1 :: m) b c2 H2) as [b' ->].
  exists a', b'. now rewrite <- app_assoc.
Qed.

(** The paragraph loop on a text without a blank line: one entry, which
    holds every part of the text that stripping keeps. *)
Lemma paragraphs_keep (a m b : str) (c1 c2 : char) :
  is_space c1 = false -> is_space c2 = false ->
  contains [newline; newline] (a ++ c1 :: m ++ c2 :: b) = false ->
  contains (c1 :: m ++ [c2]) (paragraphs (a ++ c1 :: m ++ c2 :: b)) = true.
Proof.
  intros H1 H2 Hn. unfold paragraphs.
  change (lit nl ++ lit nl) with [newline; newline].
  rewrite split_none by exact Hn. cbn [flat_map]. rewrite app_nil_r.
  unfold paragraph.
  destruct (@strip_keep a m b c1 c2 H1 H2) as (a' & b' & ->).
  assert (E : a' ++ c1 :: m ++ c2 :: b' = a' ++ (c1 :: m ++ [c2]) ++ b').
  { cbn [app]. now rewrite <- app_assoc. }
  destruct (a' ++ c1 :: m ++ c2 :: b') as [|h t] eqn:Et.
  - destruct a'; discriminate.
  - rewrite <- Et in *. destruct (is_block _); cbn [join]; rewrite E.
    + apply contains_app.
    + replace (lit "<p>" ++ (a' ++ (c1 :: m ++ [c2]) ++ b') ++ lit "</p>")
        with ((lit "<p>" ++ a') ++ (c1 :: m ++ [c2]) ++ (b' ++ lit "</p>"))
        by (now rewrite <- !app_assoc).
      apply contains_app.
Qed.

End Paragraphs.

(** ** Plain text *)

Section PlainText.

Import Re Markdown.

Lemma plain_markup (s : str) (k : char) :
  plain s = true -> is_markup k = true -> ~ In k s.
Proof.
  unfold plain. intros H Hk Hin. apply andb_prop in H. destruct H as [H _].
  rewrite forallb_forall in H. specialize (H k Hin). now rewrite Hk in H.
Qed.

Lemma plain_no_blank (s : str) :
  plain s = true -> contains [newline; newline] s = false.
Proof.
  unfold plain. intros H. apply andb_prop in H. destruct H as [_ H].
  now apply negb_true_iff in H.
Qed.

Lemma absent_parts (k : char) (a t1 body t2 b : str) :
  ~ In k a -> ~ In k t1 -> ~ In k body -> ~ In k t2 -> ~ In k b ->
  ~ In k (a ++ t1 ++ body ++ t2 ++ b).
Proof. rewrite !in_app_iff. tauto. Qed.

Lemma bol_free_lit (k : char) (prev : option char) (c : char) (t : str) :
  c <> k -> bol_free k (Some c) t = true -> bol_free k prev (c :: t) = true.
Proof.
  intros Hc Ht. cbn [bol_free]. rewrite Ht.
  apply N.eqb_neq in Hc. rewrite Hc. now rewrite andb_false_r.
Qed.

End PlainText.

(** ** Searching for a delimited span *)

Section FindFacts.

Lemma find_Some (sub s a b : str) :
  find sub s = Some (a, b) -> s = a ++ sub ++ b.
Proof.
  revert a; induction s as [|c s IH]; intros a; cbn [find].
  - destruct (strip_prefix sub []) as [r|] eqn:E; [|discriminate].
    intros [= <- <-]. now apply strip_prefix_Some in E.
  - destruct (strip_prefix sub (c :: s)) as [r|] eqn:E.
    + intros [= <- <-]. now apply strip_prefix_Some in E.
    + destruct (find sub s) as [[a' b']|]; [|discriminate].
      intros [= <- <-]. cbn [app]. f_equal. now apply IH.
Qed.

Lemma find_None_suffix (sub y r : str) :
  find sub (y ++ r) = None -> find sub r = None.
Proof.
  induction y as [|c y IH]; [trivial|]. cbn [app find].
  destruct (strip_prefix sub (c :: y ++ r)); [discriminate|].
  destruct (find sub (y ++ r)) as [[a b]|]; [discriminate|]. auto.
Qed.

Lemma find_None_contains (sub s : str) :
  find sub s = None <-> contains sub s = false.
Proof.
  induction s as [|c s IH]; cbn [find contains]; unfold startswith.
  - destruct (strip_prefix sub []); split; (discriminate || reflexivity).
  - destruct (strip_prefix sub (c :: s)); cbn [orb].
    + split; discriminate.
    + rewrite <- IH. destruct (find sub s) as [[a b]|]; split;
        (discriminate || reflexivity).
Qed.

End FindFacts.

Section SearchDelimited.

Import Re.

Variable p : pattern.
Variables (k : char) (o : str) (k' : char) (c' : str).

Hypothesis p_free : anchored p = false.
Hypothesis p_dotall : dotall p = true.
Hypothesis p_opener : opener p = k :: o.
Hypothesis p_closer : closer p = Some (k' :: c').

Lemma first_span_later (s s1 : str) (c : char) (t : str) :
  s = opener p ++ s1 -> s = c :: t -> find (k' :: c') s1 = None ->
  first_span (opener p) (k' :: c') t = None.
Proof.
  intros E1 E2 N. unfold first_span.
  destruct (find (opener p) t) as [[x r]|] eqn:F; [|reflexivity].
  apply find_Some in F.
  assert (E : opener p ++ s1 = (c :: x ++ opener p) ++ r).
  { rewrite <- E1, E2, F. cbn [app]. now rewrite <- app_assoc. }
  apply app_eq_app in E. destruct E as [l [[E3 E4]|[E3 E4]]].
  - apply (f_equal (@List.length char)) in E3.
    cbn [app List.length] in E3. rewrite !length_app in E3. lia.
  - rewrite E4 in N. apply find_None_suffix in N. now rewrite N.
Qed.

Lemma search_from_first_span (s : str) (prev : option char) :
  search_from p prev s = first_span (opener p) (k' :: c') s.
Proof.
  revert prev; induction s as [|c s IH]; intros prev.
  - cbn [search_from]. unfold match_at, first_span. rewrite p_free, p_opener.
    reflexivity.
  - cbn [search_from]. unfold match_at. rewrite p_free. cbn [andb].
    unfold first_span at 1. cbn [find].
    destruct (strip_prefix (opener p) (c :: s)) as [s1|] eqn:S.
    + rewrite (@lazy_group_find p k' c' p_dotall p_closer).
      destruct (find (k' :: c') s1) as [[g r]|] eqn:F; [reflexivity|].
      rewrite IH. apply strip_prefix_Some in S.
      now apply (@first_span_later (c :: s) s1 c s).
    + rewrite IH. unfold first_span.
      destruct (find (opener p) s) as [[a b]|]; reflexivity.
Qed.

Lemma search_first_span (s : str) : search p s = first_span (opener p) (k' :: c') s.
Proof. apply search_from_first_span. Qed.

End SearchDelimited.

(** ** The combiner *)

Section Combiner.

Import Re HtmlOnly.

Lemma search_body (content : str) :
  search body_pat content = first_body content.
Proof.
  exact (@search_first_span body_pat 60%N (lit "body>") 60%N (lit "/body>")
           eq_refl eq_refl eq_refl eq_refl content).
Qed.

Lemma section_of_first_body (html_file content : str) :
  section_of html_file content
  = match first_body content with
    | Some body_content => section_around html_file body_content
    | None => []
    end.
Proof. unfold section_of. now rewrite search_body. Qed.

Lemma first_body_absent (content : str) :
  contains (lit "<body>") content = false
  \/ contains (lit "</body>") content = false ->
  first_body content = None.
Proof.
  unfold first_body, first_span. intros [H|H].
  - apply find_None_contains in H. now rewrite H.
  - apply find_None_contains in H.
    destruct (find (lit "<body>") content) as [[x r]|] eqn:F; [|reflexivity].
    apply find_Some in F. rewrite F, app_assoc in H.
    apply find_None_suffix in H. now rewrite H.
Qed.

(** C8.  What the combiner appends for one file is made from the text
    between the first [<body>] and the first [</body>] after it; a file
    that cannot be read, or whose text lacks one of the two markers, adds
    nothing, and the loop goes on with the next file. *)
Theorem combiner_first_body_or_skip (f : fs) (html_file : str) :
  fst (add_file f html_file)
  = match read f html_file with
    | None => []
    | Some content =>
      match first_body content with
      | Some body_content => section_around html_file body_content
      | None => []
      end
    end
  /\ (forall content,
        read f html_file = Some content ->
        contains (lit "<body>") content = false
        \/ contains (lit "</body>") content = false ->
        fst (add_file f html_file) = [])
  /\ (forall rest,
        sections f (html_file :: rest)
        = fst (add_file f html_file) ++ sections f rest).
Proof.
  split; [|split].
  - unfold add_file. destruct (read f html_file) as [content|]; [|reflexivity].
    apply section_of_first_body.
  - intros content R H. unfold add_file. rewrite R. cbn [fst].
    rewrite section_of_first_body. now rewrite first_body_absent.
  - reflexivity.
Qed.

Lemma filter_subseq (A : Type) (P : A -> bool) (l : list A) :
  subseq (filter P l) l.
Proof.
  induction l as [|x l IH]; cbn [filter]; [constructor|].
  destruct (P x); now constructor.
Qed.

Lemma sections_of_appended (f : fs) (all_files : list str) :
  sections f all_files
  = flat_map (fun h => fst (add_file f h)) (filter (has_section f) all_files).
Proof.
  unfold sections. induction all_files as [|h l IH]; [reflexivity|].
  cbn [flat_map filter]. unfold has_section at 1.
  destruct (fst (add_file f h)) as [|x xs] eqn:E.
  - exact IH.
  - cbn [flat_map]. now rewrite E, IH.
Qed.

Lemma add_file_shape (f : fs) (h : str) :
  has_section f h = true ->
  exists body_content,
    fst (add_file f h) = section_around h body_content.
Proof.
  unfold has_section, add_file.
  destruct (read f h) as [content|]; [|discriminate]. cbn [fst].
  rewrite section_of_first_body.
  destruct (first_body content) as [b|]; [|discriminate]. now exists b.
Qed.

Lemma toc_entry_in_toc (all_files : list str) (h : str) :
  In h all_files -> contains (toc_entry h) (toc all_files) = true.
Proof.
  intros H. apply in_split in H. destruct H as (l1 & l2 & ->).
  unfold toc. rewrite map_app, concat_app. cbn [List.map List.concat].
  rewrite <- !app_assoc.
  rewrite (app_assoc (text_of_lines toc_open_lines)).
  apply contains_app.
Qed.

End Combiner.

Section CombinedDocument.

Import Re Collector HtmlOnly.

Lemma split_slash_last (d x : str) :
  ~ In slash x ->
  exists first rest, split [slash] (d ++ slash :: x) = (first :: rest) ++ [x].
Proof.
  intros Hx.
  assert (Sx : split_go [slash] 0 x = [x]).
  { apply split_none. induction x as [|c x IH]; [reflexivity|].
    cbn [contains]. rewrite IH by (intros F; apply Hx; now right).
    unfold startswith. cbn [strip_prefix].
    destruct (N.eqb_spec slash c) as [E|_]; [|reflexivity].
    exfalso. apply Hx. now left. }
  unfold split. induction d as [|c d (first & rest & IH)].
  - exists [], []. cbn [app split_go]. unfold startswith. cbn [strip_prefix].
    rewrite N.eqb_refl. cbn [List.length pred]. now rewrite Sx.
  - cbn [app split_go]. unfold startswith. cbn [strip_prefix].
    destruct (slash =? c)%N.
    + cbn [List.length pred]. rewrite IH. now exists [], (first :: rest).
    + rewrite IH. now exists (c :: first), rest.
Qed.

Lemma basename_after_slash (d x : str) :
  ~ In slash x -> basename (d ++ slash :: x) = x.
Proof.
  intros Hx. unfold basename. change (lit "/") with [slash].
  destruct (@split_slash_last d x Hx) as (first & rest & ->).
  apply last_last.
Qed.

Lemma last_app_nonempty (A : Type) (l1 l2 : list A) (d : A) :
  l2 <> [] -> last (l1 ++ l2) d = last l2 d.
Proof.
  intros H. induction l1 as [|x l1 IH]; [reflexivity|].
  cbn [app]. destruct (l1 ++ l2) eqn:E.
  - destruct l1; [cbn in E; congruence | discriminate].
  - cbn [last]. exact IH.
Qed.

Lemma split_after_slash (d x : str) :
  exists first rest,
    split [slash] (d ++ slash :: x) = (first :: rest) ++ split [slash] x.
Proof.
  unfold split. induction d as [|c d (first & rest & IH)].
  - exists [], []. cbn [app split_go]. unfold startswith. cbn [strip_prefix].
    rewrite N.eqb_refl. reflexivity.
  - cbn [app split_go]. unfold startswith. cbn [strip_prefix].
    destruct (slash =? c)%N.
    + cbn [List.length pred]. rewrite IH. now exists [], (first :: rest).
    + rewrite IH. now exists (c :: first), rest.
Qed.

(** The directories before a slash do not count for the base name. *)
Lemma basename_after_dir (d x : str) :
  basename (d ++ slash :: x) = basename x.
Proof.
  unfold basename. change (lit "/") with [slash].
  destruct (split_after_slash d x) as (first & rest & ->).
  apply last_app_nonempty. unfold split.
  destruct x as [|c x]; [discriminate|]. apply split_go_nonempty.
Qed.

Lemma startswith_self (s : str) : startswith s s = true.
Proof.
  unfold startswith. pose proof (strip_prefix_app s []) as E.
  rewrite app_nil_r in E. now rewrite E.
Qed.

Lemma replace_go_skip_all (old new t : str) :
  replace_go old new (List.length t) t = [].
Proof. induction t as [|c t IH]; [reflexivity | exact IH]. Qed.

Lemma replace_suffix (stem old : str) (k : char) (old' : str) :
  old = k :: old' -> ~ In k stem -> replace old [] (stem ++ old) = stem.
Proof.
  intros E Hs. unfold replace. induction stem as [|c stem IH].
  - subst old. cbn [app replace_go]. rewrite startswith_self.
    cbn [List.length pred app]. apply replace_go_skip_all.
  - cbn [app replace_go]. unfold startswith.
    assert (S : strip_prefix old (c :: stem ++ old) = None).
    { rewrite E at 1. cbn [strip_prefix].
      destruct (N.eqb_spec k c) as [F|_]; [|reflexivity].
      exfalso. apply Hs. now left. }
    rewrite S, IH; [reflexivity|]. intros F. apply Hs. now right.
Qed.

(** The name under which a file appears, for a stem without a slash or a
    dot: the file name with the extension taken off. *)
Lemma base_name_stem (d stem : str) :
  ~ In slash stem -> ~ In Format.dot stem ->
  base_name (d ++ slash :: stem ++ lit ".html") = stem.
Proof.
  intros H1 H2. unfold base_name. rewrite basename_after_slash.
  - now apply (@replace_suffix stem (lit ".html") Format.dot (lit "html")).
  - rewrite in_app_iff. intros [F|F]; [now apply H1|]. revert F. absent_lit.
Qed.

Lemma toc_anchor_in_toc (all_files : list str) (h : str) :
  In h all_files ->
  contains (lit "<a href=" ++ lit dq ++ lit "#" ++ base_name h ++ lit dq
            ++ lit ">") (toc all_files) = true.
Proof.
  intros H. apply in_split in H. destruct H as (l1 & l2 & ->).
  unfold toc. rewrite map_app, concat_app. cbn [List.map List.concat].
  unfold toc_entry at 2.
  set (anchor := lit "<a href=" ++ lit dq ++ lit "#" ++ base_name h ++ lit dq
                 ++ lit ">").
  replace (lit "<li><a href=" ++ lit dq ++ lit "#" ++ base_name h ++ lit dq
           ++ lit ">" ++ readable_name h ++ lit "</a></li>")
    with (lit "<li>" ++ anchor ++ readable_name h ++ lit "</a></li>")
    by (unfold anchor; cbn [app]; rewrite <- !app_assoc; reflexivity).
  rewrite <- !app_assoc.
  rewrite (app_assoc (text_of_lines toc_open_lines)).
  rewrite (app_assoc _ (lit "<li>")).
  apply contains_app.
Qed.

Lemma strip_prefix_border (k : char) (o t r : str) :
  ~ In k o -> strip_prefix o t = None ->
  strip_prefix o (t ++ k :: r) = None.
Proof.
  intros Hk. revert t; induction o as [|a o IH]; intros t; [discriminate|].
  assert (Ha : a <> k) by (intros E; apply Hk; now left).
  destruct t as [|b t]; cbn [app strip_prefix].
  - intros _. apply N.eqb_neq in Ha. now rewrite Ha.
  - destruct (a =? b)%N; [|reflexivity]. apply IH.
    intros F. apply Hk. now right.
Qed.

(** A suffix [old] that begins with a code point it does not hold again is
    the only occurrence of [old] in [stem ++ old] when [stem] holds none. *)
Lemma replace_last_occurrence (stem old : str) (k : char) (old' : str) :
  old = k :: old' -> ~ In k old' -> contains old stem = false ->
  replace old [] (stem ++ old) = stem.
Proof.
  intros E Hk Hs. unfold replace. induction stem as [|c stem IH].
  - subst old. cbn [app replace_go]. rewrite startswith_self.
    cbn [List.length pred app]. apply replace_go_skip_all.
  - cbn [contains] in Hs. apply orb_false_elim in Hs. destruct Hs as [H1 H2].
    cbn [app replace_go].
    assert (S : startswith (c :: stem ++ old) old = false).
    { unfold startswith in *. rewrite E in *. cbn [strip_prefix] in *.
      destruct (k =? c)%N; [|reflexivity].
      destruct (strip_prefix old' stem) eqn:P; [discriminate|].
      now rewrite (@strip_prefix_border k old' stem old' Hk P). }
    rewrite S, IH by exact H2. reflexivity.
Qed.

(** The name under which a file appears: the file name with the extension
    taken off, for every stem that does not hold [.html] itself. *)
Lemma base_name_stem_tight (d stem : str) :
  ~ In slash stem -> contains (lit ".html") stem = false ->
  base_name (d ++ slash :: stem ++ lit ".html") = stem.
Proof.
  intros H1 H2. unfold base_name. rewrite basename_after_slash.
  - apply (@replace_last_occurrence stem (lit ".html") Format.dot (lit "html"));
      [reflexivity | absent_lit | exact H2].
  - rewrite in_app_iff. intros [F|F]; [now apply H1|]. revert F. absent_lit.
Qed.

Lemma sections_app (f : fs) (l1 l2 : list str) :
  sections f (l1 ++ l2) = sections f l1 ++ sections f l2.
Proof. unfold sections. apply flat_map_app. Qed.

(** C10, amended.  Each section of the combined content opens with a
    container whose [id] is the base name of its file, and the table of
    contents holds an anchor to that same name.  The entry of a file
    stands after the entries of the files before it and before those of
    the files after it, and so does its section, when it has one: the
    sections keep the order of the entries.  The base name is the file
    name after the last slash with every [.html] taken out of it: the stem
    of the file, when the stem holds no [.html] itself.  A file without a
    section still has its entry. *)
Theorem combined_sections_follow_toc (f : fs) (all_files : list str) :
  (forall before h after, all_files = before ++ h :: after ->
     toc all_files
     = (text_of_lines toc_open_lines
        ++ List.concat (List.map toc_entry before))
       ++ toc_entry h
       ++ (List.concat (List.map toc_entry after)
           ++ text_of_lines toc_close_lines)
     /\ sections f all_files
        = sections f before ++ fst (add_file f h) ++ sections f after
     /\ (fst (add_file f h) = []
         \/ exists body_content,
              fst (add_file f h)
              = [lit "<div id=" ++ lit dq ++ base_name h ++ lit dq ++ lit ">";
                 sub container_pat [] [] body_content;
                 lit "</div>"; page_break])
     /\ contains (lit "<a href=" ++ lit dq ++ lit "#" ++ base_name h
                  ++ lit dq ++ lit ">") (toc_entry h) = true)
  /\ subseq (filter (has_section f) all_files) all_files
  /\ (forall d name, ~ In slash name ->
        base_name (d ++ slash :: name) = replace (lit ".html") [] name)
  /\ (forall d stem, ~ In slash stem -> contains (lit ".html") stem = false ->
        base_name (d ++ slash :: stem ++ lit ".html") = stem)
  /\ (exists f0 h0,
        has_section f0 h0 = false
        /\ contains (toc_entry h0) (toc [h0]) = true).
Proof.
  split; [|split; [apply filter_subseq|split; [|split]]].
  - intros before h after ->. split; [|split; [|split]].
    + unfold toc. rewrite map_app, concat_app. cbn [List.map List.concat].
      now rewrite <- !app_assoc.
    + rewrite sections_app. change (h :: after) with ([h] ++ after).
      rewrite sections_app. unfold sections at 2. cbn [flat_map].
      now rewrite app_nil_r.
    + destruct (has_section f h) eqn:Hs.
      * right. destruct (@add_file_shape f h Hs) as [b E]. now exists b.
      * left. unfold has_section in Hs.
        now destruct (fst (add_file f h)).
    + unfold toc_entry.
      replace (lit "<li><a href=" ++ lit dq ++ lit "#" ++ base_name h
               ++ lit dq ++ lit ">" ++ readable_name h ++ lit "</a></li>")
        with (lit "<li>"
              ++ (lit "<a href=" ++ lit dq ++ lit "#" ++ base_name h
                  ++ lit dq ++ lit ">")
              ++ readable_name h ++ lit "</a></li>")
        by (cbn [app]; rewrite <- !app_assoc; reflexivity).
      apply contains_app.
  - intros d name Hn. unfold base_name. now rewrite basename_after_slash.
  - apply base_name_stem_tight.
  - exists [], (lit "html_output/part0/a.html"). split; [reflexivity|].
    apply toc_entry_in_toc. now left.
Qed.

(** C10 as stated fails for a file whose stem holds [.html]: the pattern
    of the combiner finds [x.html.html], and its section and its entry are
    named [x], not [x.html]. *)
Lemma section_id_not_the_stem :
  glob_match (lit "html_output") (lit ".html") 1
    (lit "html_output/part1/x.html.html") = true
  /\ fst (add_file
            [(lit "html_output/part1/x.html.html",
              Some (lit "<body>text</body>"))]
            (lit "html_output/part1/x.html.html"))
     = [lit "<div id=" ++ lit dq ++ lit "x" ++ lit dq ++ lit ">";
        lit "text"; lit "</div>"; page_break]
  /\ base_name (lit "html_output/part1/x.html.html") <> lit "x.html".
Proof.
  split; [vm_compute; reflexivity|]. split; [vm_compute; reflexivity|].
  vm_compute. discriminate.
Qed.

End CombinedDocument.

(** ** The single-file converter and the batch *)

Section Converter.

Import Collector HtmlOnly.

Lemma write_write (f : fs) (path content : str) :
  write (write f path content) path content = write f path content.
Proof.
  induction f as [|[p c] f IH]; cbn [write].
  - destruct (Str.eqb path path) eqn:E; [reflexivity|].
    assert (H : Str.eqb path path = true) by now apply eqb_eq. congruence.
  - destruct (Str.eqb p path) eqn:E; cbn [write]; rewrite E; [reflexivity|].
    now rewrite IH.
Qed.

Lemma read_write_same (f : fs) (path content : str) :
  read (write f path content) path = Some content.
Proof.
  induction f as [|[p c] f IH]; cbn [write read].
  - assert (H : Str.eqb path path = true) by now apply eqb_eq.
    now rewrite H.
  - destruct (Str.eqb p path) eqn:E; cbn [read]; now rewrite E.
Qed.

(** The converter prints one line, which tells what it returned. *)
Lemma convert_prints (md_file : str) (w : world) :
  printed (snd (convert_md_file_to_html md_file w))
  = printed w ++ [line_of (md_file, fst (convert_md_file_to_html md_file w))].
Proof.
  unfold convert_md_file_to_html.
  destruct (read (files w) md_file) as [md_content|]; [|reflexivity].
  destruct (Format.format _ _); [|reflexivity].
  now destruct (makedirs _ _).
Qed.

Lemma convert_unreadable (md_file : str) (w : world) :
  read (files w) md_file = None ->
  convert_md_file_to_html md_file w = (None, print (ConvertError md_file) w).
Proof. intros R. unfold convert_md_file_to_html. now rewrite R. Qed.

Lemma convert_format_raises (md_file md_content : str) (w : world)
    (e : Format.error) :
  read (files w) md_file = Some md_content ->
  Format.format create_html_template
    [(lit "content", Markdown.simple_markdown_to_html md_content);
     (lit "title", title_of md_file)] = Format.Raise e ->
  convert_md_file_to_html md_file w = (None, print (ConvertError md_file) w).
Proof. intros R F. unfold convert_md_file_to_html. now rewrite R, F. Qed.

End Converter.

Section Batch.

Import Collector HtmlOnly.

(** The template of the script cannot be filled (see the wrapper). *)
Lemma html_only_format_raises (content title : str) :
  Format.format create_html_template
    [(lit "content", content); (lit "title", title)]
  = Format.Raise (Format.ValueError "unexpected '{' in field name").
Proof. vm_compute. reflexivity. Qed.

Lemma convert_returns_none (md_file : str) (w : world) :
  convert_md_file_to_html md_file w = (None, print (ConvertError md_file) w).
Proof.
  destruct (read (files w) md_file) as [md_content|] eqn:R.
  - eapply convert_format_raises; [exact R | apply html_only_format_raises].
  - now apply convert_unreadable.
Qed.

(** The loop visits every file in order, prints one line per file and
    counts the paths returned. *)
Lemma convert_each_trace (all_files : list str) (n : nat) (w : world) :
  List.map fst (convert_trace all_files w) = all_files
  /\ fst (convert_each all_files n w)
     = (n + List.length (successes (convert_trace all_files w)))%nat
  /\ printed (snd (convert_each all_files n w))
     = printed w ++ List.map line_of (convert_trace all_files w).
Proof.
  revert n w; induction all_files as [|md_file rest IH]; intros n w.
  - cbn [convert_trace convert_each List.map successes flat_map
         List.length fst snd].
    rewrite app_nil_r, Nat.add_0_r. now repeat split.
  - cbn [convert_trace convert_each].
    pose proof (convert_prints md_file w) as P.
    destruct (convert_md_file_to_html md_file w) as [r w'].
    cbn [fst snd] in P.
    destruct (IH (if truthy r then S n else n) w') as (I1 & I2 & I3).
    cbn [List.map fst]. rewrite I1, I2, I3, P, <- app_assoc.
    split; [reflexivity|]. split; [|reflexivity].
    change (successes ((md_file, r) :: convert_trace rest w'))
      with ((match r with Some (c :: path) => [c :: path] | _ => [] end)
              ++ successes (convert_trace rest w')).
    rewrite length_app.
    destruct r as [[|c path]|]; cbn [truthy List.length Nat.add];
      rewrite ?Nat.add_succ_r; reflexivity.
Qed.

(** C3 at three sources, the second of them unreadable.  Every one is
    tried and none is counted: the readable ones fail where the template is
    filled.  The run reports none out of three, no file is written and the
    combine step is not run. *)
Theorem batch_of_three :
  main (mkWorld [(lit "src/part0/a.md", Some (lit "# A"));
                 (lit "src/part0/b.md", None);
                 (lit "src/part1/c.md", Some (lit "text"))] [])
  = (Return tt,
     mkWorld [(lit "src/part0/a.md", Some (lit "# A"));
              (lit "src/part0/b.md", None);
              (lit "src/part1/c.md", Some (lit "text"))]
       [Found [lit "src/part0/a.md"; lit "src/part0/b.md";
               lit "src/part1/c.md"];
        ConvertError (lit "src/part0/a.md");
        ConvertError (lit "src/part0/b.md");
        ConvertError (lit "src/part1/c.md");
        Tally 0 3]).
Proof. vm_compute. reflexivity. Qed.

(** C5 at a readable source that holds one heading.  Both runs return no
    path, and after them the output file is not there: there is no output
    to compare. *)
Theorem convert_twice_writes_nothing :
  let w := mkWorld [(lit "src/part0/a.md", Some (lit "# T"))] [] in
  let first := convert_md_file_to_html (lit "src/part0/a.md") w in
  let second := convert_md_file_to_html (lit "src/part0/a.md") (snd first) in
  fst first = None
  /\ fst second = None
  /\ files (snd second) = files w
  /\ read (files (snd second)) (html_path (lit "src/part0/a.md")) = None
  /\ printed (snd second)
     = [ConvertError (lit "src/part0/a.md");
        ConvertError (lit "src/part0/a.md")].
Proof. vm_compute. now repeat split. Qed.

End Batch.

(** ** The transformer returns a fragment for every text *)

Section Totality.

Import Markdown.

Lemma paragraph_entries (para : str) : Forall fragment_entry (paragraph para).
Proof.
  unfold paragraph. destruct (strip para) as [|c s] eqn:E; [constructor|].
  destruct (is_block (c :: s)) eqn:B; (constructor; [|constructor]); split.
  - discriminate.
  - now left.
  - discriminate.
  - right. now exists (c :: s).
Qed.

(** C7.  For every text the transformer returns a string: the entries of
    [html_paragraphs] joined by newlines, each of them a block element or a
    paragraph element, and none empty.  No step of it can raise: the
    substitutions, the split and the join are defined on every string. *)
Theorem transformer_total (md_content : str) :
  exists html_paragraphs,
    simple_markdown_to_html md_content = join (lit nl) html_paragraphs
    /\ Forall fragment_entry html_paragraphs.
Proof.
  unfold simple_markdown_to_html, paragraphs. eexists. split; [reflexivity|].
  apply Forall_flat_map. apply Forall_forall. intros para _.
  apply paragraph_entries.
Qed.

(** Unbalanced markup gives a fragment all the same. *)
Example unbalanced_markup :
  simple_markdown_to_html (lit "**a") = lit "<p><em></em>a</p>"
  /\ simple_markdown_to_html (lit "```x") = lit "<p><code></code>`x</p>"
  /\ simple_markdown_to_html (lit "") = lit "".
Proof. repeat split; vm_compute; reflexivity. Qed.

End Totality.

(** ** A heading line through the whole transformer *)

Section HeadingLine.

Import Re Markdown.

Lemma bol_free_inside (k c : char) (t : str) :
  c <> newline -> ~ In newline t -> bol_free k (Some c) t = true.
Proof.
  revert c; induction t as [|d t IH]; intros c Hc Ht; [reflexivity|].
  cbn [bol_free at_bol]. apply N.eqb_neq in Hc. rewrite Hc. cbn [andb negb].
  apply IH; intros E; apply Ht; [now left | now right].
Qed.

Lemma bol_free_line (k c : char) (t : str) :
  c <> k -> ~ In newline (c :: t) -> bol_free k None (c :: t) = true.
Proof.
  intros Hc Ht. cbn [bol_free]. apply N.eqb_neq in Hc. rewrite Hc.
  rewrite andb_false_r. cbn [negb andb].
  apply bol_free_inside; intros E; apply Ht; [now left | now right].
Qed.

Lemma no_newline_no_blank (t : str) :
  ~ In newline t -> contains [newline; newline] t = false.
Proof.
  induction t as [|c t IH]; intros H; [reflexivity|].
  cbn [contains]. rewrite IH by (intros E; apply H; now right).
  unfold startswith. cbn [strip_prefix].
  destruct (N.eqb_spec newline c) as [E|_]; [|reflexivity].
  exfalso. apply H. now left.
Qed.

(** The rules after the headers leave alone a line without [*] or
    backtick that does not start with [>]. *)
Lemma inline_rules_line (c : char) (t : str) :
  c <> 62%N -> ~ In newline (c :: t) ->
  ~ In 42%N (c :: t) -> ~ In 96%N (c :: t) ->
  blockquotes (code_blocks (bold_italic (c :: t))) = c :: t.
Proof.
  intros Hc Hn Hs Hb. unfold bold_italic, code_blocks, blockquotes, sub.
  rewrite (@sub_from_absent bold_pat _ _ 42%N [42%N]); auto.
  rewrite (@sub_from_absent italic_pat _ _ 42%N []); auto.
  rewrite (@sub_from_absent fence_pat _ _ 96%N [96; 96]%N); auto.
  rewrite (@sub_from_absent code_pat _ _ 96%N []); auto.
  apply (@sub_from_bol_free quote_pat _ _ 62%N [32%N] eq_refl eq_refl).
  now apply bol_free_line.
Qed.

Lemma paragraphs_line (t : str) :
  ~ In newline t -> paragraphs t = join (lit nl) (paragraph t).
Proof.
  intros H. unfold paragraphs. change (lit nl ++ lit nl) with [newline; newline].
  rewrite split_none by now apply no_newline_no_blank.
  cbn [flat_map]. now rewrite app_nil_r.
Qed.

Lemma rstrip_last (x : str) (c : char) :
  is_space c = false -> rstrip (x ++ [c]) = x ++ [c].
Proof.
  intros H. unfold rstrip. rewrite rev_app_distr. cbn [rev app lstrip].
  rewrite H. cbn [rev]. now rewrite rev_involutive.
Qed.

(** A block element on a line of its own, without [*] or backtick, comes
    out of the later rules as it is. *)
Lemma block_line_through (m : str) :
  ~ In newline m -> ~ In 42%N m -> ~ In 96%N m ->
  is_block (60%N :: m ++ [62%N]) = true ->
  paragraphs (blockquotes (code_blocks (bold_italic (60%N :: m ++ [62%N]))))
  = 60%N :: m ++ [62%N].
Proof.
  intros Hn Hs Hb B.
  assert (A : forall k : char,
             k <> 60%N -> k <> 62%N -> ~ In k m ->
             ~ In k (60%N :: m ++ [62%N])).
  { intros k H1 H2 H3 [F|F]; [congruence|].
    apply in_app_or in F. destruct F as [F|[F|[]]]; [tauto | congruence]. }
  rewrite inline_rules_line; try apply A; auto; try discriminate.
  rewrite paragraphs_line by (apply A; auto; discriminate).
  unfold paragraph, strip. cbn [lstrip]. change (is_space 60%N) with false.
  cbv iota. change (60%N :: m ++ [62%N]) with ((60%N :: m) ++ [62%N]).
  rewrite rstrip_last by reflexivity. cbn [app].
  replace (is_block _) with true by (symmetry; exact B). reflexivity.
Qed.

(** A line of text that starts with [#] is wrapped as a paragraph. *)
Lemma hash_line_through (t : str) :
  ~ In newline t -> ~ In 42%N t -> ~ In 96%N t ->
  paragraphs (blockquotes (code_blocks (bold_italic (35%N :: t))))
  = lit "<p>" ++ strip (35%N :: t) ++ lit "</p>".
Proof.
  intros Hn Hs Hb.
  assert (A : forall k : char, k <> 35%N -> ~ In k t -> ~ In k (35%N :: t)).
  { intros k H1 H2 [F|F]; [congruence | tauto]. }
  rewrite inline_rules_line; try apply A; auto; try discriminate.
  rewrite paragraphs_line by (apply A; auto; discriminate).
  unfold paragraph. cbv zeta.
  match goal with
  | |- context [strip ?x] =>
    assert (S : exists b', strip x = 35%N :: b')
      by (unfold strip; cbn [lstrip]; change (is_space 35%N) with false;
          cbv iota; apply (@rstrip_keep [] t 35%N eq_refl));
    destruct S as [b' S]; rewrite !S
  end.
  transitivity (lit "<p>" ++ (35%N :: b') ++ lit "</p>"); [reflexivity|].
  do 2 f_equal. symmetry. exact S.
Qed.

Lemma headers_one_line (l : str) :
  ~ In newline l -> headers l = heading_line l.
Proof.
  intros H. change l with (join [newline] [l]) at 1.
  rewrite headers_lines by (constructor; [exact H | constructor]).
  cbn [List.map join]. apply header_rules_heading_line.
Qed.

Lemma not_in_cons_app (k : char) (pre r : str) :
  ~ In k pre -> ~ In k r -> ~ In k (pre ++ r).
Proof. rewrite in_app_iff. tauto. Qed.

End HeadingLine.

(** ** Where a match can stand *)

Section MatchShape.

Import Re.

Variable p : pattern.

Lemma strip_prefix_app_r (op s s1 t : str) :
  strip_prefix op s = Some s1 -> strip_prefix op (s ++ t) = Some (s1 ++ t).
Proof.
  intros H. apply strip_prefix_Some in H. subst s.
  rewrite <- app_assoc. apply strip_prefix_app.
Qed.

Lemma closes_shape (s r : str) :
  closes p s = Some r -> s = closer_text p ++ r.
Proof.
  unfold closes, closer_text. destruct (closer p) as [cl|].
  - apply strip_prefix_Some.
  - destruct s as [|c s]; [now intros [= <-]|].
    destruct (c =? newline)%N; [now intros [= <-] | discriminate].
Qed.

(** What the lazy group takes and what it leaves. *)
Lemma lazy_group_shape (s g r : str) :
  lazy_group p s = Some (g, r) -> s = g ++ closer_text p ++ r.
Proof.
  revert g r; induction s as [|c s IH]; intros g r; cbn [lazy_group].
  - destruct (closes p []) as [r0|] eqn:C; [|discriminate].
    intros [= <- <-]. now apply closes_shape in C.
  - destruct (closes p (c :: s)) as [r0|] eqn:C.
    + intros [= <- <-]. now apply closes_shape in C.
    + destruct (dotall p || negb (c =? newline)%N); [|discriminate].
      destruct (lazy_group p s) as [[g0 r0]|]; [|discriminate].
      intros [= <- <-]. cbn [app]. f_equal. now apply IH.
Qed.

(** A match is the opener, the group and the closer, in a row. *)
Lemma match_at_shape (prev : option char) (s g : str) (n : nat) :
  match_at p prev s = Some (g, n) ->
  exists r,
    s = (opener p ++ g ++ closer_text p) ++ r
    /\ n = List.length (opener p ++ g ++ closer_text p).
Proof.
  unfold match_at. destruct (anchored p && negb (at_bol prev)); [discriminate|].
  destruct (strip_prefix (opener p) s) as [s1|] eqn:S; [|discriminate].
  destruct (lazy_group p s1) as [[g0 r]|] eqn:L; [|discriminate].
  intros [= <- <-]. apply strip_prefix_Some in S. apply lazy_group_shape in L.
  exists r. subst s s1. split; [now rewrite <- !app_assoc|].
  rewrite !length_app. unfold closer_length, closer_text.
  destruct (closer p); cbn [List.length]; lia.
Qed.

(** The substitution at a position where the pattern matches. *)
Lemma sub_from_at_match (pre post : str) (prev : option char) (s g : str)
    (n : nat) :
  opener p <> [] ->
  match_at p prev s = Some (g, n) ->
  exists m r,
    s = m ++ r /\ m = opener p ++ g ++ closer_text p /\ m <> []
    /\ sub_from p pre post 0 prev s
       = pre ++ g ++ post ++ sub_from p pre post 0 (prev_after prev m) r.
Proof.
  intros O M. destruct (match_at_shape _ _ M) as (r & E & N).
  exists (opener p ++ g ++ closer_text p), r.
  assert (Ne : opener p ++ g ++ closer_text p <> []).
  { destruct (opener p); [congruence | discriminate]. }
  split; [exact E|]. split; [reflexivity|]. split; [exact Ne|].
  subst s. apply sub_from_match; [exact Ne|]. now rewrite M, N.
Qed.

End MatchShape.

(** ** Patterns that stay on one line *)

Section OneLine.

Import Re.

Variable p : pattern.
Variables pre post : str.
Variables (k : char) (o : str).

Hypothesis p_dot : dotall p = false.
Hypothesis p_opener : opener p = k :: o.
Hypothesis p_opener_line : ~ In newline (opener p).
Hypothesis p_closer_line : ~ In newline (closer_text p).

Lemma closes_break (t rest : str) :
  closes p (t ++ newline :: rest)
  = match closes p t with
    | Some r => Some (r ++ newline :: rest)
    | None => None
    end.
Proof.
  unfold closes, closer_text in *. destruct (closer p) as [cl|] eqn:C.
  - destruct (strip_prefix cl t) as [r|] eqn:S.
    + now apply strip_prefix_app_r.
    + apply strip_prefix_line; [exact p_closer_line | | exact S].
      right. eexists. reflexivity.
  - destruct t as [|c t]; cbn [app]; [now rewrite N.eqb_refl|].
    now destruct (c =? newline)%N.
Qed.

Lemma lazy_group_break (s rest : str) :
  lazy_group p (s ++ newline :: rest)
  = match lazy_group p s with
    | Some (g, r) => Some (g, r ++ newline :: rest)
    | None => None
    end.
Proof.
  induction s as [|c s IH].
  - pose proof (closes_break [] rest) as C. cbn [app] in *.
    cbn [lazy_group]. rewrite C. destruct (closes p []); [reflexivity|].
    now rewrite p_dot, N.eqb_refl.
  - pose proof (closes_break (c :: s) rest) as C. cbn [app] in *.
    cbn [lazy_group]. rewrite C. destruct (closes p (c :: s)); [reflexivity|].
    destruct (dotall p || negb (c =? newline)%N); [|reflexivity].
    rewrite IH. now destruct (lazy_group p s) as [[g r]|].
Qed.

(** What follows a newline does not count for a match before it. *)
Lemma match_at_break (prev : option char) (s rest : str) :
  match_at p prev (s ++ newline :: rest) = match_at p prev s.
Proof.
  unfold match_at. destruct (anchored p && negb (at_bol prev)); [reflexivity|].
  destruct (strip_prefix (opener p) s) as [s1|] eqn:S.
  - rewrite (strip_prefix_app_r _ _ (newline :: rest) S).
    rewrite lazy_group_break. now destruct (lazy_group p s1) as [[g r]|].
  - rewrite (@strip_prefix_line (opener p) s (newline :: rest));
      [reflexivity | exact p_opener_line | | exact S].
    right. eexists. reflexivity.
Qed.

(** The substitution goes through a newline: what it does before the
    newline does not depend on what follows, and after it a line starts. *)
Lemma sub_from_break (a rest : str) (skip : nat) (prev : option char) :
  (skip <= List.length a)%nat ->
  sub_from p pre post skip prev (a ++ newline :: rest)
  = sub_from p pre post skip prev a
    ++ newline :: sub_from p pre post 0 (Some newline) rest.
Proof.
  revert skip prev; induction a as [|c a IH]; intros skip prev Hs.
  - assert (skip = 0%nat) by (cbn in Hs; lia). subst skip.
    cbn [app sub_from].
    rewrite (@match_at_absent p k o prev newline rest p_opener);
      [reflexivity|].
    intros E. apply p_opener_line. rewrite p_opener. now left.
  - cbn [app sub_from]. destruct skip as [|skip].
    + change (c :: a ++ newline :: rest) with ((c :: a) ++ newline :: rest).
      rewrite match_at_break.
      destruct (match_at p prev (c :: a)) as [[g n]|] eqn:M.
      * destruct (match_at_shape _ _ _ M) as (r & E & N).
        assert (L : (n <= List.length (c :: a))%nat).
        { apply (f_equal (@List.length _)) in E. rewrite length_app in E.
          lia. }
        cbn [List.length] in L.
        rewrite IH by lia. now rewrite <- !app_assoc.
      * cbn [app]. f_equal. apply IH. lia.
    + apply IH. cbn [List.length] in Hs. lia.
Qed.

(** A text no position of which starts a match is copied. *)
Lemma sub_from_inert (l r : str) (prev : option char) :
  inert p prev l = true ->
  sub_from p pre post 0 prev (l ++ r)
  = l ++ sub_from p pre post 0 (prev_after prev l) r.
Proof.
  revert prev; induction l as [|c l IH]; intros prev H; [reflexivity|].
  cbn [inert] in H. apply andb_prop in H. destruct H as [H1 H2].
  cbn [app sub_from].
  assert (M : match_at p prev (c :: l ++ r) = None).
  { unfold match_at. unfold opens_with in H1. rewrite p_opener in *.
    cbn [strip_prefix].
    destruct (anchored p); cbn [negb orb andb] in *.
    - destruct (at_bol prev); cbn [negb andb] in *; [|reflexivity].
      apply negb_true_iff in H1. now rewrite H1.
    - apply negb_true_iff in H1. now rewrite H1. }
  rewrite M. cbn [prev_after fold_left]. f_equal. now apply IH.
Qed.

Lemma inert_bol (l : str) (prev prev' : option char) :
  at_bol prev = at_bol prev' -> inert p prev l = inert p prev' l.
Proof.
  intros E. destruct l as [|c l]; [reflexivity|]. cbn [inert]. now rewrite E.
Qed.

Lemma line_start_cases (a : str) :
  line_start a = true -> a = [] \/ exists a', a = a' ++ [newline].
Proof.
  unfold line_start. destruct a as [|c a] using rev_ind; [now left|].
  rewrite prev_after_app. cbn [prev_after fold_left at_bol].
  intros E. apply N.eqb_eq in E. subst c. right. now exists a.
Qed.

Lemma line_start_snoc (a : str) : line_start (a ++ [newline]) = true.
Proof.
  unfold line_start. rewrite prev_after_app. reflexivity.
Qed.

(** The frame of a substitution: a part of the text that starts a line and
    in which no match starts is kept, and so is the start of a line before
    it. *)
Lemma sub_frame (a l b : str) :
  line_start a = true -> inert p None l = true ->
  sub p pre post (a ++ l ++ b)
  = sub p pre post a
    ++ l ++ sub_from p pre post 0 (prev_after (prev_after None a) l) b
  /\ line_start (sub p pre post a) = true.
Proof.
  intros A I. unfold sub. destruct (line_start_cases _ A) as [->|[a' ->]].
  - cbn [app sub_from]. split; [|reflexivity]. now apply sub_from_inert.
  - rewrite <- app_assoc. cbn [app].
    rewrite sub_from_break by lia.
    replace (a' ++ [newline]) with (a' ++ newline :: []) by reflexivity.
    rewrite sub_from_break by lia. cbn [sub_from].
    rewrite <- app_assoc. cbn [app]. split.
    + do 2 f_equal. rewrite prev_after_app. cbn [prev_after fold_left].
      apply sub_from_inert.
      rewrite (@inert_bol l (Some newline) None); [exact I | reflexivity].
    + apply line_start_snoc.
Qed.

End OneLine.

(** ** The paragraph loop around a block *)

Section ParagraphFrame.

Import Re Markdown.

Lemma split_go_copy (x post h : str) (r : list str) (c2 : char) :
  c2 <> newline ->
  contains [newline; newline] (x ++ [c2]) = false ->
  split_go [newline; newline] 0 post = h :: r ->
  split_go [newline; newline] 0 (x ++ c2 :: post) = (x ++ c2 :: h) :: r.
Proof.
  intros Hc Hx Hp. induction x as [|d x IH].
  - cbn [app split_go]. unfold startswith. cbn [strip_prefix].
    destruct (N.eqb_spec newline c2) as [E|_]; [congruence|]. now rewrite Hp.
  - cbn [app contains] in Hx. apply orb_false_elim in Hx.
    destruct Hx as [H1 H2]. cbn [app split_go].
    assert (S : startswith (d :: x ++ c2 :: post) [newline; newline] = false).
    { unfold startswith in *. cbn [strip_prefix] in *.
      destruct (newline =? d)%N; [|reflexivity].
      destruct x as [|e x]; cbn [app] in *.
      - destruct (newline =? c2)%N; [discriminate | reflexivity].
      - destruct (newline =? e)%N; [discriminate | reflexivity]. }
    rewrite S, (IH H2). reflexivity.
Qed.

(** A part of the text without a blank line, and without a newline at
    either end, lies inside one piece of the split on blank lines. *)
Lemma split_keeps (pre m post : str) (c1 c2 : char) :
  c1 <> newline -> c2 <> newline ->
  contains [newline; newline] (c1 :: m ++ [c2]) = false ->
  exists l1 u v l2,
    split [newline; newline] (pre ++ (c1 :: m ++ [c2]) ++ post)
    = l1 ++ (u ++ (c1 :: m ++ [c2]) ++ v) :: l2.
Proof.
  intros H1 H2 Hx. unfold split.
  assert (G : forall skip, (skip <= List.length pre)%nat ->
            exists l1 u v l2,
              split_go [newline; newline] skip
                (pre ++ (c1 :: m ++ [c2]) ++ post)
              = l1 ++ (u ++ (c1 :: m ++ [c2]) ++ v) :: l2);
    [|apply G; lia].
  remember (c1 :: m ++ [c2]) as x eqn:Ex.
  induction pre as [|c pre IH]; intros skip Hs.
  - assert (skip = 0%nat) by (cbn in Hs; lia). subst skip.
    destruct (split_go [newline; newline] 0 post) as [|h r] eqn:P.
    { destruct post; [discriminate|].
      now apply split_go_nonempty in P. }
    exists [], [], h, r.
    replace ([] ++ x ++ post) with ((c1 :: m) ++ c2 :: post)
      by (subst x; cbn [app]; now rewrite <- app_assoc).
    rewrite Ex in Hx.
    rewrite (@split_go_copy (c1 :: m) post h r c2 H2 Hx P).
    subst x. cbn [app]. now rewrite <- app_assoc.
  - cbn [app split_go]. destruct skip as [|skip].
    + destruct (startswith _ _) eqn:S.
      * assert (Ne : (1 <= List.length pre)%nat).
        { destruct pre as [|e pre]; [|cbn; lia]. exfalso.
          unfold startswith in S. rewrite Ex in S.
          cbn [app strip_prefix] in S.
          destruct (newline =? c)%N; [|discriminate].
          destruct (N.eqb_spec newline c1) as [E|_]; [congruence|].
          discriminate. }
        destruct (IH 1%nat Ne) as (l1 & u & v & l2 & E).
        cbn [List.length pred]. rewrite E. now exists ([] :: l1), u, v, l2.
      * destruct (IH 0%nat (Nat.le_0_l _)) as (l1 & u & v & l2 & E).
        rewrite E. destruct l1 as [|h1 l1]; cbn [app].
        -- now exists [], (c :: u), v, l2.
        -- now exists ((c :: h1) :: l1), u, v, l2.
    + apply IH. cbn [List.length] in Hs. lia.
Qed.

Lemma join_split (sep : str) (l1 l2 : list str) (e : str) :
  exists a b, join sep (l1 ++ e :: l2) = a ++ e ++ b.
Proof.
  induction l1 as [|x l1 (a & b & IH)].
  - destruct l2 as [|y l2].
    + exists [], []. cbn. now rewrite app_nil_r.
    + now exists [], (sep ++ join sep (y :: l2)).
  - exists (x ++ sep ++ a), b. cbn [app].
    destruct (l1 ++ e :: l2) eqn:E; [destruct l1; discriminate|].
    change (join sep (x :: s :: l)) with (x ++ sep ++ join sep (s :: l)).
    rewrite IH. now rewrite <- !app_assoc.
Qed.

Lemma contains_within (x a e b : str) :
  contains x e = true -> contains x (a ++ e ++ b) = true.
Proof.
  intros H. apply contains_inv in H. destruct H as (u & v & ->).
  replace (a ++ (u ++ x ++ v) ++ b) with ((a ++ u) ++ x ++ (v ++ b))
    by (now rewrite <- !app_assoc).
  apply contains_app.
Qed.

Lemma is_space_newline (c : char) : is_space c = false -> c <> newline.
Proof. intros H ->. discriminate H. Qed.

(** The paragraph loop keeps every part of the text that holds no blank
    line and that starts and ends with code points that are no white
    space, wherever it stands. *)
Lemma paragraphs_keep_any (pre m post : str) (c1 c2 : char) :
  is_space c1 = false -> is_space c2 = false ->
  contains [newline; newline] (c1 :: m ++ [c2]) = false ->
  contains (c1 :: m ++ [c2])
    (paragraphs (pre ++ (c1 :: m ++ [c2]) ++ post)) = true.
Proof.
  intros H1 H2 Hx. unfold paragraphs.
  change (lit nl ++ lit nl) with [newline; newline].
  destruct (@split_keeps pre m post c1 c2 (is_space_newline H1)
              (is_space_newline H2) Hx) as (l1 & u & v & l2 & ->).
  rewrite flat_map_app. cbn [flat_map].
  assert (P : exists e,
             paragraph (u ++ (c1 :: m ++ [c2]) ++ v) = [e]
             /\ contains (c1 :: m ++ [c2]) e = true).
  { unfold paragraph.
    replace (u ++ (c1 :: m ++ [c2]) ++ v) with (u ++ c1 :: m ++ c2 :: v)
      by (cbn [app]; now rewrite <- app_assoc).
    destruct (@strip_keep u m v c1 c2 H1 H2) as (a' & b' & ->).
    assert (E : a' ++ c1 :: m ++ c2 :: b' = a' ++ (c1 :: m ++ [c2]) ++ b').
    { cbn [app]. now rewrite <- app_assoc. }
    destruct (a' ++ c1 :: m ++ c2 :: b') as [|h t] eqn:Et.
    - destruct a'; discriminate.
    - destruct (is_block _); eexists; (split; [reflexivity|]); rewrite E.
      + apply contains_app.
      + apply (@contains_within _ (lit "<p>") _ (lit "</p>")).
        apply contains_app. }
  destruct P as (e & -> & Pe).
  cbn [app].
  match goal with
  | |- contains _ (join ?s (?x ++ ?e0 :: ?y)) = true =>
    destruct (join_split s x y e0) as (a & b & E); rewrite E
  end.
  now apply contains_within.
Qed.

End ParagraphFrame.

(** ** The fence rule around a line without a backtick *)

Section FindMore.

Lemma strip_prefix_short (sub w y : str) :
  (List.length sub <= List.length w)%nat ->
  strip_prefix sub w = None -> strip_prefix sub (w ++ y) = None.
Proof.
  revert w; induction sub as [|a sub IH]; intros w L; [discriminate|].
  destruct w as [|b w]; [cbn in L; lia|]. cbn [app strip_prefix].
  destruct (a =? b)%N; [|reflexivity]. apply IH. cbn in L. lia.
Qed.

Lemma find_app_some (sub x y g r : str) :
  find sub x = Some (g, r) -> find sub (x ++ y) = Some (g, r ++ y).
Proof.
  revert g; induction x as [|c x IH]; intros g; cbn [app find].
  - destruct (strip_prefix sub []) as [r0|] eqn:S; [|discriminate].
    intros [= <- <-]. apply (strip_prefix_app_r _ _ y) in S.
    cbn [app] in S. destruct y; cbn [find]; now rewrite S.
  - destruct (strip_prefix sub (c :: x)) as [r0|] eqn:S.
    + intros [= <- <-]. apply (strip_prefix_app_r _ _ y) in S.
      cbn [app] in S. now rewrite S.
    + destruct (find sub x) as [[g0 r0]|] eqn:F; [|discriminate].
      intros [= <- <-].
      assert (L : (List.length sub <= List.length (c :: x))%nat).
      { apply find_Some in F. rewrite F. cbn [List.length].
        rewrite !length_app. lia. }
      pose proof (@strip_prefix_short sub (c :: x) y L S) as S1.
      cbn [app] in S1. rewrite S1. now rewrite (IH g0 eq_refl).
Qed.

(** A text that ends with a code point foreign to [sub] does not hold the
    start of an occurrence that goes on after it. *)
Lemma strip_prefix_end (sub w y : str) (c : char) :
  ~ In c sub -> strip_prefix sub (w ++ [c]) = None ->
  strip_prefix sub ((w ++ [c]) ++ y) = None.
Proof.
  intros Hc. revert w; induction sub as [|a sub IH]; intros w; [discriminate|].
  assert (Ha : a <> c) by (intros E; apply Hc; now left).
  destruct w as [|b w]; cbn [app strip_prefix].
  - apply N.eqb_neq in Ha. now rewrite Ha.
  - destruct (a =? b)%N; [|reflexivity]. apply IH.
    intros F. apply Hc. now right.
Qed.

Lemma find_app_none (sub x y : str) (c : char) :
  sub <> [] -> ~ In c sub -> find sub (x ++ [c]) = None ->
  find sub ((x ++ [c]) ++ y)
  = match find sub y with
    | Some (g, r) => Some ((x ++ [c]) ++ g, r)
    | None => None
    end.
Proof.
  intros Ne Hc. induction x as [|d x IH]; cbn [app find].
  - destruct sub as [|a sub]; [congruence|]. cbn [strip_prefix].
    assert (Ha : (a =? c)%N = false).
    { apply N.eqb_neq. intros E. apply Hc. now left. }
    rewrite Ha. intros _. now destruct (find (a :: sub) y) as [[g r]|].
  - destruct (strip_prefix sub (d :: x ++ [c])) as [r0|] eqn:S; [discriminate|].
    destruct (find sub (x ++ [c])) as [[g0 r0]|] eqn:F; [discriminate|].
    intros _.
    pose proof (@strip_prefix_end sub (d :: x) y c Hc S) as S1.
    cbn [app] in S1. rewrite S1, (IH eq_refl).
    now destruct (find sub y) as [[g r]|].
Qed.

Lemma find_skip (sub l y : str) (k : char) (sub' : str) :
  sub = k :: sub' -> ~ In k l ->
  find sub (l ++ y)
  = match find sub y with
    | Some (g, r) => Some (l ++ g, r)
    | None => None
    end.
Proof.
  intros E Hl. induction l as [|d l IH]; cbn [app].
  - now destruct (find sub y) as [[g r]|].
  - cbn [find].
    assert (S : strip_prefix sub (d :: l ++ y) = None).
    { rewrite E. cbn [strip_prefix].
      destruct (N.eqb_spec k d) as [F|_]; [|reflexivity].
      exfalso. apply Hl. now left. }
    rewrite S, IH by (intros F; apply Hl; now right).
    now destruct (find sub y) as [[g r]|].
Qed.

Lemma ends_with_tail (A : Type) (x y z : list A) (c : A) :
  x ++ y = z ++ [c] -> y <> [] -> exists y', y = y' ++ [c].
Proof.
  intros E Ne. destruct y as [|a y] using rev_ind; [congruence|].
  rewrite app_assoc in E. apply app_inj_tail in E. destruct E as [_ ->].
  now exists y.
Qed.

End FindMore.

Section FenceLine.

Import Re Markdown.

Variables pre post : str.

Let tick : char := 96%N.

Lemma starts_with_fence (u' w z : str) :
  (u' ++ [newline]) ++ w = lit "```" ++ z ->
  exists u1', u' ++ [newline] = lit "```" ++ u1' ++ [newline].
Proof.
  destruct u' as [|a [|b [|c u'']]]; cbn [app]; intros E.
  - injection E as E _. discriminate E.
  - injection E as _ E _. discriminate E.
  - injection E as _ _ E _. discriminate E.
  - injection E as -> -> -> _. now exists u''.
Qed.

Lemma fence_match (prev : option char) (s1 g : str) (n : nat) :
  match_at fence_pat prev (lit "```" ++ s1) = Some (g, n) ->
  exists r, find (lit "```") s1 = Some (g, r).
Proof.
  unfold match_at. cbn [anchored fence_pat andb opener].
  rewrite strip_prefix_app.
  rewrite (@lazy_group_find fence_pat tick [tick; tick] eq_refl eq_refl).
  change (tick :: [tick; tick]) with (lit "```").
  destruct (find (lit "```") s1) as [[g0 r]|]; [|discriminate].
  intros [= <- _]. now exists r.
Qed.

Lemma fence_no_match (prev : option char) (s : str) :
  match_at fence_pat prev s = None ->
  forall c t, s = c :: t ->
  sub_from fence_pat pre post 0 prev s
  = c :: sub_from fence_pat pre post 0 (Some c) t.
Proof. intros M c t ->. cbn [sub_from]. now rewrite M. Qed.

(** A line without a backtick that starts a line of the text is kept by
    the fence rule, outside a block or inside one, and it still starts a
    line. *)
Lemma fence_keeps_line (n : nat) :
  forall (u l v : str) (prev : option char),
    (List.length u <= n)%nat -> ~ In tick l ->
    line_start u = true ->
    exists a b,
      sub_from fence_pat pre post 0 prev (u ++ l ++ v) = a ++ l ++ b
      /\ (u = [] -> a = [])
      /\ (u <> [] -> exists a', a = a' ++ [newline]).
Proof.
  induction n as [|n IH]; intros u l v prev Hn Hl Hu.
  - destruct u; [|cbn in Hn; lia].
    exists [], (sub_from fence_pat pre post 0 (prev_after prev l) v).
    split; [|split; [reflexivity | congruence]]. cbn [app].
    apply (@sub_from_copy fence_pat pre post tick [tick; tick]);
      [reflexivity | exact Hl].
  - destruct (line_start_cases _ Hu) as [->|[u' Eu]].
    { exists [], (sub_from fence_pat pre post 0 (prev_after prev l) v).
      split; [|split; [reflexivity | congruence]]. cbn [app].
      apply (@sub_from_copy fence_pat pre post tick [tick; tick]);
        [reflexivity | exact Hl]. }
    destruct u as [|c ut]; [destruct u'; discriminate|].
    assert (Tail : ut = [] \/ exists ut', ut = ut' ++ [newline]).
    { destruct ut as [|d ut]; [now left|]. right.
      apply (@ends_with_tail _ [c] (d :: ut) u' newline);
        [exact Eu | discriminate]. }
    assert (Lt : line_start ut = true).
    { destruct Tail as [->|[ut' ->]]; [reflexivity | apply line_start_snoc]. }
    assert (Step : forall w,
              (exists a b,
                 w = a ++ l ++ b /\ (ut = [] -> a = [])
                 /\ (ut <> [] -> exists a', a = a' ++ [newline])) ->
              exists a b,
                c :: w = a ++ l ++ b
                /\ (c :: ut = [] -> a = [])
                /\ (c :: ut <> [] -> exists a', a = a' ++ [newline])).
    { intros w (a & b & -> & A0 & A1). exists (c :: a), b.
      split; [reflexivity|]. split; [discriminate|]. intros _.
      destruct ut as [|d ut].
      - rewrite (A0 eq_refl). exists [].
        change [c] with ([] ++ [c]) in Eu. apply app_inj_tail in Eu.
        now destruct Eu as [_ ->].
      - destruct A1 as [a' ->]; [discriminate|]. now exists (c :: a'). }
    destruct (match_at fence_pat prev ((c :: ut) ++ l ++ v)) as [[g m]|] eqn:M.
    + destruct (@sub_from_at_match fence_pat pre post prev _ g m
                  ltac:(discriminate) M) as (mt & r & Es & Em & Ne & Sub).
      rewrite Sub. cbn [opener fence_pat closer_text closer] in Em.
      assert (F : exists u1', c :: ut = lit "```" ++ u1' ++ [newline]).
      { rewrite Eu. eapply starts_with_fence. rewrite <- Eu, Es, Em.
        rewrite <- !app_assoc. reflexivity. }
      destruct F as [u1' Eu1].
      assert (S1 : (u1' ++ [newline]) ++ l ++ v = g ++ lit "```" ++ r).
      { rewrite Eu1, Em in Es. rewrite <- !app_assoc in Es.
        apply app_inv_head in Es. now rewrite <- !app_assoc. }
      rewrite Eu1 in M. rewrite <- !app_assoc in M.
      apply fence_match in M. destruct M as [r' M].
      rewrite app_assoc in M.
      destruct (find (lit "```") (u1' ++ [newline])) as [[g1 r1]|] eqn:F1.
      * rewrite (@find_app_some (lit "```") (u1' ++ [newline]) (l ++ v)
                   g1 r1 F1) in M.
        injection M as <- _. apply find_Some in F1.
        assert (R1 : exists r1', r1 = r1' ++ [newline]).
        { destruct r1 as [|x r1].
          - rewrite app_nil_r in F1.
            change (lit "```") with ([tick; tick] ++ [tick]) in F1.
            rewrite app_assoc in F1. apply app_inj_tail in F1.
            destruct F1 as [_ F1]. discriminate F1.
          - apply (@ends_with_tail _ (g1 ++ lit "```") (x :: r1) u1' newline);
              [|discriminate].
            rewrite <- app_assoc. now rewrite <- F1. }
        destruct R1 as [r1' R1].
        assert (Er : r = r1 ++ l ++ v).
        { rewrite F1 in S1. rewrite <- !app_assoc in S1.
          apply app_inv_head in S1. apply app_inv_head in S1.
          now symmetry. }
        assert (Len : (List.length r1 <= n)%nat).
        { apply (f_equal (@List.length _)) in Eu1.
          apply (f_equal (@List.length _)) in F1.
          change (lit "```") with [tick; tick; tick] in Eu1, F1.
          rewrite !length_app in Eu1. rewrite !length_app in F1.
          cbn [List.length] in *. lia. }
        assert (Lr : line_start r1 = true)
          by (rewrite R1; apply line_start_snoc).
        destruct (IH r1 l v (prev_after prev mt) Len Hl Lr)
          as (a & b & E & _ & A1).
        rewrite Er, E. exists (pre ++ g1 ++ post ++ a), b.
        split; [now rewrite <- !app_assoc|]. split; [discriminate|].
        intros _. destruct A1 as [a' ->].
        { rewrite R1. destruct r1'; discriminate. }
        exists (pre ++ g1 ++ post ++ a'). now rewrite <- !app_assoc.
      * rewrite (@find_app_none (lit "```") u1' (l ++ v) newline) in M;
          [| discriminate | absent_lit | exact F1].
        rewrite (@find_skip (lit "```") l v tick [tick; tick] eq_refl Hl) in M.
        destruct (find (lit "```") v) as [[g2 r2]|]; [|discriminate].
        injection M as <- _.
        exists (pre ++ u1' ++ [newline]),
          (g2 ++ post
           ++ sub_from fence_pat pre post 0 (prev_after prev mt) r).
        split; [now rewrite <- !app_assoc|]. split; [discriminate|].
        intros _. exists (pre ++ u1'). now rewrite <- app_assoc.
    + rewrite (@fence_no_match prev _ M c (ut ++ l ++ v) eq_refl).
      apply Step. apply IH; [cbn in Hn; lia | exact Hl | exact Lt].
Qed.

Lemma fence_frame (u l v : str) :
  ~ In tick l -> line_start u = true ->
  exists a b,
    sub fence_pat pre post (u ++ l ++ v) = a ++ l ++ b
    /\ line_start a = true.
Proof.
  intros Hl Hu.
  destruct (@fence_keeps_line (List.length u) u l v None (Nat.le_refl _)
              Hl Hu) as (a & b & E & Z & N).
  exists a, b. split; [exact E|]. destruct u as [|c u].
  - now rewrite (Z eq_refl).
  - destruct N as [a' ->]; [discriminate | apply line_start_snoc].
Qed.

End FenceLine.

(** ** A block element on a line of its own, in any text *)

Section LineThrough.

Import Re Markdown.

Lemma inert_absent (p : pattern) (k : char) (o : str) (prev : option char)
    (l : str) :
  opener p = k :: o -> ~ In k l -> inert p prev l = true.
Proof.
  intros O. revert prev; induction l as [|c l IH]; intros prev H;
    [reflexivity|].
  cbn [inert]. rewrite IH by (intros F; apply H; now right).
  unfold opens_with. rewrite O.
  destruct (N.eqb_spec k c) as [E|_]; [exfalso; apply H; now left|].
  now rewrite andb_false_r.
Qed.

Lemma inert_inside (p : pattern) (c : char) (t : str) :
  anchored p = true -> c <> newline -> ~ In newline t ->
  inert p (Some c) t = true.
Proof.
  intros A. revert c; induction t as [|d t IH]; intros c Hc Ht;
    [reflexivity|].
  cbn [inert at_bol]. rewrite A. apply N.eqb_neq in Hc. rewrite Hc.
  cbn [negb orb andb]. apply IH; intros E; apply Ht; [now left | now right].
Qed.

Lemma inert_line (p : pattern) (k : char) (o : str) (prev : option char)
    (c : char) (t : str) :
  anchored p = true -> opener p = k :: o -> c <> k ->
  ~ In newline (c :: t) -> inert p prev (c :: t) = true.
Proof.
  intros A O Hc Hn. cbn [inert]. unfold opens_with. rewrite O.
  destruct (N.eqb_spec k c) as [E|_]; [congruence|].
  rewrite andb_false_r. cbn [negb andb].
  apply inert_inside; [exact A | |]; intros E; apply Hn; [now left | now right].
Qed.

Lemma line_start_after (x a : str) :
  line_start a = true -> line_start (x ++ newline :: a) = true.
Proof.
  unfold line_start. rewrite prev_after_app. cbn [prev_after fold_left].
  destruct a as [|c a]; [reflexivity|]. cbn [fold_left]. trivial.
Qed.

(** A line of a text, with what stands before it and after it. *)
Lemma join_line (xs ys : list str) (l : str) :
  exists a b,
    join [newline] (xs ++ l :: ys) = a ++ l ++ b /\ line_start a = true.
Proof.
  induction xs as [|x xs (a & b & E & A)].
  - destruct ys as [|y ys].
    + exists [], []. cbn. now rewrite app_nil_r.
    + exists [], (newline :: join [newline] (y :: ys)). now split.
  - exists (x ++ newline :: a), b. cbn [app].
    destruct (xs ++ l :: ys) eqn:F; [destruct xs; discriminate|].
    change (join [newline] (x :: s :: l0))
      with (x ++ [newline] ++ join [newline] (s :: l0)).
    rewrite E. split; [now rewrite <- !app_assoc | now apply line_start_after].
Qed.

Variables (a b m : str) (c1 c2 : char).

Let block : str := c1 :: m ++ [c2].

Hypothesis a_line : line_start a = true.
Hypothesis c1_text : is_space c1 = false.
Hypothesis c2_text : is_space c2 = false.
Hypothesis c1_quote : c1 <> 62%N.
Hypothesis block_line : ~ In newline block.
Hypothesis block_star : ~ In 42%N block.
Hypothesis block_tick : ~ In 96%N block.

(** The rules after the headers keep a line that holds no [*] and no
    backtick, does not start with [>] and does not start or end with white
    space, whatever the text around it. *)
Lemma later_rules_keep_line :
  contains block
    (paragraphs (blockquotes (code_blocks (bold_italic (a ++ block ++ b)))))
  = true.
Proof.
  assert (Hn := block_line). assert (Hs := block_star).
  assert (Ht := block_tick).
  unfold bold_italic, code_blocks, blockquotes.
  assert (A0 := a_line).
  (* bold *)
  match goal with
  | A : line_start ?u = true |- context [sub bold_pat ?o ?c (?u ++ block ++ ?v)] =>
    destruct (@sub_frame bold_pat o c 42%N [42%N] eq_refl eq_refl
                ltac:(absent_lit) ltac:(absent_lit) u block v A
                (@inert_absent bold_pat 42%N [42%N] None block eq_refl Hs))
      as [E1 A1]; rewrite E1; clear E1 A
  end.
  (* emphasis *)
  match goal with
  | A : line_start ?u = true |- context [sub italic_pat ?o ?c (?u ++ block ++ ?v)] =>
    destruct (@sub_frame italic_pat o c 42%N [] eq_refl eq_refl
                ltac:(absent_lit) ltac:(absent_lit) u block v A
                (@inert_absent italic_pat 42%N [] None block eq_refl Hs))
      as [E2 A2]; rewrite E2; clear E2 A
  end.
  (* fences *)
  match goal with
  | A : line_start ?u = true |- context [sub fence_pat ?o ?c (?u ++ block ++ ?v)] =>
    destruct (@fence_frame o c u block v Ht A) as (a3 & b3 & E3 & A3);
    rewrite E3; clear E3 A
  end.
  (* inline code *)
  match goal with
  | A : line_start ?u = true |- context [sub code_pat ?o ?c (?u ++ block ++ ?v)] =>
    destruct (@sub_frame code_pat o c 96%N [] eq_refl eq_refl
                ltac:(absent_lit) ltac:(absent_lit) u block v A
                (@inert_absent code_pat 96%N [] None block eq_refl Ht))
      as [E4 A4]; rewrite E4; clear E4 A
  end.
  (* block quotes *)
  match goal with
  | A : line_start ?u = true |- context [sub quote_pat ?o ?c (?u ++ block ++ ?v)] =>
    destruct (@sub_frame quote_pat o c 62%N [32%N] eq_refl eq_refl
                ltac:(absent_lit) ltac:(absent_lit) u block v A
                (@inert_line quote_pat 62%N [32%N] None c1 (m ++ [c2])
                   eq_refl eq_refl c1_quote Hn))
      as [E5 A5]; rewrite E5; clear E5 A
  end.
  apply paragraphs_keep_any; [exact c1_text | exact c2_text |].
  now apply no_newline_no_blank.
Qed.

End LineThrough.

(** ** Texts without a fence *)

Section NoFence.

Import Re Markdown.

Lemma contains_part (sub x y z : str) :
  contains sub (x ++ y ++ z) = false -> contains sub y = false.
Proof.
  intros H. destruct (contains sub y) eqn:E; [|reflexivity].
  now rewrite (@contains_within sub x y z E) in H.
Qed.

(** An occurrence of [sub] does not go over a code point that [sub] does
    not hold. *)
Lemma contains_split (sub x y : str) (c : char) :
  ~ In c sub -> contains sub (x ++ c :: y) = true ->
  contains sub x = true \/ contains sub y = true.
Proof.
  intros Hc H. apply contains_inv in H. destruct H as (u & v & E).
  apply app_eq_app in E. destruct E as [w [[E1 E2]|[E1 E2]]].
  - (* x = u ++ w, sub ++ v = w ++ c :: y *)
    symmetry in E2. apply app_eq_app in E2.
    destruct E2 as [w' [[E3 E4]|[E3 E4]]].
    + (* w = sub ++ w' *)
      left. subst x w. apply contains_app.
    + (* sub = w ++ w', c :: y = w' ++ v *)
      destruct w' as [|d w'].
      * left. rewrite app_nil_r in E3. subst x w.
        replace (u ++ sub) with (u ++ sub ++ []) by now rewrite app_nil_r.
        apply contains_app.
      * injection E4 as <- _. exfalso. apply Hc. subst sub.
        rewrite in_app_iff. right. now left.
  - (* u = x ++ w, c :: y = w ++ sub ++ v *)
    destruct w as [|d w].
    + destruct sub as [|d sub]; [left; now destruct x|].
      injection E2 as <- _. exfalso. apply Hc. now left.
    + injection E2 as _ ->. right. apply contains_app.
Qed.

Lemma no_occurrence_mid (sub x y : str) (c : char) :
  ~ In c sub -> contains sub x = false -> contains sub y = false ->
  contains sub (x ++ c :: y) = false.
Proof.
  intros Hc Hx Hy. destruct (contains sub (x ++ c :: y)) eqn:E; [|reflexivity].
  destruct (@contains_split sub x y c Hc E); congruence.
Qed.

Lemma absent_no_occurrence (sub s : str) (c : char) :
  In c sub -> ~ In c s -> contains sub s = false.
Proof.
  intros Hc Hs. destruct (contains sub s) eqn:E; [|reflexivity].
  apply contains_inv in E. destruct E as (u & v & ->). exfalso. apply Hs.
  rewrite !in_app_iff. tauto.
Qed.

End NoFence.

Section TickKeeping.

Import Re Markdown.

Variable p : pattern.
Variables pre post : str.
Variables (k : char) (o : str).
Variables (pre0 : str) (c1 c2 : char) (post1 : str) (c3 : char).

Let tick : char := 96%N.
Let fence : str := [tick; tick; tick].

Hypothesis p_opener : opener p = k :: o.
Hypothesis pre_shape : pre = pre0 ++ [c1].
Hypothesis post_shape : post = c2 :: post1 ++ [c3].
Hypothesis pre_free : ~ In tick pre.
Hypothesis post_free : ~ In tick post.

Lemma startswith_cons (c a : char) (s q : str) :
  startswith (c :: s) (a :: q) = (a =? c)%N && startswith s q.
Proof.
  unfold startswith. cbn [strip_prefix]. now destruct (a =? c)%N.
Qed.

Lemma startswith_tag (w q : str) : startswith (pre ++ w) (tick :: q) = false.
Proof.
  destruct pre as [|h t] eqn:E.
  - rewrite pre_shape in E. destruct pre0; discriminate.
  - cbn [app]. rewrite startswith_cons.
    destruct (N.eqb_spec tick h) as [F|_]; [|reflexivity].
    exfalso. apply pre_free. now left.
Qed.

(** A substitution whose literals and tags hold no backtick makes no
    fence: the runs of backticks of its result are those of the text. *)
Lemma sub_from_no_fence (n : nat) :
  forall (s : str) (prev : option char),
    (List.length s <= n)%nat -> contains fence s = false ->
    contains fence (sub_from p pre post 0 prev s) = false
    /\ (startswith (sub_from p pre post 0 prev s) [tick] = true ->
        startswith s [tick] = true)
    /\ (startswith (sub_from p pre post 0 prev s) [tick; tick] = true ->
        startswith s [tick; tick] = true).
Proof.
  induction n as [|n IH]; intros s prev Hn Hs.
  - destruct s; [|cbn in Hn; lia]. cbn [sub_from]. now repeat split.
  - destruct s as [|c s]; [cbn [sub_from]; now repeat split|].
    destruct (match_at p prev (c :: s)) as [[g m]|] eqn:M.
    + destruct (@sub_from_at_match p pre post prev _ g m
                  ltac:(rewrite p_opener; discriminate) M)
        as (mt & r & Es & Em & Ne & Sub).
      rewrite Sub.
      assert (Lr : (List.length r <= n)%nat).
      { apply (f_equal (@List.length _)) in Es. rewrite length_app in Es.
        cbn [List.length] in *. destruct mt; [congruence|].
        cbn [List.length] in Es. lia. }
      assert (Hr : contains fence r = false).
      { rewrite Es in Hs. rewrite <- (app_nil_r r) in Hs.
        now apply contains_part in Hs. }
      assert (Hg : contains fence g = false).
      { rewrite Es, Em in Hs. rewrite <- !app_assoc in Hs.
        now apply contains_part in Hs. }
      destruct (IH r (prev_after prev mt) Lr Hr) as (C & _ & _).
      split; [|split].
      * remember (sub_from p pre post 0 (prev_after prev mt) r) as out_r.
        replace (pre ++ g ++ post ++ out_r)
          with (pre0 ++ c1 :: (g ++ c2 :: (post1 ++ c3 :: out_r)))
          by (rewrite pre_shape, post_shape; cbn [app];
              rewrite <- !app_assoc; reflexivity).
        assert (T1 : ~ In c1 fence).
        { intros [F|[F|[F|[]]]]; apply pre_free; rewrite pre_shape,
            in_app_iff; right; left; now rewrite <- F. }
        assert (T2 : ~ In c2 fence).
        { intros [F|[F|[F|[]]]]; apply post_free; rewrite post_shape;
            left; now rewrite <- F. }
        assert (T3 : ~ In c3 fence).
        { intros [F|[F|[F|[]]]]; apply post_free; rewrite post_shape;
            right; rewrite in_app_iff; right; left; now rewrite <- F. }
        apply no_occurrence_mid; [exact T1 | |].
        { apply (@absent_no_occurrence fence pre0 tick); [now left|].
          intros F. apply pre_free. rewrite pre_shape, in_app_iff. now left. }
        apply no_occurrence_mid; [exact T2 | exact Hg |].
        apply no_occurrence_mid; [exact T3 | | exact C].
        apply (@absent_no_occurrence fence post1 tick); [now left|].
        intros F. apply post_free. rewrite post_shape. right.
        rewrite in_app_iff. now left.
      * now rewrite startswith_tag.
      * now rewrite startswith_tag.
    + cbn [sub_from]. rewrite M.
      assert (Ls : (List.length s <= n)%nat) by (cbn in Hn; lia).
      cbn [contains] in Hs. apply orb_false_elim in Hs.
      destruct Hs as [S0 Hs].
      destruct (IH s (Some c) Ls Hs) as (C & I1 & I2).
      unfold fence in *. rewrite !startswith_cons in *.
      split; [|split].
      * cbn [contains]. rewrite C, orb_false_r. rewrite startswith_cons.
        destruct (tick =? c)%N; [|reflexivity]. cbn [andb] in *.
        destruct (startswith (sub_from p pre post 0 (Some c) s) [tick; tick])
          eqn:E; [|reflexivity].
        rewrite (I2 eq_refl) in S0. discriminate S0.
      * destruct (tick =? c)%N; [|discriminate]. cbn [andb].
        intros _. now destruct s.
      * destruct (tick =? c)%N; [|discriminate]. cbn [andb]. exact I1.
Qed.

Lemma sub_no_fence (s : str) :
  contains fence s = false -> contains fence (sub p pre post s) = false.
Proof.
  intros H. now apply (@sub_from_no_fence (List.length s) s None).
Qed.

End TickKeeping.

(** ** Fenced code blocks *)

Section FenceCopy.

Import Re Markdown.

Variables pre post : str.

Let tick : char := 96%N.

Lemma no_fence_here (w rest : str) :
  w <> [] -> startswith (w ++ [tick; tick]) (lit "```") = false ->
  strip_prefix (lit "```") (w ++ rest) = None.
Proof.
  change (lit "```") with [tick; tick; tick]. unfold startswith.
  destruct w as [|c1 [|c2 [|c3 w]]]; [congruence| | |]; intros _;
    cbn [app strip_prefix]; rewrite ?N.eqb_refl;
    repeat match goal with
           | |- context [(tick =? ?c)%N] => destruct (tick =? c)%N
           end; intros H; first [reflexivity | discriminate H].
Qed.

(** The fence rule copies a text in which no fence starts, even with
    backticks after it. *)
Lemma fence_copy (a rest : str) (prev : option char) :
  contains (lit "```") (a ++ [tick; tick]) = false ->
  sub_from fence_pat pre post 0 prev (a ++ rest)
  = a ++ sub_from fence_pat pre post 0 (prev_after prev a) rest.
Proof.
  revert prev; induction a as [|c a IH]; intros prev H; [reflexivity|].
  cbn [app contains] in H. apply orb_false_elim in H. destruct H as [H1 H2].
  cbn [app sub_from].
  assert (M : match_at fence_pat prev (c :: a ++ rest) = None).
  { pose proof (@no_fence_here (c :: a) rest ltac:(discriminate) H1) as S.
    cbn [app] in S. unfold match_at. cbn [anchored fence_pat andb opener].
    now rewrite S. }
  rewrite M. cbn [prev_after fold_left]. f_equal. now apply IH.
Qed.

Lemma no_fence_before (a0 a1 : str) :
  line_start a0 = true -> contains (lit "```") a0 = false -> ~ In tick a1 ->
  contains (lit "```") ((a0 ++ a1) ++ [tick; tick]) = false.
Proof.
  intros L H0 H1.
  assert (T : contains (lit "```") (a1 ++ [tick; tick]) = false).
  { induction a1 as [|c a IH]; [reflexivity|].
    cbn [app contains]. rewrite IH by (intros F; apply H1; now right).
    rewrite orb_false_r. unfold startswith.
    change (lit "```") with [tick; tick; tick]. cbn [strip_prefix].
    destruct (N.eqb_spec tick c) as [E|_]; [|reflexivity].
    exfalso. apply H1. now left. }
  destruct (line_start_cases _ L) as [->|[a' ->]]; [exact T|].
  rewrite <- !app_assoc. cbn [app].
  apply no_occurrence_mid; [absent_lit | | exact T].
  exact (@contains_part (lit "```") [] a' [newline] H0).
Qed.

End FenceCopy.

Section FencedBlocks.

Import Re Markdown.

Lemma quiet_parts (prev : option char) (s : str) :
  quiet prev s = true ->
  ~ In 42%N s /\ ~ In 96%N s
  /\ bol_free 35%N prev s = true /\ bol_free 62%N prev s = true.
Proof.
  unfold quiet. intros H. apply andb_prop in H. destruct H as [H B2].
  apply andb_prop in H. destruct H as [F B1].
  rewrite forallb_forall in F.
  repeat split; auto; intros Hin; specialize (F _ Hin); discriminate F.
Qed.

Lemma inert_bol_free (p : pattern) (k : char) (o : str)
    (prev : option char) (s : str) :
  anchored p = true -> opener p = k :: o ->
  bol_free k prev s = true -> inert p prev s = true.
Proof.
  intros A O. revert prev; induction s as [|c s IH]; intros prev H;
    [reflexivity|].
  cbn [bol_free inert] in *. apply andb_prop in H. destruct H as [H1 H2].
  rewrite (IH _ H2), andb_true_r. unfold opens_with. rewrite A, O.
  cbn [negb orb]. now rewrite (N.eqb_sym k c).
Qed.

Lemma bol_free_prev (k : char) (prev prev' : option char) (s : str) :
  at_bol prev = at_bol prev' -> bol_free k prev s = bol_free k prev' s.
Proof. intros E. destruct s; [reflexivity|]. cbn [bol_free]. now rewrite E. Qed.

(** A tag that holds no newline and does not start with [k]: no line
    starts with [k] in it, and none starts after it. *)
Lemma bol_free_tag (k : char) (prev : option char) (c : char) (tag s : str) :
  c <> k -> ~ In newline (c :: tag) ->
  bol_free k prev ((c :: tag) ++ s) = bol_free k (Some 0%N) s.
Proof.
  intros Hc Hn.
  assert (C : c <> newline) by (intros F; apply Hn; now left).
  assert (T : ~ In newline tag) by (intros F; apply Hn; now right).
  rewrite bol_free_app. cbn [bol_free].
  apply N.eqb_neq in Hc. rewrite Hc, andb_false_r. cbn [negb andb].
  rewrite (@bol_free_inside k c tag C T). cbn [andb]. apply bol_free_prev.
  change (prev_after prev (c :: tag)) with (prev_after (Some c) tag).
  now rewrite (@at_bol_after c tag C T).
Qed.

(** One rule that does not go over a line break, on a text
    [u ++ l ++ v] where [u] ends a line and holds no fence and no match
    starts in [l]: [l] is kept, and what stands before it still ends a
    line and holds no fence. *)
Lemma rule_step (p : pattern) (pre post : str) (k : char) (o : str)
    (pre0 : str) (c1 c2 : char) (post1 : str) (c3 : char) (l u v : str) :
  dotall p = false -> opener p = k :: o ->
  ~ In newline (opener p) -> ~ In newline (closer_text p) ->
  pre = pre0 ++ [c1] -> post = c2 :: post1 ++ [c3] ->
  ~ In 96%N pre -> ~ In 96%N post ->
  inert p None l = true ->
  line_start u = true -> contains (lit "```") u = false ->
  exists u' v',
    sub p pre post (u ++ l ++ v) = u' ++ l ++ v'
    /\ line_start u' = true /\ contains (lit "```") u' = false.
Proof.
  intros D O N1 N2 S1 S2 F1 F2 I L C.
  destruct (@sub_frame p pre post k o D O N1 N2 u l v L I) as [E L'].
  eexists _, _. split; [exact E|]. split; [exact L'|].
  exact (@sub_no_fence p pre post k o pre0 c1 c2 post1 c3 O S1 S2 F1 F2 u C).
Qed.

Variables a0 a1 body b : str.

Hypothesis a0_line : line_start a0 = true.
Hypothesis a0_fence : contains (lit "```") a0 = false.
Hypothesis a1_quiet : quiet None a1 = true.
Hypothesis body_quiet : quiet (Some 96%N) body = true.
Hypothesis body_blank : contains (lit nl ++ lit nl) body = false.

Lemma region_bol_free (k c c' : char) (tag tag' : str) :
  c <> k -> ~ In newline (c :: tag) ->
  c' <> k -> ~ In newline (c' :: tag') ->
  bol_free k None a1 = true -> bol_free k (Some 96%N) body = true ->
  bol_free k None (a1 ++ (c :: tag) ++ body ++ c' :: tag') = true.
Proof.
  intros Hc Hn Hc' Hn' B1 B2.
  rewrite bol_free_app, B1. cbn [andb].
  rewrite (@bol_free_tag k _ c tag (body ++ c' :: tag') Hc Hn).
  rewrite bol_free_app.
  rewrite (@bol_free_prev k (Some 0%N) (Some 96%N) body eq_refl), B2.
  cbn [andb].
  rewrite <- (app_nil_r (c' :: tag')).
  now rewrite (@bol_free_tag k _ c' tag' [] Hc' Hn').
Qed.

Lemma region_absent (k : char) (text1 text2 : str) :
  ~ In k a1 -> ~ In k text1 -> ~ In k body -> ~ In k text2 ->
  ~ In k (a1 ++ text1 ++ body ++ text2).
Proof. rewrite !in_app_iff. tauto. Qed.

(** C2, amended.  Take a text [a0 ++ a1 ++ fence ++ b] where the fence is
    the body between two triple backticks.  [a0] is empty or ends with a
    line break and holds no triple backtick; it may hold any other markup.
    [a1], the text between [a0] and the fence, and the body hold no [*] and
    no backtick, and none of their lines starts with [#] or [>]; the body
    holds no blank line.  The text [b] after the fence is any text.  Then
    the output contains the block code element whose content is the body,
    unchanged. *)
Theorem fenced_block_kept :
  contains (code_block body)
    (simple_markdown_to_html ((a0 ++ a1) ++ fenced body ++ b)) = true.
Proof.
  destruct (quiet_parts _ _ a1_quiet) as (S1 & T1 & H1 & Q1).
  destruct (quiet_parts _ _ body_quiet) as (S2 & T2 & H2 & Q2).
  set (region := a1 ++ fenced body).
  assert (RH : bol_free 35%N None region = true).
  { unfold region, fenced.
    apply (@region_bol_free 35%N 96%N 96%N [96; 96]%N [96; 96]%N);
      try discriminate; try absent_lit; assumption. }
  assert (RS : ~ In 42%N region).
  { unfold region, fenced. apply region_absent; try absent_lit; assumption. }
  replace ((a0 ++ a1) ++ fenced body ++ b) with (a0 ++ region ++ b)
    by (unfold region; now rewrite <- !app_assoc).
  unfold simple_markdown_to_html, headers, bold_italic, code_blocks,
    blockquotes.
  destruct (@rule_step h1_pat (lit "<h1>") (lit "</h1>") 35%N [32%N]
              (lit "<h1") 62%N 60%N (lit "/h1") 62%N region a0 b
              eq_refl eq_refl ltac:(absent_lit) ltac:(absent_lit)
              eq_refl eq_refl ltac:(absent_lit) ltac:(absent_lit)
              (@inert_bol_free h1_pat 35%N [32%N] None region
                 eq_refl eq_refl RH) a0_line a0_fence)
    as (u1 & v1 & E1 & L1 & F1).
  rewrite E1. clear E1.
  destruct (@rule_step h2_pat (lit "<h2>") (lit "</h2>") 35%N [35; 32]%N
              (lit "<h2") 62%N 60%N (lit "/h2") 62%N region u1 v1
              eq_refl eq_refl ltac:(absent_lit) ltac:(absent_lit)
              eq_refl eq_refl ltac:(absent_lit) ltac:(absent_lit)
              (@inert_bol_free h2_pat 35%N [35; 32]%N None region
                 eq_refl eq_refl RH) L1 F1)
    as (u2 & v2 & E2 & L2 & F2).
  rewrite E2. clear E2.
  destruct (@rule_step h3_pat (lit "<h3>") (lit "</h3>") 35%N [35; 35; 32]%N
              (lit "<h3") 62%N 60%N (lit "/h3") 62%N region u2 v2
              eq_refl eq_refl ltac:(absent_lit) ltac:(absent_lit)
              eq_refl eq_refl ltac:(absent_lit) ltac:(absent_lit)
              (@inert_bol_free h3_pat 35%N [35; 35; 32]%N None region
                 eq_refl eq_refl RH) L2 F2)
    as (u3 & v3 & E3 & L3 & F3).
  rewrite E3. clear E3.
  destruct (@rule_step h4_pat (lit "<h4>") (lit "</h4>") 35%N
              [35; 35; 35; 32]%N
              (lit "<h4") 62%N 60%N (lit "/h4") 62%N region u3 v3
              eq_refl eq_refl ltac:(absent_lit) ltac:(absent_lit)
              eq_refl eq_refl ltac:(absent_lit) ltac:(absent_lit)
              (@inert_bol_free h4_pat 35%N [35; 35; 35; 32]%N None region
                 eq_refl eq_refl RH) L3 F3)
    as (u4 & v4 & E4 & L4 & F4).
  rewrite E4. clear E4.
  destruct (@rule_step bold_pat (lit "<strong>") (lit "</strong>") 42%N
              [42%N]
              (lit "<strong") 62%N 60%N (lit "/strong") 62%N region u4 v4
              eq_refl eq_refl ltac:(absent_lit) ltac:(absent_lit)
              eq_refl eq_refl ltac:(absent_lit) ltac:(absent_lit)
              (@inert_absent bold_pat 42%N [42%N] None region eq_refl RS)
              L4 F4)
    as (u5 & v5 & E5 & L5 & F5).
  rewrite E5. clear E5.
  destruct (@rule_step italic_pat (lit "<em>") (lit "</em>") 42%N []
              (lit "<em") 62%N 60%N (lit "/em") 62%N region u5 v5
              eq_refl eq_refl ltac:(absent_lit) ltac:(absent_lit)
              eq_refl eq_refl ltac:(absent_lit) ltac:(absent_lit)
              (@inert_absent italic_pat 42%N [] None region eq_refl RS)
              L5 F5)
    as (u6 & v6 & E6 & L6 & F6).
  rewrite E6. clear E6.
  (* the fence rule *)
  set (marked := a1 ++ code_block body).
  assert (EF : exists v7,
             sub fence_pat (lit "<pre><code>") (lit "</code></pre>")
               (u6 ++ region ++ v6) = u6 ++ marked ++ v7).
  { unfold sub, region, fenced, marked, code_block.
    replace (u6 ++ (a1 ++ lit "```" ++ body ++ lit "```") ++ v6)
      with ((u6 ++ a1) ++ (lit "```" ++ body ++ lit "```") ++ v6)
      by now rewrite <- !app_assoc.
    rewrite (@fence_copy (lit "<pre><code>") (lit "</code></pre>")
               (u6 ++ a1) _ None (@no_fence_before u6 a1 L6 F6 T1)).
    pose proof (@match_at_delimited fence_pat 96%N [96; 96]%N
                  eq_refl eq_refl eq_refl
                  (prev_after None (u6 ++ a1)) body v6 T2) as M.
    change (opener fence_pat) with (lit "```") in M.
    change (96%N :: [96; 96]%N) with (lit "```") in M.
    eexists.
    rewrite (@sub_from_match fence_pat (lit "<pre><code>")
               (lit "</code></pre>") _ body (lit "```" ++ body ++ lit "```")
               v6 ltac:(discriminate)).
    - rewrite <- !app_assoc. reflexivity.
    - rewrite <- !app_assoc. exact M. }
  destruct EF as (v7 & E7). rewrite E7. clear E7.
  assert (MT : ~ In 96%N marked).
  { unfold marked, code_block. rewrite <- (app_nil_r (lit "</code></pre>")).
    apply region_absent; try absent_lit; assumption. }
  assert (MQ : bol_free 62%N None marked = true).
  { unfold marked, code_block.
    apply (@region_bol_free 62%N 60%N 60%N (lit "pre><code>")
             (lit "/code></pre>"));
      try discriminate; try absent_lit; assumption. }
  destruct (@sub_frame code_pat (lit "<code>") (lit "</code>") 96%N []
              eq_refl eq_refl ltac:(absent_lit) ltac:(absent_lit)
              u6 marked v7 L6
              (@inert_absent code_pat 96%N [] None marked eq_refl MT))
    as [E8 L8].
  rewrite E8. clear E8.
  match goal with
  | |- context [sub quote_pat ?o ?c (?u ++ marked ++ ?v)] =>
    destruct (@sub_frame quote_pat o c 62%N [32%N]
                eq_refl eq_refl ltac:(absent_lit) ltac:(absent_lit)
                u marked v L8
                (@inert_bol_free quote_pat 62%N [32%N] None marked
                   eq_refl eq_refl MQ))
      as [E9 L9]; rewrite E9; clear E9
  end.
  unfold marked. rewrite <- !app_assoc.
  match goal with
  | |- contains _ (paragraphs (?u ++ a1 ++ code_block body ++ ?v)) = true =>
    replace (u ++ a1 ++ code_block body ++ v)
      with ((u ++ a1) ++ code_block body ++ v) by now rewrite <- !app_assoc
  end.
  replace (code_block body)
    with (60%N :: (lit "pre><code>" ++ body ++ lit "</code></pre") ++ [62%N])
    by (unfold code_block; cbn; rewrite <- !app_assoc; reflexivity).
  apply paragraphs_keep_any; [reflexivity | reflexivity |].
  match goal with
  | |- contains _ ?t = false =>
    replace t
      with (lit "<pre><code" ++ 62%N :: (body ++ 60%N :: lit "/code></pre>"))
      by (cbn; rewrite <- !app_assoc; reflexivity)
  end.
  apply no_blank_mid; [discriminate | reflexivity |].
  apply no_blank_mid; [discriminate | exact body_blank | reflexivity].
Qed.

End FencedBlocks.

(** C2 as stated fails: the emphasis rule runs before the code rule and
    rewrites the text inside the fence. *)
Lemma fenced_block_rewritten :
  Markdown.simple_markdown_to_html (Markdown.fenced (lit "a*b*c"))
  = lit "<pre><code>a<em>b</em>c</code></pre>"
  /\ contains (Markdown.code_block (lit "a*b*c"))
       (Markdown.simple_markdown_to_html (Markdown.fenced (lit "a*b*c")))
     = false.
Proof. split; vm_compute; reflexivity. Qed.

(** A blank line inside the fence is where the paragraph loop cuts the
    block: the second half is wrapped as a paragraph of its own. *)
Example fenced_block_cut_at_blank_line :
  Markdown.simple_markdown_to_html
    (Markdown.fenced (lit nl ++ lit "a" ++ lit nl ++ lit nl ++ lit "b" ++ lit nl))
  = lit "<pre><code>" ++ lit nl ++ lit "a" ++ lit nl
    ++ lit "<p>b" ++ lit nl ++ lit "</code></pre></p>".
Proof. vm_compute. reflexivity. Qed.

Section HeadingAnywhere.

Import Re Markdown.

Lemma leading_hashes_shape (l : str) :
  l = repeat 35%N (fst (leading_hashes l)) ++ snd (leading_hashes l).
Proof.
  induction l as [|c l IH]; [reflexivity|]. cbn [leading_hashes].
  destruct (N.eqb_spec c 35) as [->|_]; [|reflexivity].
  destruct (leading_hashes l) as [n rest]. cbn [fst snd repeat app] in *.
  now f_equal.
Qed.

Lemma heading_level_shape (l : str) (n : nat) (rest : str) :
  heading_level l = Some (n, rest) ->
  (1 <= n <= 4)%nat /\ l = repeat 35%N n ++ 32%N :: rest.
Proof.
  unfold heading_level. pose proof (leading_hashes_shape l) as E.
  destruct (leading_hashes l) as [k s]. cbn [fst snd] in E.
  destruct s as [|c s]; [discriminate|].
  destruct (N.eqb_spec c 32) as [->|_]; [|discriminate]. cbn [andb].
  destruct (Nat.leb_spec 1 k); [|discriminate].
  destruct (Nat.leb_spec k 4); [|discriminate].
  intros [= <- <-]. split; [lia | exact E].
Qed.

(** A heading line of the text is a heading element of the output,
    whatever stands on the other lines, when the rules for [*] and for
    backticks find nothing in it. *)
Lemma heading_anywhere (before after : list str) (l : str) (n : nat)
    (rest : str) :
  Forall (fun x => ~ In newline x) (before ++ l :: after) ->
  heading_level l = Some (n, rest) -> ~ In 42%N rest -> ~ In 96%N rest ->
  contains (heading_tag false n ++ rest ++ heading_tag true n)
    (simple_markdown_to_html (join (lit nl) (before ++ l :: after))) = true.
Proof.
  intros H L Hs Ht. destruct (heading_level_shape _ L) as [Hn El].
  assert (Hr : ~ In newline rest).
  { rewrite Forall_forall in H. intros F.
    apply (H l); [rewrite in_app_iff; right; now left|].
    rewrite El, in_app_iff. right. now right. }
  unfold simple_markdown_to_html. change (lit nl) with [newline].
  rewrite headers_lines by exact H.
  rewrite (map_ext _ _ header_rules_heading_line).
  rewrite map_app. cbn [List.map].
  assert (E : heading_line l = heading_tag false n ++ rest ++ heading_tag true n)
    by (unfold heading_line; now rewrite L).
  rewrite E.
  destruct (join_line (List.map heading_line before)
              (List.map heading_line after)
              (heading_tag false n ++ rest ++ heading_tag true n))
    as (a & b & -> & A).
  set (d := (48 + N.of_nat n)%N).
  assert (Hd : d <> newline /\ d <> 42%N /\ d <> 96%N)
    by (unfold d, newline; repeat split; lia).
  destruct Hd as (D1 & D2 & D3).
  assert (S : heading_tag false n ++ rest ++ heading_tag true n
              = 60%N :: (104%N :: d :: 62%N :: rest ++ lit "</h" ++ [d])
                ++ [62%N]).
  { unfold heading_tag. fold d. cbn [app]. rewrite <- !app_assoc.
    reflexivity. }
  rewrite S.
  assert (M : forall k : char,
             k <> 104%N -> k <> d -> k <> 62%N -> k <> 60%N -> k <> 47%N ->
             ~ In k rest ->
             ~ In k (104%N :: d :: 62%N :: rest ++ lit "</h" ++ [d])).
  { intros k K1 K2 K3 K4 K5 K6 F.
    destruct F as [F|[F|[F|F]]]; try congruence.
    apply in_app_or in F. destruct F as [F|F]; [tauto|].
    change (lit "</h") with [60; 47; 104]%N in F.
    destruct F as [F|[F|[F|[F|[]]]]]; congruence. }
  assert (B : forall k : char,
             k <> 104%N -> k <> d -> k <> 62%N -> k <> 60%N -> k <> 47%N ->
             ~ In k rest ->
             ~ In k (60%N :: (104%N :: d :: 62%N :: rest ++ lit "</h" ++ [d])
                     ++ [62%N])).
  { intros k K1 K2 K3 K4 K5 K6 [F|F]; [congruence|].
    apply in_app_or in F. destruct F as [F|[F|[]]]; [|congruence].
    now apply (M k). }
  apply later_rules_keep_line;
    [exact A | reflexivity | reflexivity | discriminate | | |];
    apply B; auto; discriminate.
Qed.

(** A line of five [#] or more is kept as it is in the output, whatever
    stands on the other lines, when it holds no [*] and no backtick and
    does not end with white space. *)
Lemma five_hashes_anywhere (before after : list str) (r : str) (c : char) :
  Forall (fun x => ~ In newline x)
    (before ++ (lit "#####" ++ r ++ [c]) :: after) ->
  ~ In 42%N (r ++ [c]) -> ~ In 96%N (r ++ [c]) -> is_space c = false ->
  contains (lit "#####" ++ r ++ [c])
    (simple_markdown_to_html
       (join (lit nl) (before ++ (lit "#####" ++ r ++ [c]) :: after)))
  = true.
Proof.
  intros H Hs Ht Hc.
  assert (Hn : ~ In newline (lit "#####" ++ r ++ [c])).
  { rewrite Forall_forall in H. apply H. rewrite in_app_iff. right. now left. }
  unfold simple_markdown_to_html. change (lit nl) with [newline].
  rewrite headers_lines by exact H.
  rewrite (map_ext _ _ header_rules_heading_line).
  rewrite map_app. cbn [List.map]. rewrite heading_line_five.
  destruct (join_line (List.map heading_line before)
              (List.map heading_line after) (lit "#####" ++ r ++ [c]))
    as (a & b & -> & A).
  replace (lit "#####" ++ r ++ [c])
    with (35%N :: (lit "####" ++ r) ++ [c])
    by (cbn [app]; now rewrite <- ?app_assoc).
  replace (lit "#####" ++ r ++ [c])
    with (35%N :: (lit "####" ++ r) ++ [c]) in Hn
    by (cbn [app]; now rewrite <- ?app_assoc).
  apply later_rules_keep_line;
    [exact A | reflexivity | exact Hc | discriminate | exact Hn | |].
  - intros [F|F]; [discriminate F|]. rewrite <- app_assoc in F.
    apply in_app_or in F. destruct F as [F|F]; [|tauto].
    revert F. absent_lit.
  - intros [F|F]; [discriminate F|]. rewrite <- app_assoc in F.
    apply in_app_or in F. destruct F as [F|F]; [|tauto].
    revert F. absent_lit.
Qed.

End HeadingAnywhere.

Section HeadingClaim.

Import Re Markdown.

Lemma heading_through (hashes o c r : str) :
  heading_line (hashes ++ r) = 60%N :: (o ++ r ++ c) ++ [62%N] ->
  is_block (60%N :: (o ++ r ++ c) ++ [62%N]) = true ->
  ~ In newline hashes ->
  (forall k : char, k = newline \/ k = 42%N \/ k = 96%N ->
     ~ In k o /\ ~ In k c) ->
  ~ In newline r -> ~ In 42%N r -> ~ In 96%N r ->
  simple_markdown_to_html (hashes ++ r) = 60%N :: (o ++ r ++ c) ++ [62%N].
Proof.
  intros E B Hh L Hn Hs Hb. unfold simple_markdown_to_html.
  rewrite headers_one_line by (now apply not_in_cons_app).
  rewrite E. apply block_line_through; auto;
    rewrite !in_app_iff;
    [destruct (L newline) | destruct (L 42%N) | destruct (L 96%N)];
    auto; tauto.
Qed.

Ltac literal_free :=
  let k := fresh "k" in
  intros k [ -> | [ -> | -> ] ]; split; absent_lit.

Ltac heading_shape :=
  cbn; rewrite <- ?app_assoc; reflexivity.

(** C6, amended.  On a text given by its lines, a line that begins with
    one to four [#] and a space, and whose rest holds no [*] and no
    backtick, is in the output of the transformer the heading element of
    that level around the rest of the line, whatever stands on the other
    lines.  The four header substitutions turn each such line into that
    heading and leave every other line as it is; a line that begins with
    five [#] is among those left as they are, so it is no heading.  The
    transformer does not leave that line unmodified: on its own it is
    wrapped as a paragraph.  What is kept is its text: when the line holds
    no [*] and no backtick and does not end with white space, the output
    contains it as it is, whatever stands on the other lines. *)
Theorem headers_make_headings (lines : list str) :
  Forall (fun l => ~ In newline l) lines ->
  headers (join (lit nl) lines) = join (lit nl) (List.map heading_line lines)
  /\ (forall r, heading_line (lit "# " ++ r) = lit "<h1>" ++ r ++ lit "</h1>")
  /\ (forall r, heading_line (lit "## " ++ r) = lit "<h2>" ++ r ++ lit "</h2>")
  /\ (forall r, heading_line (lit "### " ++ r) = lit "<h3>" ++ r ++ lit "</h3>")
  /\ (forall r,
        heading_line (lit "#### " ++ r) = lit "<h4>" ++ r ++ lit "</h4>")
  /\ (forall r, heading_line (lit "#####" ++ r) = lit "#####" ++ r)
  /\ (forall r, ~ In newline r -> ~ In 42%N r -> ~ In 96%N r ->
        simple_markdown_to_html (lit "# " ++ r)
        = lit "<h1>" ++ r ++ lit "</h1>"
        /\ simple_markdown_to_html (lit "## " ++ r)
           = lit "<h2>" ++ r ++ lit "</h2>"
        /\ simple_markdown_to_html (lit "### " ++ r)
           = lit "<h3>" ++ r ++ lit "</h3>"
        /\ simple_markdown_to_html (lit "#### " ++ r)
           = lit "<h4>" ++ r ++ lit "</h4>"
        /\ simple_markdown_to_html (lit "#####" ++ r)
           = lit "<p>" ++ strip (lit "#####" ++ r) ++ lit "</p>")
  /\ (forall before after l n rest,
        lines = before ++ l :: after ->
        heading_level l = Some (n, rest) ->
        ~ In 42%N rest -> ~ In 96%N rest ->
        contains (heading_tag false n ++ rest ++ heading_tag true n)
          (simple_markdown_to_html (join (lit nl) lines)) = true)
  /\ (forall before after r c,
        lines = before ++ (lit "#####" ++ r ++ [c]) :: after ->
        ~ In 42%N (r ++ [c]) -> ~ In 96%N (r ++ [c]) -> is_space c = false ->
        contains (lit "#####" ++ r ++ [c])
          (simple_markdown_to_html (join (lit nl) lines)) = true).
Proof.
  intros H.
  assert (G1 : forall before after l n rest,
             lines = before ++ l :: after ->
             heading_level l = Some (n, rest) ->
             ~ In 42%N rest -> ~ In 96%N rest ->
             contains (heading_tag false n ++ rest ++ heading_tag true n)
               (simple_markdown_to_html (join (lit nl) lines)) = true).
  { intros before after l n rest E L Hs Ht. subst lines.
    now apply heading_anywhere. }
  assert (G2 : forall before after r c,
             lines = before ++ (lit "#####" ++ r ++ [c]) :: after ->
             ~ In 42%N (r ++ [c]) -> ~ In 96%N (r ++ [c]) ->
             is_space c = false ->
             contains (lit "#####" ++ r ++ [c])
               (simple_markdown_to_html (join (lit nl) lines)) = true).
  { intros before after r c E Hs Ht Hc. subst lines.
    now apply five_hashes_anywhere. }
  split.
  { change (lit nl) with [newline]. rewrite headers_lines by exact H.
    f_equal. apply map_ext. apply header_rules_heading_line. }
  do 4 (split; [intros r; reflexivity|]).
  split; [apply heading_line_five|].
  split; [|split; [exact G1 | exact G2]].
  intros r Hn Hs Hb. split; [|split; [|split; [|split]]].
  - replace (lit "<h1>" ++ r ++ lit "</h1>")
      with (60%N :: (lit "h1>" ++ r ++ lit "</h1") ++ [62%N])
      by heading_shape.
    apply heading_through; auto;
      first [heading_shape | literal_free | absent_lit].
  - replace (lit "<h2>" ++ r ++ lit "</h2>")
      with (60%N :: (lit "h2>" ++ r ++ lit "</h2") ++ [62%N])
      by heading_shape.
    apply heading_through; auto;
      first [heading_shape | literal_free | absent_lit].
  - replace (lit "<h3>" ++ r ++ lit "</h3>")
      with (60%N :: (lit "h3>" ++ r ++ lit "</h3") ++ [62%N])
      by heading_shape.
    apply heading_through; auto;
      first [heading_shape | literal_free | absent_lit].
  - replace (lit "<h4>" ++ r ++ lit "</h4>")
      with (60%N :: (lit "h4>" ++ r ++ lit "</h4") ++ [62%N])
      by heading_shape.
    apply heading_through; auto;
      first [heading_shape | literal_free | absent_lit].
  - unfold simple_markdown_to_html.
    rewrite headers_one_line
      by (apply not_in_cons_app; [absent_lit | exact Hn]).
    rewrite heading_line_five.
    change (lit "#####" ++ r) with (35%N :: (lit "####" ++ r)).
    apply hash_line_through; apply not_in_cons_app; auto; absent_lit.
Qed.

End HeadingClaim.

(** C6 as stated fails: a line of five [#] is not left unmodified, the
    paragraph loop wraps it. *)
Lemma five_hashes_wrapped :
  Markdown.simple_markdown_to_html (lit "##### five")
  = lit "<p>##### five</p>"
  /\ Markdown.simple_markdown_to_html (lit "##### five") <> lit "##### five".
Proof. split; [vm_compute; reflexivity | vm_compute; discriminate]. Qed.

(** The rest of a heading line goes through the later rules like any
    text: with a [*] pair in it, the heading holds the emphasis element and
    not the rest as it was written. *)
Example heading_markup_rewritten :
  Markdown.simple_markdown_to_html (lit "# a *b*")
  = lit "<h1>a <em>b</em></h1>"
  /\ contains (lit "<h1>a *b*</h1>")
       (Markdown.simple_markdown_to_html (lit "# a *b*")) = false.
Proof. split; vm_compute; reflexivity. Qed.

(** ** The theorems at sample inputs *)

Section Samples.

Import Markdown Collector HtmlOnly.

(** C2 at a block between a heading with markup and a block quote, with
    blank lines around the fence. *)
Lemma fenced_block_kept_sample :
  Re.line_start (lit "# Intro *x* `c`" ++ lit nl ++ lit nl) = true
  /\ contains (lit "```") (lit "# Intro *x* `c`" ++ lit nl ++ lit nl) = false
  /\ quiet None (lit "see: ") = true
  /\ quiet (Some 96%N)
       (lit nl ++ lit "x = 1" ++ lit nl ++ lit "y = 2" ++ lit nl) = true
  /\ contains (lit nl ++ lit nl)
       (lit nl ++ lit "x = 1" ++ lit nl ++ lit "y = 2" ++ lit nl) = false
  /\ contains
       (code_block (lit nl ++ lit "x = 1" ++ lit nl ++ lit "y = 2" ++ lit nl))
       (simple_markdown_to_html
          (((lit "# Intro *x* `c`" ++ lit nl ++ lit nl) ++ lit "see: ")
           ++ fenced (lit nl ++ lit "x = 1" ++ lit nl ++ lit "y = 2" ++ lit nl)
           ++ (lit nl ++ lit nl ++ lit "> Outro *y* ```"))) = true.
Proof.
  split; [vm_compute; reflexivity|].
  split; [vm_compute; reflexivity|].
  split; [vm_compute; reflexivity|].
  split; [vm_compute; reflexivity|].
  split; [vm_compute; reflexivity|].
  apply (@fenced_block_kept (lit "# Intro *x* `c`" ++ lit nl ++ lit nl)
           (lit "see: ")
           (lit nl ++ lit "x = 1" ++ lit nl ++ lit "y = 2" ++ lit nl)
           (lit nl ++ lit nl ++ lit "> Outro *y* ```"));
    vm_compute; reflexivity.
Defined.

(** C4 at files of three partitions found out of order: the sorted list,
    and the place of two of its paths. *)
Lemma collector_sorts_sample :
  Forall collected
    [lit "src/part2/a.md"; lit "src/part0/b.md"; lit "src/part1/c.md";
     lit "src/part0/a.md"]
  /\ sort_files
       [lit "src/part2/a.md"; lit "src/part0/b.md"; lit "src/part1/c.md";
        lit "src/part0/a.md"]
     = Some [lit "src/part0/a.md"; lit "src/part0/b.md";
             lit "src/part1/c.md"; lit "src/part2/a.md"]
  /\ sort_files
       [lit "src/part0/a.md"; lit "src/part1/c.md"; lit "src/part0/b.md";
        lit "src/part2/a.md"]
     = Some [lit "src/part0/a.md"; lit "src/part0/b.md";
             lit "src/part1/c.md"; lit "src/part2/a.md"]
  /\ ((0 < 1)%nat
      \/ (0 = 1 /\ str_leb (lit "src/part0/b.md") (lit "src/part1/c.md")
                    = true)%nat).
Proof.
  assert (H : Forall collected
                [lit "src/part2/a.md"; lit "src/part0/b.md";
                 lit "src/part1/c.md"; lit "src/part0/a.md"]).
  { repeat constructor.
    - exists 2%nat. split; [lia|]. left. exists (lit "a.md"). reflexivity.
    - exists 0%nat. split; [lia|]. left. exists (lit "b.md"). reflexivity.
    - exists 1%nat. split; [lia|]. left. exists (lit "c.md"). reflexivity.
    - exists 0%nat. split; [lia|]. left. exists (lit "a.md"). reflexivity. }
  split; [exact H|].
  destruct (collector_sorts_by_partition_then_path H)
    as (sorted & E & _ & _ & _ & O & U).
  assert (V : sort_files
                [lit "src/part2/a.md"; lit "src/part0/b.md";
                 lit "src/part1/c.md"; lit "src/part0/a.md"]
              = Some [lit "src/part0/a.md"; lit "src/part0/b.md";
                      lit "src/part1/c.md"; lit "src/part2/a.md"])
    by (vm_compute; reflexivity).
  rewrite V in E. injection E as <-.
  split; [exact V|]. split.
  - apply U.
    apply (perm_trans (l' := [lit "src/part0/b.md"; lit "src/part2/a.md";
                              lit "src/part1/c.md"; lit "src/part0/a.md"]));
      [apply perm_swap|].
    apply (perm_trans (l' := [lit "src/part0/b.md"; lit "src/part1/c.md";
                              lit "src/part2/a.md"; lit "src/part0/a.md"]));
      [apply perm_skip, perm_swap|].
    apply (perm_trans (l' := [lit "src/part0/b.md"; lit "src/part1/c.md";
                              lit "src/part0/a.md"; lit "src/part2/a.md"]));
      [apply perm_skip, perm_skip, perm_swap|].
    apply (perm_trans (l' := [lit "src/part0/b.md"; lit "src/part0/a.md";
                              lit "src/part1/c.md"; lit "src/part2/a.md"]));
      [apply perm_skip, perm_swap|].
    apply (perm_trans (l' := [lit "src/part0/a.md"; lit "src/part0/b.md";
                              lit "src/part1/c.md"; lit "src/part2/a.md"]));
      [apply perm_swap|].
    apply (perm_trans (l' := [lit "src/part0/a.md"; lit "src/part1/c.md";
                              lit "src/part0/b.md"; lit "src/part2/a.md"]));
      [apply perm_skip, perm_swap | apply Permutation_refl].
  - apply (O [lit "src/part0/a.md"] (lit "src/part0/b.md") []
             (lit "src/part1/c.md") [lit "src/part2/a.md"] 0%nat 1%nat);
      [reflexivity | lia | lia | |];
      left; [exists (lit "b.md") | exists (lit "c.md")]; reflexivity.
Defined.

(** C6 at a text of four lines: a line of text, a heading of level two,
    a line of text and a line of five [#]. *)
Lemma headers_make_headings_sample :
  Forall (fun l => ~ In newline l)
    [lit "intro"; lit "## Two words"; lit "text"; lit "##### five"]
  /\ headers
       (join (lit nl)
          [lit "intro"; lit "## Two words"; lit "text"; lit "##### five"])
     = join (lit nl)
         [lit "intro"; lit "<h2>Two words</h2>"; lit "text"; lit "##### five"]
  /\ contains (lit "<h2>Two words</h2>")
       (simple_markdown_to_html
          (join (lit nl)
             [lit "intro"; lit "## Two words"; lit "text"; lit "##### five"]))
     = true
  /\ contains (lit "##### five")
       (simple_markdown_to_html
          (join (lit nl)
             [lit "intro"; lit "## Two words"; lit "text"; lit "##### five"]))
     = true.
Proof.
  assert (H : Forall (fun l => ~ In newline l)
                [lit "intro"; lit "## Two words"; lit "text";
                 lit "##### five"]).
  { repeat constructor; absent_lit. }
  destruct (headers_make_headings H) as (E & _ & _ & _ & _ & _ & _ & G1 & G2).
  split; [exact H|]. split; [exact E|]. split.
  - apply (G1 [lit "intro"] [lit "text"; lit "##### five"]
             (lit "## Two words") 2%nat (lit "Two words"));
      [reflexivity | reflexivity | absent_lit | absent_lit].
  - apply (G2 [lit "intro"; lit "## Two words"; lit "text"] []
             (lit " fiv") 101%N);
      [reflexivity | absent_lit | absent_lit | reflexivity].
Defined.

(** C9 at a chapter of the fourth partition. *)
Lemma sort_key_sample :
  (3 < 10)%nat
  /\ ~ In slash (lit "chapter_1")
  /\ part_index
       (lit "src/part" ++ digit_char 3 :: slash :: lit "chapter_1" ++ lit ".md")
     = Some 3%Z.
Proof.
  assert (H1 : (3 < 10)%nat) by lia.
  assert (H2 : ~ In slash (lit "chapter_1")) by absent_lit.
  split; [exact H1|]. split; [exact H2|].
  exact (proj1 (@sort_key_of_collected_path 3 (lit "chapter_1") H1 H2)).
Defined.

End Samples.


(** * Further properties *)

(** ** The sort of the collector *)

Section SortMore.

Import Collector.

(** Sorting a sorted list of files changes nothing. *)
Theorem sort_files_idempotent (l sorted : list str) :
  sort_files l = Some sorted -> sort_files sorted = Some sorted.
Proof.
  intros E. destruct (sort_files_spec _ E) as [P _].
  apply (@sort_files_perm l sorted sorted); [now symmetry | exact E].
Qed.

Lemma part_index_without_part (x : str) :
  contains (lit "/part") x = false -> part_index x = None.
Proof.
  intros H. unfold part_index. now rewrite split_none.
Qed.

Lemma keyed_fails (l : list str) (x : str) :
  In x l -> part_index x = None -> keyed l = None.
Proof.
  induction l as [|y l IH]; [intros []|]. intros [->|Hin] Hx; cbn [keyed].
  - unfold sort_key. now rewrite Hx.
  - rewrite (IH Hin Hx). now destruct (sort_key y).
Qed.

(** One path without a [/part] in it makes the key expression fail on the
    index [1], and with it the whole sort: no file is ordered. *)
Theorem sort_files_fails_without_part (l : list str) (x : str) :
  In x l -> contains (lit "/part") x = false ->
  part_index x = None /\ sort_files l = None.
Proof.
  intros Hin H. pose proof (part_index_without_part _ H) as E.
  split; [exact E|]. unfold sort_files. now rewrite (keyed_fails _ _ Hin E).
Qed.

(** A partition segment that is no integer fails the sort as well: here a
    segment of one ASCII character that is no digit. *)
Theorem sort_files_fails_on_name (l : list str) (c : char) (rest : str) :
  In (lit "src/part" ++ c :: slash :: rest) l ->
  Format.is_ascii c = true ->
  c <> slash -> is_space c = false -> Format.is_digit c = false ->
  sort_files l = None.
Proof.
  intros Hin Ha Hc Hs Hd. unfold sort_files.
  rewrite (@keyed_fails l (lit "src/part" ++ c :: slash :: rest) Hin);
    [reflexivity|].
  destruct (@split_part_head c rest Hc) as (seg & tl & E & Hseg).
  destruct (@split_slash_head c seg Hc Hseg) as [tl' E'].
  unfold part_index. rewrite split_src. unfold split at 1. rewrite E.
  cbn [nth_error]. rewrite E'.
  assert (S : int_space c = false) by (unfold int_space; now rewrite Hs).
  unfold int. cbn [skip_spaces]. rewrite S. cbn [rev app skip_spaces].
  rewrite S. cbn [rev app]. unfold int_digits. cbn [digits].
  rewrite (digit_val_ascii c Ha Hd).
  destruct (c =? 45)%N eqn:E1.
  - reflexivity.
  - destruct (c =? 43)%N eqn:E2; [reflexivity|].
    destruct (c =? 95)%N; reflexivity.
Qed.

End SortMore.


(** ** What the HTML pipeline never does *)

Section NeverWrites.

Import Collector HtmlOnly.

(** The converter returns no path for any file and any file system, leaves
    every file as it was and prints the error line: the markdown is read
    and transformed, and the failure comes when the template is filled. *)
Theorem converter_never_writes (md_file : str) (w : world) :
  fst (convert_md_file_to_html md_file w) = None
  /\ files (snd (convert_md_file_to_html md_file w)) = files w
  /\ printed (snd (convert_md_file_to_html md_file w))
     = printed w ++ [ConvertError md_file].
Proof. rewrite convert_returns_none. now repeat split. Qed.

(** The combiner, whenever it is called, raises out of [template.format]
    after it has read the files: the combined file is not written and its
    line is not printed. *)
Theorem combiner_always_raises (w : world) :
  exists all_files,
    sort_files
      (collect (lit "html_output") (lit ".html") (listing (files w)))
    = Some all_files
    /\ create_combined_html w
       = (Raised (FormatFailure
                    (Format.ValueError "unexpected '{' in field name")),
          mkWorld (files w)
            (printed w ++ read_errors (files w) all_files)).
Proof.
  destruct (collect_collected (lit ".html") (listing (files w))) as [_ C].
  destruct (sort_files_defined C) as [all_files S].
  exists all_files. split; [exact S|].
  unfold create_combined_html. rewrite S.
  now rewrite html_only_format_raises.
Qed.



End NeverWrites.


(** ** Spans between two delimiters *)

Section Spans.

Import Re.

Variable p : pattern.
Variables pre post : str.
Variables (k : char) (o : str) (k' : char) (c' : str).

Hypothesis p_free : anchored p = false.
Hypothesis p_opener : opener p = k :: o.
Hypothesis p_closer : closer p = Some (k' :: c').

(** The group reaches the closer over a text that holds neither the first
    code point of the closer nor, without [re.DOTALL], a newline. *)
Lemma lazy_group_span (g rest : str) :
  ~ In k' g -> (dotall p = true \/ ~ In newline g) ->
  lazy_group p (g ++ (k' :: c') ++ rest) = Some (g, rest).
Proof.
  intros Hg Hn. remember ((k' :: c') ++ rest) as tail eqn:Et.
  induction g as [|d g IH].
  - subst tail. change ([] ++ (k' :: c') ++ rest) with (k' :: (c' ++ rest)).
    cbn [lazy_group]. unfold closes. rewrite p_closer.
    change (k' :: c' ++ rest) with ((k' :: c') ++ rest).
    now rewrite strip_prefix_app.
  - cbn [app lazy_group]. unfold closes. rewrite p_closer.
    cbn [strip_prefix].
    destruct (N.eqb_spec k' d) as [->|_]; [exfalso; apply Hg; now left|].
    assert (D : dotall p || negb (d =? newline)%N = true).
    { destruct Hn as [->|Hn]; [reflexivity|].
      destruct (N.eqb_spec d newline) as [->|_];
        [exfalso; apply Hn; now left | apply orb_true_r]. }
    rewrite D, IH; [reflexivity | |].
    + intros F. apply Hg. now right.
    + destruct Hn as [Hn|Hn]; [now left|]. right. intros F. apply Hn. now right.
Qed.

(** Without the first code point of the closer ahead, nothing closes the
    group. *)
Lemma lazy_group_open (s : str) : ~ In k' s -> lazy_group p s = None.
Proof.
  induction s as [|d s IH]; intros H; cbn [lazy_group]; unfold closes;
    rewrite p_closer; cbn [strip_prefix]; [reflexivity|].
  destruct (N.eqb_spec k' d) as [->|_]; [exfalso; apply H; now left|].
  rewrite IH by (intros F; apply H; now right).
  now destruct (dotall p || negb (d =? newline)%N).
Qed.

Lemma match_at_span (prev : option char) (g rest : str) :
  ~ In k' g -> (dotall p = true \/ ~ In newline g) ->
  match_at p prev (opener p ++ g ++ (k' :: c') ++ rest)
  = Some (g, List.length (opener p ++ g ++ k' :: c')).
Proof.
  intros Hg Hn. unfold match_at. rewrite p_free. cbn [andb].
  rewrite strip_prefix_app, lazy_group_span by assumption.
  unfold closer_length. rewrite p_closer, !length_app.
  now rewrite Nat.add_assoc.
Qed.

(** One span in a text that has no other opener. *)
Lemma sub_span (a g b : str) :
  ~ In k a -> ~ In k' g -> (dotall p = true \/ ~ In newline g) -> ~ In k b ->
  sub p pre post (a ++ opener p ++ g ++ (k' :: c') ++ b)
  = a ++ pre ++ g ++ post ++ b.
Proof.
  intros Ha Hg Hn Hb. unfold sub.
  rewrite (@sub_from_copy p pre post k o a _ None p_opener Ha). f_equal.
  replace (opener p ++ g ++ (k' :: c') ++ b)
    with ((opener p ++ g ++ k' :: c') ++ b)
    by (now rewrite <- !app_assoc).
  rewrite (@sub_from_match p pre post _ g).
  - rewrite (@sub_from_absent p pre post k o b _ p_opener Hb). reflexivity.
  - rewrite p_opener. discriminate.
  - rewrite <- !app_assoc. now apply match_at_span.
Qed.

(** A text in which the opener occurs nowhere is copied. *)
Lemma sub_from_not_contains (s : str) (prev : option char) :
  contains (opener p) s = false -> sub_from p pre post 0 prev s = s.
Proof.
  revert prev; induction s as [|c s IH]; intros prev H; [reflexivity|].
  cbn [contains sub_from] in *. apply orb_false_elim in H.
  destruct H as [H1 H2]. unfold match_at. unfold startswith in H1.
  destruct (strip_prefix (opener p) (c :: s)); [discriminate|].
  destruct (anchored p && negb (at_bol prev)); now rewrite IH.
Qed.

End Spans.


(** ** Emphasis and inline code *)

Section NoDouble.

Variable k : char.

Lemma no_double_mid (x y : str) (c : char) :
  c <> k ->
  contains [k; k] x = false -> contains [k; k] y = false ->
  contains [k; k] (x ++ c :: y) = false.
Proof.
  intros Hc Hx Hy. induction x as [|d x IH].
  - cbn [app contains]. rewrite Hy, orb_false_r.
    unfold startswith. cbn [strip_prefix].
    destruct (N.eqb_spec k c) as [E|_]; [congruence | reflexivity].
  - cbn [app contains] in *. apply orb_false_elim in Hx.
    destruct Hx as [H1 H2]. rewrite (IH H2), orb_false_r.
    unfold startswith in *. cbn [strip_prefix] in *.
    destruct (k =? d)%N; [|reflexivity].
    destruct x as [|e x]; cbn [app].
    + destruct (N.eqb_spec k c) as [E|_]; [congruence | reflexivity].
    + destruct (k =? e)%N; [discriminate H1 | reflexivity].
Qed.

Lemma absent_no_double (s : str) : ~ In k s -> contains [k; k] s = false.
Proof.
  induction s as [|c s IH]; intros H; [reflexivity|].
  cbn [contains]. rewrite IH by (intros F; apply H; now right).
  unfold startswith. cbn [strip_prefix].
  destruct (N.eqb_spec k c) as [E|_]; [|reflexivity].
  exfalso. apply H. now left.
Qed.

Lemma no_double_snoc (s : str) : ~ In k s -> contains [k; k] (s ++ [k]) = false.
Proof.
  induction s as [|c s IH]; intros H.
  - cbn [app contains]. unfold startswith. cbn [strip_prefix].
    rewrite N.eqb_refl. reflexivity.
  - cbn [app contains]. rewrite IH by (intros F; apply H; now right).
    unfold startswith. cbn [strip_prefix].
    destruct (N.eqb_spec k c) as [E|_]; [|reflexivity].
    exfalso. apply H. now left.
Qed.

(** A single [k] on each side of a text that is not empty and has none. *)
Lemma no_double_around (a x b : str) :
  ~ In k a -> ~ In k x -> ~ In k b -> x <> [] ->
  contains [k; k] (a ++ [k] ++ x ++ [k] ++ b) = false.
Proof.
  intros Ha Hx Hb Ne. destruct x as [|x1 x]; [congruence|].
  replace (a ++ [k] ++ (x1 :: x) ++ [k] ++ b)
    with ((a ++ [k]) ++ x1 :: (x ++ [k] ++ b))
    by (rewrite <- !app_assoc; reflexivity).
  apply no_double_mid.
  - intros E. apply Hx. now left.
  - now apply no_double_snoc.
  - assert (Hx' : ~ In k x) by (intros F; apply Hx; now right).
    destruct b as [|b1 b].
    + rewrite app_nil_r. now apply no_double_snoc.
    + replace (x ++ [k] ++ b1 :: b) with ((x ++ [k]) ++ b1 :: b)
        by (now rewrite <- app_assoc).
      apply no_double_mid.
      * intros E. apply Hb. now left.
      * now apply no_double_snoc.
      * apply absent_no_double. intros F. apply Hb. now right.
Qed.

Lemma no_triple (s : str) :
  contains [k; k] s = false -> contains [k; k; k] s = false.
Proof.
  induction s as [|c s IH]; intros H; [reflexivity|].
  cbn [contains] in *. apply orb_false_elim in H. destruct H as [H1 H2].
  rewrite (IH H2), orb_false_r. unfold startswith in *.
  cbn [strip_prefix] in *. destruct (k =? c)%N; [|reflexivity].
  destruct s as [|d s]; [reflexivity|].
  destruct (k =? d)%N; [discriminate H1 | reflexivity].
Qed.

End NoDouble.

Section Emphasis.

Import Re Markdown.

Variables a x b : str.

(** A bold span on one line, in a text with no other [*]: the span becomes
    a [strong] element and the emphasis rule finds nothing more. *)
Theorem bold_span :
  ~ In 42%N a -> ~ In 42%N x -> ~ In 42%N b -> ~ In newline x ->
  bold_italic (a ++ lit "**" ++ x ++ lit "**" ++ b)
  = a ++ lit "<strong>" ++ x ++ lit "</strong>" ++ b.
Proof.
  intros Ha Hx Hb Hn. unfold bold_italic.
  pose proof (@sub_span bold_pat (lit "<strong>") (lit "</strong>")
                42%N [42%N] 42%N [42%N] eq_refl eq_refl eq_refl
                a x b Ha Hx (or_intror Hn) Hb) as F.
  change (opener bold_pat) with (lit "**") in F.
  change (42%N :: [42%N]) with (lit "**") in F. rewrite F.
  unfold sub. apply (@sub_from_absent italic_pat _ _ 42%N [] _ None eq_refl).
  apply absent_parts; auto; absent_lit.
Qed.

(** An emphasis span on one line, not empty, in a text with no other [*]:
    the bold rule leaves it and the emphasis rule makes it an [em]
    element. *)
Theorem italic_span :
  ~ In 42%N a -> ~ In 42%N x -> ~ In 42%N b -> ~ In newline x -> x <> [] ->
  bold_italic (a ++ lit "*" ++ x ++ lit "*" ++ b)
  = a ++ lit "<em>" ++ x ++ lit "</em>" ++ b.
Proof.
  intros Ha Hx Hb Hn Ne. unfold bold_italic. unfold sub at 2.
  rewrite (@sub_from_not_contains bold_pat)
    by (apply (@no_double_around 42%N); assumption).
  apply (@sub_span italic_pat (lit "<em>") (lit "</em>")
           42%N [] 42%N [] eq_refl eq_refl eq_refl
           a x b Ha Hx (or_intror Hn) Hb).
Qed.

(** An inline code span on one line, not empty, in a text with no other
    backtick. *)
Theorem inline_code_span :
  ~ In 96%N a -> ~ In 96%N x -> ~ In 96%N b -> ~ In newline x -> x <> [] ->
  code_blocks (a ++ lit "`" ++ x ++ lit "`" ++ b)
  = a ++ lit "<code>" ++ x ++ lit "</code>" ++ b.
Proof.
  intros Ha Hx Hb Hn Ne. unfold code_blocks. unfold sub at 2.
  rewrite (@sub_from_not_contains fence_pat)
    by (apply (@no_triple 96%N), (@no_double_around 96%N); assumption).
  apply (@sub_span code_pat (lit "<code>") (lit "</code>")
           96%N [] 96%N [] eq_refl eq_refl eq_refl
           a x b Ha Hx (or_intror Hn) Hb).
Qed.

End Emphasis.


Section UnbalancedBold.

Import Re Markdown.

(** Two asterisks with nothing to close them, in a text with no other
    [*]: the bold rule leaves them, and the emphasis rule takes them as an
    empty span. *)
Theorem unbalanced_bold (a b : str) :
  ~ In 42%N a -> ~ In 42%N b ->
  bold_italic (a ++ lit "**" ++ b) = a ++ lit "<em></em>" ++ b.
Proof.
  intros Ha Hb. unfold bold_italic.
  assert (B : sub bold_pat (lit "<strong>") (lit "</strong>")
                (a ++ lit "**" ++ b) = a ++ lit "**" ++ b).
  { unfold sub.
    rewrite (@sub_from_copy bold_pat _ _ 42%N [42%N] a _ None eq_refl Ha).
    f_equal. change (lit "**" ++ b) with (42%N :: 42%N :: b).
    cbn [sub_from].
    assert (M1 : forall prev,
               match_at bold_pat prev (42%N :: 42%N :: b) = None).
    { intros prev. unfold match_at. cbn [anchored bold_pat andb].
      change (opener bold_pat) with [42%N; 42%N]. cbn [strip_prefix].
      rewrite !N.eqb_refl.
      now rewrite (@lazy_group_open bold_pat 42%N [42%N] eq_refl b Hb). }
    assert (M2 : forall prev, match_at bold_pat prev (42%N :: b) = None).
    { intros prev. unfold match_at. cbn [anchored bold_pat andb].
      change (opener bold_pat) with [42%N; 42%N]. cbn [strip_prefix].
      rewrite N.eqb_refl. destruct b as [|b1 b']; [reflexivity|].
      destruct (N.eqb_spec 42 b1) as [E|_]; [|reflexivity].
      exfalso. apply Hb. now left. }
    rewrite M1. f_equal. destruct b as [|b1 b'] eqn:Eb.
    - cbn [sub_from]. now rewrite M2.
    - rewrite <- Eb in *. change (42%N :: b) with ([42%N] ++ b).
      change ([42%N] ++ b) with (42%N :: b). cbn [sub_from]. rewrite M2.
      f_equal.
      apply (@sub_from_absent bold_pat _ _ 42%N [42%N] b _ eq_refl Hb). }
  rewrite B.
  exact (@sub_span italic_pat (lit "<em>") (lit "</em>")
           42%N [] 42%N [] eq_refl eq_refl eq_refl
           a [] b Ha (fun F => F) (or_intror (fun F => F)) Hb).
Qed.

End UnbalancedBold.


(** ** Block quotes and paragraphs *)

Section QuoteLines.

Import Re Markdown.

(** The block quote rule acts on each line by itself: consecutive quoted
    lines become separate elements, and other lines are kept. *)
Theorem blockquotes_line_by_line (lines : list str) :
  Forall (fun l => ~ In newline l) lines ->
  blockquotes (join (lit nl) lines) = join (lit nl) (List.map quote_line lines).
Proof.
  intros H. unfold blockquotes, sub. change (lit nl) with [newline].
  rewrite (@sub_lines quote_pat _ _ 62%N [32%N]); try reflexivity; auto.
  absent_lit.
Qed.

End QuoteLines.

Section WhiteSpace.

Import Re Markdown.

Lemma lstrip_spaces (s : str) : forallb is_space s = true -> lstrip s = [].
Proof.
  induction s as [|c s IH]; [reflexivity|]. cbn [forallb lstrip].
  intros H. apply andb_prop in H. destruct H as [H1 H2]. now rewrite H1, IH.
Qed.

Lemma strip_spaces (s : str) : forallb is_space s = true -> strip s = [].
Proof. intros H. unfold strip. now rewrite lstrip_spaces. Qed.

Lemma split_go_forall (P : char -> bool) (sep : str) (k : nat) (s : str) :
  forallb P s = true ->
  Forall (fun piece => forallb P piece = true) (split_go sep k s).
Proof.
  revert k; induction s as [|c s IH]; intros k H.
  - repeat constructor.
  - cbn [forallb] in H. apply andb_prop in H. destruct H as [H1 H2].
    cbn [split_go]. destruct k as [|k]; [|now apply IH].
    destruct (startswith (c :: s) sep).
    + constructor; [reflexivity | now apply IH].
    + specialize (IH 0%nat H2). destruct (split_go sep 0 s) as [|h r].
      * repeat constructor. cbn. now rewrite H1.
      * inversion IH; subst. constructor; [|assumption].
        cbn [forallb]. now rewrite H1.
Qed.

Lemma spaces_absent (s : str) (k : char) :
  forallb is_space s = true -> is_space k = false -> ~ In k s.
Proof.
  intros H Hk Hin. rewrite forallb_forall in H. specialize (H k Hin).
  congruence.
Qed.

(** A text of white space only (blank lines included) gives the empty
    fragment. *)
Theorem white_space_gives_nothing (md_content : str) :
  forallb is_space md_content = true ->
  simple_markdown_to_html md_content = [].
Proof.
  intros H.
  assert (A : forall k : char, is_space k = false -> ~ In k md_content)
    by (intros k Hk; now apply spaces_absent).
  unfold simple_markdown_to_html, headers, bold_italic, code_blocks,
    blockquotes, sub.
  rewrite (@sub_from_absent h1_pat _ _ 35%N [32%N]); auto.
  rewrite (@sub_from_absent h2_pat _ _ 35%N [35; 32]%N); auto.
  rewrite (@sub_from_absent h3_pat _ _ 35%N [35; 35; 32]%N); auto.
  rewrite (@sub_from_absent h4_pat _ _ 35%N [35; 35; 35; 32]%N); auto.
  rewrite (@sub_from_absent bold_pat _ _ 42%N [42%N]); auto.
  rewrite (@sub_from_absent italic_pat _ _ 42%N []); auto.
  rewrite (@sub_from_absent fence_pat _ _ 96%N [96; 96]%N); auto.
  rewrite (@sub_from_absent code_pat _ _ 96%N []); auto.
  rewrite (@sub_from_absent quote_pat _ _ 62%N [32%N]); auto.
  unfold paragraphs, split.
  pose proof (@split_go_forall is_space (lit nl ++ lit nl) 0 md_content H) as F.
  induction F as [|piece rest Hp _ IH]; [reflexivity|].
  cbn [flat_map]. unfold paragraph at 1. rewrite strip_spaces by exact Hp.
  exact IH.
Qed.

End WhiteSpace.


Section ParagraphLoop.

Import Re Markdown.

Lemma plain_stages (t : str) :
  plain t = true ->
  blockquotes (code_blocks (bold_italic (headers t))) = t.
Proof.
  intros H.
  assert (A : forall k : char, is_markup k = true -> ~ In k t)
    by (intros k Hk; now apply plain_markup).
  unfold headers, bold_italic, code_blocks, blockquotes, sub.
  rewrite (@sub_from_absent h1_pat _ _ 35%N [32%N]); auto.
  rewrite (@sub_from_absent h2_pat _ _ 35%N [35; 32]%N); auto.
  rewrite (@sub_from_absent h3_pat _ _ 35%N [35; 35; 32]%N); auto.
  rewrite (@sub_from_absent h4_pat _ _ 35%N [35; 35; 35; 32]%N); auto.
  rewrite (@sub_from_absent bold_pat _ _ 42%N [42%N]); auto.
  rewrite (@sub_from_absent italic_pat _ _ 42%N []); auto.
  rewrite (@sub_from_absent fence_pat _ _ 96%N [96; 96]%N); auto.
  rewrite (@sub_from_absent code_pat _ _ 96%N []); auto.
  rewrite (@sub_from_absent quote_pat _ _ 62%N [32%N]); auto.
Qed.

(** Plain text without a blank line is one paragraph: stripped, and put
    between the paragraph tags as it is, with no escaping of what it
    holds. *)
Theorem plain_text_is_one_paragraph (t : str) :
  plain t = true -> strip t <> [] -> is_block (strip t) = false ->
  simple_markdown_to_html t = lit "<p>" ++ strip t ++ lit "</p>".
Proof.
  intros H Ne B. unfold simple_markdown_to_html. rewrite plain_stages by exact H.
  unfold paragraphs. change (lit nl ++ lit nl) with [newline; newline].
  rewrite split_none by now apply plain_no_blank.
  cbn [flat_map]. rewrite app_nil_r. unfold paragraph.
  destruct (strip t) as [|c s]; [congruence|]. now rewrite B.
Qed.

Lemma split_go_skip (sep u s : str) :
  split_go sep (List.length u) (u ++ s) = split_go sep 0 s.
Proof. induction u as [|c u IH]; [reflexivity | exact IH]. Qed.

Lemma split_app_sep (k : char) (sep' p rest : str) :
  ~ In k p ->
  split (k :: sep') (p ++ (k :: sep') ++ rest) = p :: split (k :: sep') rest.
Proof.
  intros Hp. unfold split. remember ((k :: sep') ++ rest) as tail eqn:Et.
  induction p as [|c p IH].
  - subst tail. change ([] ++ (k :: sep') ++ rest) with (k :: (sep' ++ rest)).
    cbn [split_go].
    replace (startswith (k :: sep' ++ rest) (k :: sep')) with true.
    + cbn [List.length pred]. now rewrite split_go_skip.
    + symmetry. unfold startswith.
      change (k :: sep' ++ rest) with ((k :: sep') ++ rest).
      now rewrite strip_prefix_app.
  - cbn [app split_go]. unfold startswith. cbn [strip_prefix].
    destruct (N.eqb_spec k c) as [E|_]; [exfalso; apply Hp; now left|].
    rewrite IH by (intros F; apply Hp; now right). reflexivity.
Qed.

Lemma absent_not_contains (k : char) (sep' s : str) :
  ~ In k s -> contains (k :: sep') s = false.
Proof.
  induction s as [|c s IH]; intros H; [reflexivity|].
  cbn [contains]. rewrite IH by (intros F; apply H; now right).
  unfold startswith. cbn [strip_prefix].
  destruct (N.eqb_spec k c) as [E|_]; [|reflexivity].
  exfalso. apply H. now left.
Qed.

(** Splitting undoes joining, for pieces that hold no code point the
    separator starts with. *)
Lemma split_join (k : char) (sep' : str) (ps : list str) :
  ps <> [] -> Forall (fun p => ~ In k p) ps ->
  split (k :: sep') (join (k :: sep') ps) = ps.
Proof.
  intros Ne H. revert Ne.
  induction H as [|p ps Hp H IH]; [intros F; now elim F|].
  intros _. destruct ps as [|q ps].
  - cbn [join]. apply split_none. now apply absent_not_contains.
  - change (join (k :: sep') (p :: q :: ps))
      with (p ++ (k :: sep') ++ join (k :: sep') (q :: ps)).
    rewrite split_app_sep by exact Hp. f_equal. apply IH. discriminate.
Qed.

Lemma in_join (k : char) (sep : str) (ps : list str) :
  In k (join sep ps) -> In k sep \/ exists p, In p ps /\ In k p.
Proof.
  induction ps as [|p ps IH]; [intros []|].
  destruct ps as [|q ps].
  - cbn [join]. intros H. right. exists p. split; [now left | exact H].
  - change (join sep (p :: q :: ps)) with (p ++ sep ++ join sep (q :: ps)).
    rewrite !in_app_iff. intros [H|[H|H]].
    + right. exists p. split; [now left | exact H].
    + now left.
    + destruct (IH H) as [H'|(r & Hr & Hk)]; [now left|].
      right. exists r. split; [now right | exact Hk].
Qed.

(** Pieces of plain text on one line each, set apart by blank lines: the
    fragment is what the paragraph loop makes of each piece, one per line
    of the fragment. *)
Theorem blank_lines_separate_paragraphs (ps : list str) :
  ps <> [] ->
  Forall (fun p => plain p = true /\ ~ In newline p) ps ->
  simple_markdown_to_html (join (lit nl ++ lit nl) ps)
  = join (lit nl) (flat_map paragraph ps).
Proof.
  intros Ne H. unfold simple_markdown_to_html.
  assert (A : forall k : char,
             is_markup k = true -> ~ In k (join (lit nl ++ lit nl) ps)).
  { intros k Hk Hin. apply in_join in Hin.
    destruct Hin as [Hin|(p & Hp & Hin)].
    - destruct Hin as [<-|[<-|[]]]; discriminate Hk.
    - rewrite Forall_forall in H. destruct (H p Hp) as [Pl _].
      now apply (@plain_markup p k Pl Hk). }
  unfold headers, bold_italic, code_blocks, blockquotes, sub.
  rewrite (@sub_from_absent h1_pat _ _ 35%N [32%N]); auto.
  rewrite (@sub_from_absent h2_pat _ _ 35%N [35; 32]%N); auto.
  rewrite (@sub_from_absent h3_pat _ _ 35%N [35; 35; 32]%N); auto.
  rewrite (@sub_from_absent h4_pat _ _ 35%N [35; 35; 35; 32]%N); auto.
  rewrite (@sub_from_absent bold_pat _ _ 42%N [42%N]); auto.
  rewrite (@sub_from_absent italic_pat _ _ 42%N []); auto.
  rewrite (@sub_from_absent fence_pat _ _ 96%N [96; 96]%N); auto.
  rewrite (@sub_from_absent code_pat _ _ 96%N []); auto.
  rewrite (@sub_from_absent quote_pat _ _ 62%N [32%N]); auto.
  unfold paragraphs. change (lit nl ++ lit nl) with (newline :: [newline]).
  rewrite split_join; [reflexivity | exact Ne |].
  eapply Forall_impl; [|exact H]. intros p [_ Hn]. exact Hn.
Qed.

End ParagraphLoop.


(** ** Titles and paths *)

Section Replace.

Lemma replace_char_absent (k : char) (new s : str) :
  ~ In k new -> ~ In k (replace [k] new s).
Proof.
  intros Hn. unfold replace. induction s as [|c s IH]; [intros []|].
  cbn [replace_go]. unfold startswith. cbn [strip_prefix].
  destruct (N.eqb_spec k c) as [E|Ne]; cbn [List.length pred].
  - rewrite in_app_iff. tauto.
  - intros [F|F]; [congruence | tauto].
Qed.

Lemma replace_copy (old new u s : str) (k : char) (old' : str) :
  old = k :: old' -> ~ In k u ->
  replace_go old new 0 (u ++ s) = u ++ replace_go old new 0 s.
Proof.
  intros E Hu. induction u as [|c u IH]; [reflexivity|].
  cbn [app replace_go]. unfold startswith.
  assert (S : strip_prefix old (c :: u ++ s) = None).
  { rewrite E. cbn [strip_prefix].
    destruct (N.eqb_spec k c) as [F|_]; [|reflexivity].
    exfalso. apply Hu. now left. }
  rewrite S, IH; [reflexivity|]. intros F. apply Hu. now right.
Qed.

Lemma replace_go_skip (old new u s : str) :
  replace_go old new (List.length u) (u ++ s) = replace_go old new 0 s.
Proof. induction u as [|c u IH]; [reflexivity | exact IH]. Qed.

Lemma replace_at (old new s : str) (k : char) (old' : str) :
  old = k :: old' ->
  replace_go old new 0 (old ++ s) = new ++ replace_go old new 0 s.
Proof.
  intros E. subst old. change ((k :: old') ++ s) with (k :: (old' ++ s)).
  cbn [replace_go].
  replace (startswith (k :: old' ++ s) (k :: old')) with true.
  - cbn [List.length pred]. f_equal. apply replace_go_skip.
  - symmetry. unfold startswith.
    change (k :: old' ++ s) with ((k :: old') ++ s).
    now rewrite strip_prefix_app.
Qed.

Lemma replace_not_contains (old new s : str) :
  contains old s = false -> replace old new s = s.
Proof.
  unfold replace. induction s as [|c s IH]; intros H; [reflexivity|].
  cbn [contains replace_go] in *. apply orb_false_elim in H.
  destruct H as [H1 H2]. now rewrite H1, IH.
Qed.

(** A text that lacks one code point of [sub] does not hold [sub]. *)
Lemma contains_needs (sub s : str) (c : char) :
  In c sub -> ~ In c s -> contains sub s = false.
Proof.
  intros Hc Hs. destruct (contains sub s) eqn:E; [|reflexivity].
  apply contains_inv in E. destruct E as (a & b & ->).
  exfalso. apply Hs. rewrite !in_app_iff. tauto.
Qed.

End Replace.

Section Titles.

Import Collector HtmlOnly.

(** The title made from a file name, and the name shown in the table of
    contents, hold no underscore, whatever the path. *)
Theorem titles_have_no_underscore (path : str) :
  ~ In 95%N (title_of path) /\ ~ In 95%N (readable_name path).
Proof.
  split; apply (@replace_char_absent 95%N (lit " ")); absent_lit.
Qed.

End Titles.


Section Paths.

Import Collector HtmlOnly.

Lemma existsb_absent (k : char) (s : str) :
  ~ In k s -> existsb (N.eqb k) s = false.
Proof.
  induction s as [|c s IH]; intros H; [reflexivity|]. cbn [existsb].
  rewrite IH by (intros F; apply H; now right).
  destruct (N.eqb_spec k c) as [E|_]; [|reflexivity].
  exfalso. apply H. now left.
Qed.

Lemma endswith_app (s ext : str) : endswith (s ++ ext) ext = true.
Proof.
  unfold endswith, startswith. now rewrite rev_app_distr, strip_prefix_app.
Qed.

(** A name made of a stem without slash or dot and an extension is matched
    by the pattern of its partition. *)
Lemma glob_match_stem (dir ext' : str) (i : nat) (stem : str) :
  stem <> [] -> ~ In slash stem -> ~ In Format.dot stem -> ~ In slash ext' ->
  glob_match dir (Format.dot :: ext') i
    ((dir ++ lit "/part" ++ [digit_char i] ++ [slash])
       ++ stem ++ Format.dot :: ext') = true.
Proof.
  intros Ne Hs Hd He. unfold glob_match. rewrite strip_prefix_app.
  rewrite existsb_absent, endswith_app.
  - destruct stem as [|s1 stem]; [congruence|].
    unfold startswith. cbn [app lit strip_prefix].
    change (lit ".") with [Format.dot]. cbn [strip_prefix].
    destruct (N.eqb_spec Format.dot s1) as [E|_]; [|reflexivity].
    exfalso. apply Hd. now left.
  - rewrite in_app_iff. intros [F|[F|F]]; [tauto | discriminate F | tauto].
Qed.

Lemma contains_cons_other (k c : char) (sub' s : str) :
  c <> k -> contains (k :: sub') (c :: s) = contains (k :: sub') s.
Proof.
  intros H. cbn [contains]. unfold startswith at 1. cbn [strip_prefix].
  destruct (N.eqb_spec k c) as [E|_]; [congruence | reflexivity].
Qed.

Lemma digit_char_not (i : nat) (c : char) :
  (i < 10)%nat -> (c < 48 \/ 57 < c)%N -> digit_char i <> c.
Proof. unfold digit_char. intros Hi Hc E. lia. Qed.

Lemma html_path_of_source (i : nat) (stem : str) :
  (i < 10)%nat -> ~ In slash stem -> ~ In Format.dot stem ->
  html_path (source_path i stem) = output_path i stem.
Proof.
  intros Hi Hs Hd. unfold html_path, source_path, output_path.
  assert (Du : ~ In Format.dot (lit "src/part" ++ digit_char i :: slash :: stem)).
  { rewrite in_app_iff. intros [F|[F|[F|F]]]; try tauto.
    - revert F. absent_lit.
    - revert F. apply digit_char_not; [exact Hi | left; reflexivity].
    - discriminate F. }
  replace (lit "src/part" ++ digit_char i :: slash :: stem ++ lit ".md")
    with ((lit "src/part" ++ digit_char i :: slash :: stem) ++ lit ".md" ++ [])
    by (rewrite app_nil_r, <- app_assoc; reflexivity).
  unfold replace at 2.
  rewrite (@replace_copy (lit ".md") (lit ".html") _ _ Format.dot (lit "md")
             eq_refl Du).
  rewrite (@replace_at (lit ".md") (lit ".html") [] Format.dot (lit "md") eq_refl).
  cbn [replace_go]. rewrite app_nil_r.
  replace ((lit "src/part" ++ digit_char i :: slash :: stem) ++ lit ".html")
    with (lit "src/" ++ lit "part" ++ digit_char i :: slash :: stem ++ lit ".html")
    by (rewrite <- !app_assoc; reflexivity).
  unfold replace.
  rewrite (@replace_at (lit "src/") (lit "html_output/") _ 115%N (lit "rc/")
             eq_refl).
  change (lit "html_output/part" ++ digit_char i :: slash :: stem ++ lit ".html")
    with (lit "html_output/"
            ++ lit "part" ++ digit_char i :: slash :: stem ++ lit ".html").
  f_equal.
  change (replace_go (lit "src/") (lit "html_output/") 0)
    with (replace (lit "src/") (lit "html_output/")).
  rewrite replace_not_contains; [reflexivity|].
  change (lit "src/") with (115%N :: lit "rc/").
  change (lit "part" ++ digit_char i :: slash :: stem ++ lit ".html")
    with (112%N :: 97%N :: 114%N :: 116%N :: digit_char i :: slash
            :: stem ++ lit ".html").
  rewrite !contains_cons_other; try discriminate.
  - apply (@contains_needs _ _ slash); [right; right; right; now left|].
    rewrite in_app_iff. intros [F|F]; [tauto|]. revert F. absent_lit.
  - apply digit_char_not; [exact Hi | right; reflexivity].
Qed.

(** A source of partition [i] whose stem has no slash and no dot is found
    by the collector; the converter names its output under the same
    partition of [html_output], where the combiner's pattern finds it; and
    the title of the page is the name the table of contents shows, the stem
    with spaces for underscores, the anchor being the stem itself. *)
Theorem converter_paths_line_up (i : nat) (stem : str) :
  (i < 7)%nat -> stem <> [] -> ~ In slash stem -> ~ In Format.dot stem ->
  glob_match (lit "src") (lit ".md") i (source_path i stem) = true
  /\ html_path (source_path i stem) = output_path i stem
  /\ glob_match (lit "html_output") (lit ".html") i (output_path i stem) = true
  /\ base_name (output_path i stem) = stem
  /\ title_of (source_path i stem) = replace (lit "_") (lit " ") stem
  /\ readable_name (output_path i stem) = title_of (source_path i stem).
Proof.
  intros Hi Ne Hs Hd.
  assert (B : base_name (output_path i stem) = stem).
  { exact (@base_name_stem (lit "html_output/part" ++ [digit_char i]) stem
             Hs Hd). }
  assert (T : title_of (source_path i stem) = replace (lit "_") (lit " ") stem).
  { unfold title_of, source_path.
    change (lit "src/part" ++ digit_char i :: slash :: stem ++ lit ".md")
      with ((lit "src/part" ++ [digit_char i]) ++ slash :: stem ++ lit ".md").
    rewrite basename_after_slash.
    - now rewrite (@replace_suffix stem (lit ".md") Format.dot (lit "md")).
    - rewrite in_app_iff. intros [F|F]; [tauto|]. revert F. absent_lit. }
  split; [|split; [|split; [|split; [|split]]]].
  - apply (@glob_match_stem (lit "src") (lit "md")); auto. absent_lit.
  - apply html_path_of_source; auto; lia.
  - apply (@glob_match_stem (lit "html_output") (lit "html")); auto. absent_lit.
  - exact B.
  - exact T.
  - unfold readable_name. now rewrite B, T.
Qed.

End Paths.


Section NoDuplicates.

Import Collector.

Lemma NoDup_flat_map_disjoint (A B : Type) (f : A -> list B) (l : list A) :
  NoDup l ->
  (forall i, In i l -> NoDup (f i)) ->
  (forall i j x, In i l -> In j l -> In x (f i) -> In x (f j) -> i = j) ->
  NoDup (flat_map f l).
Proof.
  induction 1 as [|i l Hi Hl IH]; intros Hf Hd; [constructor|].
  cbn [flat_map]. apply NoDup_app.
  - apply Hf. now left.
  - apply IH.
    + intros j Hj. apply Hf. now right.
    + intros j j' x Hj Hj'. apply Hd; now right.
  - intros x Hx Hx'. apply in_flat_map in Hx'. destruct Hx' as (j & Hj & Hxj).
    assert (E : i = j) by (apply (Hd i j x); auto; [now left | now right]).
    subst j. contradiction.
Qed.

Lemma glob_match_partition (dir ext : str) (i j : nat) (x : str) :
  glob_match dir ext i x = true -> glob_match dir ext j x = true -> i = j.
Proof.
  unfold glob_match. intros Hi Hj.
  destruct (strip_prefix _ x) as [n1|] eqn:E1 in Hi; [|discriminate].
  destruct (strip_prefix _ x) as [n2|] eqn:E2 in Hj; [|discriminate].
  apply strip_prefix_Some in E1, E2. rewrite E1 in E2.
  rewrite <- !app_assoc in E2. apply app_inv_head in E2.
  apply app_inv_head in E2. cbn [app] in E2. injection E2 as E _.
  unfold digit_char in E. lia.
Qed.

(** Out of a listing in which every path stands once, the collector takes
    every path once: a path matches the pattern of one partition only.  The
    sorted list has no path twice either. *)
Theorem collector_has_no_duplicates (dir ext : str) (listing : list str) :
  NoDup listing ->
  NoDup (collect dir ext listing)
  /\ (forall sorted,
        sort_files (collect dir ext listing) = Some sorted -> NoDup sorted).
Proof.
  intros H.
  assert (N : NoDup (collect dir ext listing)).
  { unfold collect, glob. apply NoDup_flat_map_disjoint.
    - apply seq_NoDup.
    - intros i _. now apply NoDup_filter.
    - intros i j x _ _ Hi Hj. apply filter_In in Hi, Hj.
      eapply glob_match_partition; [apply Hi | apply Hj]. }
  split; [exact N|]. intros sorted S.
  destruct (sort_files_spec _ S) as [P _].
  eapply Permutation_NoDup; [symmetry; exact P | exact N].
Qed.

End NoDuplicates.


(** ** The PDF loop of [convert_to_pdf.py] *)

Section PdfLoop.

Import Collector ToPdf.

Variable env : Type.
Variable run : list str -> env -> ran * env.

(** One turn of the loop: the first command is run; the basic one is run
    after it exactly when the first did not succeed, and the file counts
    when the last command run for it succeeded. *)
Lemma convert_one_turn (md_file : str) (s : state env) :
  exists fallback,
    calls (snd (convert_one run md_file s))
    = calls s ++ commands_for (md_file, fallback)
    /\ (fallback = false -> fst (convert_one run md_file s) = true).
Proof.
  unfold convert_one, convert_md_to_pdf_wkhtmltopdf, convert_md_to_pdf_basic,
    subprocess_run, commands_for.
  destruct (run (wkhtmltopdf_cmd md_file (pdf_file_of md_file)) (machine s))
    as [r1 e1].
  destruct (succeeded r1); cbn [negb].
  - exists false. now split.
  - cbn [machine calls].
    destruct (run (basic_cmd md_file (pdf_file_of md_file)) e1) as [r2 e2].
    exists true. cbn [fst snd calls]. rewrite <- app_assoc.
    split; [reflexivity | discriminate].
Qed.

(** The loop runs the first method once for every file, in order, and the
    basic method right after it for some of them; the count grows by at
    most one per file and by one for each file that needed no fallback. *)
Theorem pdf_loop_counts (all_files : list str) (n : nat) (s : state env) :
  exists tries,
    List.length tries = List.length all_files
    /\ calls (snd (convert_each run all_files n s))
       = calls s ++ flat_map commands_for (combine all_files tries)
    /\ (n + first_tries tries <= fst (convert_each run all_files n s))%nat
    /\ (fst (convert_each run all_files n s) <= n + List.length all_files)%nat.
Proof.
  revert n s; induction all_files as [|md_file rest IH]; intros n s.
  - exists []. cbn. rewrite app_nil_r. repeat split; lia.
  - cbn [convert_each].
    destruct (convert_one_turn md_file s) as (fallback & C & F).
    destruct (convert_one run md_file s) as [success s1]. cbn [fst snd] in *.
    destruct (IH (if success then S n else n) s1) as (tries & L & C' & Lo & Hi).
    exists (fallback :: tries). cbn [List.length combine flat_map].
    split; [now rewrite L|]. split; [now rewrite C', C, <- app_assoc|].
    unfold first_tries in *. cbn [filter].
    destruct fallback; cbn [negb List.length];
      [destruct success | rewrite (F eq_refl) in *]; split; lia.
Qed.

(** When no command ever succeeds (a missing [pandoc] raises on every
    call), both methods are tried for every file and none is counted. *)
Theorem pdf_loop_all_fail (all_files : list str) (n : nat) (s : state env) :
  (forall cmd e, succeeded (fst (run cmd e)) = false) ->
  fst (convert_each run all_files n s) = n
  /\ calls (snd (convert_each run all_files n s))
     = calls s
       ++ flat_map (fun md_file => commands_for (md_file, true)) all_files.
Proof.
  intros H. revert n s; induction all_files as [|md_file rest IH]; intros n s.
  - cbn. now rewrite app_nil_r.
  - cbn [convert_each flat_map].
    unfold convert_one, convert_md_to_pdf_wkhtmltopdf,
      convert_md_to_pdf_basic, subprocess_run.
    pose proof (H (wkhtmltopdf_cmd md_file (pdf_file_of md_file)) (machine s))
      as H1.
    destruct (run (wkhtmltopdf_cmd md_file (pdf_file_of md_file)) (machine s))
      as [r1 e1]. cbn [fst] in H1. rewrite H1. cbn [negb machine calls].
    pose proof (H (basic_cmd md_file (pdf_file_of md_file)) e1) as H2.
    destruct (run (basic_cmd md_file (pdf_file_of md_file)) e1) as [r2 e2].
    cbn [fst] in H2. rewrite H2.
    destruct (IH n (mkState e2
                      ((calls s ++ [wkhtmltopdf_cmd md_file (pdf_file_of md_file)])
                       ++ [basic_cmd md_file (pdf_file_of md_file)])))
      as [I1 I2].
    split; [exact I1|]. rewrite I2. cbn [calls commands_for fst snd].
    now rewrite <- !app_assoc.
Qed.

(** When the first method succeeds on every call, every file is counted
    and the basic method is never run. *)
Theorem pdf_loop_first_method (all_files : list str) (n : nat) (s : state env) :
  (forall md_file pdf_file e,
     succeeded (fst (run (wkhtmltopdf_cmd md_file pdf_file) e)) = true) ->
  fst (convert_each run all_files n s) = (n + List.length all_files)%nat
  /\ calls (snd (convert_each run all_files n s))
     = calls s
       ++ List.map (fun md_file =>
                      wkhtmltopdf_cmd md_file (pdf_file_of md_file)) all_files.
Proof.
  intros H. revert n s; induction all_files as [|md_file rest IH]; intros n s.
  - cbn. rewrite app_nil_r. split; [lia | reflexivity].
  - cbn [convert_each List.map List.length].
    unfold convert_one, convert_md_to_pdf_wkhtmltopdf, subprocess_run.
    pose proof (H md_file (pdf_file_of md_file) (machine s)) as H1.
    destruct (run (wkhtmltopdf_cmd md_file (pdf_file_of md_file)) (machine s))
      as [r1 e1]. cbn [fst] in H1. rewrite H1. cbn [negb].
    destruct (IH (S n) (mkState e1
                     (calls s ++ [wkhtmltopdf_cmd md_file (pdf_file_of md_file)])))
      as [I1 I2].
    split; [rewrite I1; lia|]. rewrite I2. cbn [calls].
    now rewrite <- app_assoc.
Qed.

End PdfLoop.

Section PdfNames.

Import Collector HtmlOnly ToPdf.

(** The PDF of a source is named by what follows the last slash alone:
    sources with the same stem in two partitions are given the same output
    file, whatever the stem.  For a stem without a slash and a dot it is the
    stem with [.pdf], in the output directory. *)
Theorem pdf_name_ignores_partition (i j : nat) (stem : str) :
  pdf_file_of (source_path i stem) = pdf_file_of (source_path j stem)
  /\ (~ In slash stem -> ~ In Format.dot stem ->
      pdf_file_of (source_path i stem)
      = lit "pdf_output/" ++ stem ++ lit ".pdf").
Proof.
  assert (B : forall k,
             basename (source_path k stem) = basename (stem ++ lit ".md")).
  { intros k. unfold source_path.
    change (lit "src/part" ++ digit_char k :: slash :: stem ++ lit ".md")
      with ((lit "src/part" ++ [digit_char k]) ++ slash :: stem ++ lit ".md").
    apply basename_after_dir. }
  split; [unfold pdf_file_of; now rewrite !B|].
  intros Hs Hd. unfold pdf_file_of. rewrite B.
  rewrite <- (basename_after_dir [] (stem ++ lit ".md")).
  rewrite basename_after_slash
    by (rewrite in_app_iff; intros [F|F]; [tauto | revert F; absent_lit]).
  replace (stem ++ lit ".md") with (stem ++ lit ".md" ++ [])
    by now rewrite app_nil_r.
  unfold replace.
  rewrite (@replace_copy (lit ".md") (lit ".pdf") _ _ Format.dot (lit "md")
             eq_refl Hd).
  rewrite (@replace_at (lit ".md") (lit ".pdf") [] Format.dot (lit "md")
             eq_refl).
  cbn [replace_go]. rewrite app_nil_r. unfold path_join.
  assert (S : startswith (stem ++ lit ".pdf") (lit "/") = false).
  { destruct stem as [|s1 stem']; [reflexivity|].
    unfold startswith. change (lit "/") with [slash].
    cbn [app strip_prefix].
    destruct (N.eqb_spec slash s1) as [F|_]; [|reflexivity].
    exfalso. apply Hs. now left. }
  rewrite S. reflexivity.
Qed.

End PdfNames.


(** ** The HTML method of [convert_to_pdf_html.py] *)

Section HtmlMethod.

Import Collector ToPdf PdfHtml.

Variable env : Type.
Variable run : list str -> env -> ran * env.
Variable markdown_convert : str -> option str.
Variable merge_pdfs : env -> env.
Variable removable : str -> bool.

Lemma pdf_html_format_raises (content title : str) :
  Format.format create_html_template
    [(lit "title", title); (lit "content", content)]
  = Format.Raise (Format.KeyError (lit nl ++ lit "            size")).
Proof. vm_compute. reflexivity. Qed.

Lemma html_method_none (md_file : str) (w : world env) :
  convert_md_to_html markdown_convert md_file w
  = (None, print (HtmlError md_file) w).
Proof.
  unfold convert_md_to_html.
  destruct (HtmlOnly.read (files w) md_file) as [md_content|]; [|reflexivity].
  destruct (markdown_convert md_content) as [html_content|]; [|reflexivity].
  now rewrite pdf_html_format_raises.
Qed.

(** Whatever the markdown library returns, the converter to HTML returns
    no path, writes no file, runs no command and prints the error line:
    the template cannot be filled. *)
Theorem html_method_never_writes (md_file : str) (w : world env) :
  fst (convert_md_to_html markdown_convert md_file w) = None
  /\ files (snd (convert_md_to_html markdown_convert md_file w)) = files w
  /\ calls (snd (convert_md_to_html markdown_convert md_file w)) = calls w
  /\ printed (snd (convert_md_to_html markdown_convert md_file w))
     = printed w ++ [HtmlError md_file].
Proof. rewrite html_method_none. now repeat split. Qed.

Lemma read_remove_other (f : HtmlOnly.fs) (path p : str) :
  p <> path -> HtmlOnly.read (remove f path) p = HtmlOnly.read f p.
Proof.
  intros Hp. induction f as [|[q c] f IH]; [reflexivity|].
  cbn [remove HtmlOnly.read].
  destruct (Str.eqb q path) eqn:E1; cbn [HtmlOnly.read].
  - apply eqb_eq in E1. subst q.
    destruct (Str.eqb path p) eqn:E2; [|reflexivity].
    apply eqb_eq in E2. congruence.
  - now rewrite IH.
Qed.

Lemma read_absent (f : HtmlOnly.fs) (p : str) :
  ~ In p (HtmlOnly.listing f) -> HtmlOnly.read f p = None.
Proof.
  induction f as [|[q c] f IH]; [reflexivity|].
  cbn [HtmlOnly.listing List.map fst HtmlOnly.read]. intros H.
  destruct (Str.eqb q p) eqn:E.
  - apply eqb_eq in E. subst q. exfalso. apply H. now left.
  - apply IH. intros F. apply H. now right.
Qed.

Lemma listing_remove (f : HtmlOnly.fs) (path p : str) :
  In p (HtmlOnly.listing (remove f path)) -> In p (HtmlOnly.listing f).
Proof.
  induction f as [|[q c] f IH]; [intros []|].
  cbn [remove]. destruct (Str.eqb q path).
  - intros H. now right.
  - cbn [HtmlOnly.listing List.map fst]. intros [H|H]; [now left|].
    right. now apply IH.
Qed.

Lemma remove_gone (f : HtmlOnly.fs) (path : str) :
  NoDup (HtmlOnly.listing f) -> ~ In path (HtmlOnly.listing (remove f path)).
Proof.
  induction f as [|[q c] f IH]; [intros _ []|].
  cbn [HtmlOnly.listing List.map fst remove]. intros N.
  inversion N as [|x l Hq Nf]; subst.
  destruct (Str.eqb q path) eqn:E.
  - apply eqb_eq in E. now subst q.
  - cbn [HtmlOnly.listing List.map fst]. intros [F|F].
    + subst q. assert (T : Str.eqb path path = true) by now apply eqb_eq.
      congruence.
    + now apply (IH Nf).
Qed.

Lemma os_remove_other (f : HtmlOnly.fs) (path p : str) :
  p <> path \/ removable p = false ->
  HtmlOnly.read (os_remove removable f path) p = HtmlOnly.read f p.
Proof.
  intros H. unfold os_remove. destruct (removable path) eqn:R; [|reflexivity].
  apply read_remove_other. destruct H as [H|H]; [exact H | congruence].
Qed.

Lemma os_remove_listing (f : HtmlOnly.fs) (path p : str) :
  In p (HtmlOnly.listing (os_remove removable f path)) ->
  In p (HtmlOnly.listing f).
Proof.
  unfold os_remove. destruct (removable path); [apply listing_remove | auto].
Qed.

Lemma fold_os_remove_listing (html_files : list str) (f : HtmlOnly.fs)
    (p : str) :
  In p (HtmlOnly.listing (fold_left (os_remove removable) html_files f)) ->
  In p (HtmlOnly.listing f).
Proof.
  revert f; induction html_files as [|h rest IH]; intros f; [auto|].
  cbn [fold_left]. intros H. apply IH in H. now apply os_remove_listing in H.
Qed.

Lemma fold_os_remove_other (html_files : list str) (f : HtmlOnly.fs)
    (p : str) :
  ~ In p html_files \/ removable p = false ->
  HtmlOnly.read (fold_left (os_remove removable) html_files f) p
  = HtmlOnly.read f p.
Proof.
  revert f; induction html_files as [|h rest IH]; intros f H; [reflexivity|].
  cbn [fold_left]. rewrite IH.
  - apply os_remove_other. destruct H as [H|H]; [|now right].
    left. intros E. apply H. now left.
  - destruct H as [H|H]; [|now right]. left. intros F. apply H. now right.
Qed.

Lemma fold_os_remove_gone (html_files : list str) (f : HtmlOnly.fs)
    (p : str) :
  NoDup (HtmlOnly.listing f) -> In p html_files -> removable p = true ->
  ~ In p (HtmlOnly.listing (fold_left (os_remove removable) html_files f)).
Proof.
  revert f; induction html_files as [|h rest IH]; [intros f _ []|].
  intros f N [E|Hin] R.
  - subst h. cbn [fold_left]. intros F. apply fold_os_remove_listing in F.
    revert F. unfold os_remove. rewrite R. now apply remove_gone.
  - cbn [fold_left]. apply IH; [|exact Hin|exact R].
    unfold os_remove. destruct (removable h); [|exact N].
    clear -N. induction f as [|[q c] f IHf]; [constructor|].
    cbn [HtmlOnly.listing List.map fst remove] in *.
    inversion N as [|x l Hq Nf]; subst.
    destruct (Str.eqb q h); [exact Nf|].
    cbn [HtmlOnly.listing List.map fst]. constructor; [|now apply IHf].
    intros F. apply Hq. now apply listing_remove in F.
Qed.

Lemma to_pdf_each_first_engine (html_files : list str) (n : nat)
    (w : world env) :
  (forall html_file pdf_file e,
     fst (run (wkhtmltopdf_cmd html_file pdf_file) e) = Exit 0) ->
  fst (to_pdf_each run removable html_files n w)
  = (n + List.length html_files)%nat
  /\ calls (snd (to_pdf_each run removable html_files n w))
     = calls w
       ++ List.map (fun h => wkhtmltopdf_cmd h (pdf_file_of h)) html_files
  /\ files (snd (to_pdf_each run removable html_files n w))
     = fold_left (os_remove removable) html_files (files w).
Proof.
  intros H. revert n w; induction html_files as [|h rest IH]; intros n w.
  - cbn. rewrite app_nil_r. now rewrite Nat.add_0_r.
  - cbn [to_pdf_each List.length List.map fold_left].
    unfold convert_html_to_pdf, subprocess_run.
    pose proof (H h (pdf_file_of h) (machine w)) as H1.
    destruct (run (wkhtmltopdf_cmd h (pdf_file_of h)) (machine w))
      as [r1 e1]. cbn [fst] in H1. subst r1.
    change (is_zero 0) with true. cbv iota. unfold print.
    cbn [files printed machine calls].
    destruct (IH (S n)
                (mkWorld (os_remove removable (files w) h)
                   (printed w ++ [ConvertedPdf h (lit "wkhtmltopdf")]) e1
                   (calls w ++ [wkhtmltopdf_cmd h (pdf_file_of h)])))
      as (I1 & I2 & I3).
    rewrite I1, I2, I3. cbn [files calls]. rewrite <- app_assoc.
    repeat split. lia.
Qed.

(** When [wkhtmltopdf] exits with 0 on every call, the second loop counts
    every HTML file and runs that one command per file, in order, and no
    other.  After it, a listed file that [os.remove] removes is gone; a
    file outside the list, and a listed one whose removal raises (it is
    counted all the same), are as they were. *)
Theorem pdf_stage_cleans_up (html_files : list str) (n : nat)
    (w : world env) :
  (forall html_file pdf_file e,
     fst (run (wkhtmltopdf_cmd html_file pdf_file) e) = Exit 0) ->
  let w' := snd (to_pdf_each run removable html_files n w) in
  fst (to_pdf_each run removable html_files n w)
  = (n + List.length html_files)%nat
  /\ calls w'
     = calls w
       ++ List.map (fun h => wkhtmltopdf_cmd h (pdf_file_of h)) html_files
  /\ (forall p, In p html_files -> removable p = true ->
        NoDup (HtmlOnly.listing (files w)) ->
        ~ In p (HtmlOnly.listing (files w'))
        /\ HtmlOnly.read (files w') p = None)
  /\ (forall p, ~ In p html_files \/ removable p = false ->
        HtmlOnly.read (files w') p = HtmlOnly.read (files w) p).
Proof.
  intros H. cbv zeta.
  destruct (to_pdf_each_first_engine html_files n w H) as (C & K & F).
  split; [exact C|]. split; [exact K|]. rewrite F. split.
  - intros p Hin R N.
    pose proof (@fold_os_remove_gone html_files (files w) p N Hin R) as G.
    split; [exact G | now apply read_absent].
  - intros p Hp. now apply (@fold_os_remove_other html_files (files w) p).
Qed.

(** When no engine exits with 0 (another status, or it cannot be started),
    the second loop counts nothing and leaves every file, the HTML files
    among them, as it was. *)
Theorem pdf_stage_failure_keeps_html (html_files : list str) (n : nat)
    (w : world env) :
  (forall cmd e, succeeded (fst (run cmd e)) = false) ->
  fst (to_pdf_each run removable html_files n w) = n
  /\ files (snd (to_pdf_each run removable html_files n w)) = files w
  /\ (List.length (calls w) + List.length html_files
      <= List.length (calls (snd (to_pdf_each run removable html_files n w))))%nat.
Proof.
  intros H. revert n w; induction html_files as [|h rest IH]; intros n w.
  - cbn. repeat split. lia.
  - cbn [to_pdf_each List.length].
    unfold convert_html_to_pdf, subprocess_run.
    pose proof (H (wkhtmltopdf_cmd h (pdf_file_of h)) (machine w)) as H1.
    destruct (run (wkhtmltopdf_cmd h (pdf_file_of h)) (machine w))
      as [r1 e1]. cbn [fst] in H1.
    destruct r1 as [rc|].
    + cbn [succeeded] in H1. fold (is_zero rc) in H1. rewrite H1.
      cbn [machine calls files printed].
      pose proof (H (weasyprint_cmd h (pdf_file_of h)) e1) as H2.
      destruct (run (weasyprint_cmd h (pdf_file_of h)) e1) as [r2 e2].
      cbn [fst] in H2. destruct r2 as [rc2|].
      * cbn [succeeded] in H2. fold (is_zero rc2) in H2. rewrite H2.
        match goal with
        | |- context [to_pdf_each run removable rest n ?w1] =>
          destruct (IH n w1) as (I1 & I2 & I3)
        end.
        split; [exact I1|]. split; [exact I2|].
        etransitivity; [|exact I3]. unfold print. cbn [calls].
        rewrite !length_app. cbn [List.length]. lia.
      * match goal with
        | |- context [to_pdf_each run removable rest n ?w1] =>
          destruct (IH n w1) as (I1 & I2 & I3)
        end.
        split; [exact I1|]. split; [exact I2|].
        etransitivity; [|exact I3]. unfold print. cbn [calls].
        rewrite !length_app. cbn [List.length]. lia.
    + match goal with
      | |- context [to_pdf_each run removable rest n ?w1] =>
        destruct (IH n w1) as (I1 & I2 & I3)
      end.
      split; [exact I1|]. split; [exact I2|].
      etransitivity; [|exact I3]. unfold print. cbn [calls].
      rewrite !length_app. cbn [List.length]. lia.
Qed.

Lemma to_html_each_none (all_files html_files : list str) (w : world env) :
  to_html_each markdown_convert all_files html_files w
  = (html_files,
     mkWorld (files w) (printed w ++ List.map HtmlError all_files)
       (machine w) (calls w)).
Proof.
  revert w; induction all_files as [|md_file rest IH]; intros w.
  - cbn [to_html_each List.map]. rewrite app_nil_r. now destruct w.
  - cbn [to_html_each List.map]. rewrite html_method_none.
    cbn [HtmlOnly.truthy]. rewrite IH. unfold print.
    cbn [files printed machine calls]. now rewrite <- app_assoc.
Qed.

Lemma install_each_starts (pkgs : list str) (w : world env) :
  (forall package e, fst (run (pip_cmd package) e) <> Fails) ->
  exists lines e',
    install_each run pkgs w
    = (Return tt,
       mkWorld (files w) (printed w ++ lines) e'
         (calls w ++ List.map pip_cmd pkgs))
    /\ List.length lines = List.length pkgs.
Proof.
  intros H. revert w; induction pkgs as [|package rest IH]; intros w.
  - exists [], (machine w). cbn. rewrite !app_nil_r. now destruct w.
  - cbn [install_each]. unfold subprocess_run.
    pose proof (H package (machine w)) as Hp.
    destruct (run (pip_cmd package) (machine w)) as [r e]. cbn [fst] in Hp.
    destruct r as [rc|]; [|congruence].
    destruct (IH (print (if is_zero rc then Installed package
                         else InstallFailed package)
                    (mkWorld (files w) (printed w) e
                       (calls w ++ [pip_cmd package]))))
      as (lines & e' & E & L).
    rewrite E. unfold print. cbn [files printed machine calls].
    exists ((if is_zero rc then Installed package else InstallFailed package)
              :: lines), e'.
    cbn [List.map List.length]. rewrite <- !app_assoc.
    split; [reflexivity | now rewrite L].
Qed.

(** When [pip3] can be started and the output directory can be made,
    [main] returns without having written a file or run an engine: the
    commands run are the three installs, every source gets its error line,
    and the tally is none out of their number.  When the directory cannot
    be made, [main] ends with the exception of [os.makedirs] after the
    installs. *)
Theorem html_method_converts_nothing (w : world env) :
  (forall package e, fst (run (pip_cmd package) e) <> Fails) ->
  exists all_files lines e',
    sort_files
      (collect (lit "src") (lit ".md") (HtmlOnly.listing (files w)))
    = Some all_files
    /\ List.length lines = 3%nat
    /\ main run markdown_convert merge_pdfs removable w
       = if HtmlOnly.makedirs (files w) output_dir
         then (Return tt,
               mkWorld (files w)
                 (printed w ++ lines ++ [Found all_files]
                  ++ List.map HtmlError all_files
                  ++ [Tally 0 (List.length all_files)])
                 e' (calls w ++ List.map pip_cmd packages))
         else (Raised (MakedirsFailure output_dir),
               mkWorld (files w) (printed w ++ lines) e'
                 (calls w ++ List.map pip_cmd packages)).
Proof.
  intros H.
  destruct (collect_collected (lit ".md") (HtmlOnly.listing (files w)))
    as [C _].
  destruct (sort_files_defined C) as [all_files S].
  destruct (install_each_starts packages w H) as (lines & e' & E & L).
  exists all_files, lines, e'. split; [exact S|]. split; [exact L|].
  unfold main, install_requirements. rewrite E. cbn [files].
  destruct (HtmlOnly.makedirs (files w) output_dir); [|reflexivity].
  cbn [negb]. rewrite S.
  rewrite to_html_each_none. cbn [to_pdf_each Nat.ltb Nat.leb].
  unfold print. cbn [files printed machine calls].
  now rewrite <- !app_assoc.
Qed.

(** When [pip3] cannot be started, [main] ends with the exception of the
    first install: no file is read and nothing else is run. *)
Theorem html_method_needs_pip (w : world env) :
  fst (run (pip_cmd (lit "markdown")) (machine w)) = Fails ->
  main run markdown_convert merge_pdfs removable w
  = (Raised (CannotStart (pip_cmd (lit "markdown"))),
     mkWorld (files w) (printed w)
       (snd (run (pip_cmd (lit "markdown")) (machine w)))
       (calls w ++ [pip_cmd (lit "markdown")])).
Proof.
  intros H. unfold main, install_requirements, packages.
  cbn [install_each]. unfold subprocess_run.
  destruct (run (pip_cmd (lit "markdown")) (machine w)) as [r e].
  cbn [fst snd] in *. now subst r.
Qed.

End HtmlMethod.

(** ** The further properties at concrete inputs *)

Section FurtherSamples.

Import Markdown Collector HtmlOnly.

(** Two files found out of order, sorted once and sorted again. *)
Lemma sort_files_idempotent_sample :
  sort_files [lit "src/part1/b.md"; lit "src/part0/a.md"]
  = Some [lit "src/part0/a.md"; lit "src/part1/b.md"]
  /\ sort_files [lit "src/part0/a.md"; lit "src/part1/b.md"]
     = Some [lit "src/part0/a.md"; lit "src/part1/b.md"].
Proof.
  assert (H : sort_files [lit "src/part1/b.md"; lit "src/part0/a.md"]
              = Some [lit "src/part0/a.md"; lit "src/part1/b.md"])
    by (vm_compute; reflexivity).
  split; [exact H|]. exact (sort_files_idempotent _ H).
Defined.

(** A file outside the partitions among the files to sort. *)
Lemma sort_files_fails_without_part_sample :
  In (lit "notes/readme.md") [lit "src/part0/a.md"; lit "notes/readme.md"]
  /\ contains (lit "/part") (lit "notes/readme.md") = false
  /\ part_index (lit "notes/readme.md") = None
  /\ sort_files [lit "src/part0/a.md"; lit "notes/readme.md"] = None.
Proof.
  assert (H1 : In (lit "notes/readme.md")
                 [lit "src/part0/a.md"; lit "notes/readme.md"])
    by (right; left; reflexivity).
  assert (H2 : contains (lit "/part") (lit "notes/readme.md") = false)
    by (vm_compute; reflexivity).
  split; [exact H1|]. split; [exact H2|].
  exact (@sort_files_fails_without_part _ _ H1 H2).
Defined.

(** A directory [partx] among the files to sort. *)
Lemma sort_files_fails_on_name_sample :
  In (lit "src/part" ++ 120%N :: slash :: lit "a.md")
    [lit "src/part0/a.md"; lit "src/part" ++ 120%N :: slash :: lit "a.md"]
  /\ sort_files
       [lit "src/part0/a.md"; lit "src/part" ++ 120%N :: slash :: lit "a.md"]
     = None.
Proof.
  assert (H : In (lit "src/part" ++ 120%N :: slash :: lit "a.md")
                [lit "src/part0/a.md";
                 lit "src/part" ++ 120%N :: slash :: lit "a.md"])
    by (right; left; reflexivity).
  split; [exact H|].
  apply (@sort_files_fails_on_name _ 120%N (lit "a.md") H);
    [reflexivity | discriminate | reflexivity | reflexivity].
Defined.

(** A bold span between two words. *)
Lemma bold_span_sample :
  bold_italic (lit "a " ++ lit "**" ++ lit "bold" ++ lit "**" ++ lit " b")
  = lit "a " ++ lit "<strong>" ++ lit "bold" ++ lit "</strong>" ++ lit " b".
Proof.
  apply (@bold_span (lit "a ") (lit "bold") (lit " b")); absent_lit.
Defined.

(** An emphasis span between two words. *)
Lemma italic_span_sample :
  bold_italic (lit "a " ++ lit "*" ++ lit "it" ++ lit "*" ++ lit " b")
  = lit "a " ++ lit "<em>" ++ lit "it" ++ lit "</em>" ++ lit " b".
Proof.
  apply (@italic_span (lit "a ") (lit "it") (lit " b"));
    first [discriminate | absent_lit].
Defined.

(** An inline code span between two words. *)
Lemma inline_code_span_sample :
  code_blocks (lit "a " ++ lit "`" ++ lit "x" ++ lit "`" ++ lit " b")
  = lit "a " ++ lit "<code>" ++ lit "x" ++ lit "</code>" ++ lit " b".
Proof.
  apply (@inline_code_span (lit "a ") (lit "x") (lit " b"));
    first [discriminate | absent_lit].
Defined.

(** Two asterisks that nothing closes. *)
Lemma unbalanced_bold_sample :
  bold_italic (lit "a " ++ lit "**" ++ lit "b") = lit "a " ++ lit "<em></em>" ++ lit "b".
Proof.
  apply (@unbalanced_bold (lit "a ") (lit "b")); absent_lit.
Defined.

(** Two quoted lines and a line of text. *)
Lemma blockquotes_sample :
  blockquotes (join (lit nl) [lit "> one"; lit "> two"; lit "text"])
  = join (lit nl)
      [lit "<blockquote>one</blockquote>"; lit "<blockquote>two</blockquote>";
       lit "text"].
Proof.
  apply (@blockquotes_line_by_line [lit "> one"; lit "> two"; lit "text"]).
  repeat constructor; absent_lit.
Defined.

(** Spaces and blank lines. *)
Lemma white_space_sample :
  simple_markdown_to_html (lit " " ++ lit nl ++ lit nl ++ lit "  ") = [].
Proof.
  apply (@white_space_gives_nothing (lit " " ++ lit nl ++ lit nl ++ lit "  ")).
  vm_compute; reflexivity.
Defined.

(** Text that holds [<] and [&] and ends with a line break. *)
Lemma one_paragraph_sample :
  simple_markdown_to_html (lit "1 < 2 & x" ++ lit nl)
  = lit "<p>" ++ strip (lit "1 < 2 & x" ++ lit nl) ++ lit "</p>".
Proof.
  apply (@plain_text_is_one_paragraph (lit "1 < 2 & x" ++ lit nl));
    [vm_compute; reflexivity | vm_compute; discriminate
     | vm_compute; reflexivity].
Defined.

(** Two pieces of text and an empty one between them. *)
Lemma blank_lines_sample :
  simple_markdown_to_html (join (lit nl ++ lit nl) [lit "one"; []; lit "two"])
  = join (lit nl) (flat_map paragraph [lit "one"; []; lit "two"]).
Proof.
  apply (@blank_lines_separate_paragraphs [lit "one"; []; lit "two"]);
    [discriminate|].
  repeat constructor; first [vm_compute; reflexivity | absent_lit].
Defined.

(** A chapter of the fourth partition. *)
Lemma converter_paths_sample :
  html_path (source_path 3 (lit "chapter_1")) = output_path 3 (lit "chapter_1")
  /\ title_of (source_path 3 (lit "chapter_1")) = lit "chapter 1".
Proof.
  destruct (@converter_paths_line_up 3 (lit "chapter_1"))
    as (_ & P & _ & _ & T & _);
    [lia | discriminate | absent_lit | absent_lit |].
  split; [exact P|]. rewrite T. vm_compute; reflexivity.
Defined.

(** A listing of two sources and another file. *)
Lemma collector_no_duplicates_sample :
  NoDup [lit "src/part1/b.md"; lit "README.md"; lit "src/part0/a.md"]
  /\ NoDup (collect (lit "src") (lit ".md")
              [lit "src/part1/b.md"; lit "README.md"; lit "src/part0/a.md"]).
Proof.
  assert (H : NoDup [lit "src/part1/b.md"; lit "README.md";
                     lit "src/part0/a.md"])
    by (repeat constructor; absent_lit).
  split; [exact H|].
  exact (proj1 (@collector_has_no_duplicates (lit "src") (lit ".md") _ H)).
Defined.

End FurtherSamples.

Section ToolSamples.

Import ToPdf.

(** A machine without [pandoc]: two sources, four commands, none counted. *)
Lemma pdf_loop_all_fail_sample :
  fst (convert_each (fun _ (e : unit) => (Fails, e))
         [lit "src/part0/a.md"; lit "src/part1/b.md"] 0 (mkState tt []))
  = 0%nat.
Proof.
  apply (@pdf_loop_all_fail unit (fun _ e => (Fails, e))
           [lit "src/part0/a.md"; lit "src/part1/b.md"] 0 (mkState tt [])).
  reflexivity.
Defined.

(** A machine on which every command exits with 0. *)
Lemma pdf_loop_first_method_sample :
  fst (convert_each (fun _ (e : unit) => (Exit 0, e))
         [lit "src/part0/a.md"; lit "src/part1/b.md"] 0 (mkState tt []))
  = 2%nat.
Proof.
  apply (@pdf_loop_first_method unit (fun _ e => (Exit 0, e))
           [lit "src/part0/a.md"; lit "src/part1/b.md"] 0 (mkState tt [])).
  reflexivity.
Defined.

(** An introduction in two partitions. *)
Lemma pdf_name_sample :
  pdf_file_of (HtmlOnly.source_path 0 (lit "intro"))
  = pdf_file_of (HtmlOnly.source_path 1 (lit "intro"))
  /\ pdf_file_of (HtmlOnly.source_path 0 (lit "intro"))
     = lit "pdf_output/intro.pdf".
Proof.
  destruct (@pdf_name_ignores_partition 0 1 (lit "intro")) as [E P].
  split; [exact E|]. rewrite P; [reflexivity | absent_lit | absent_lit].
Defined.

(** A machine without [pip3]. *)
Lemma html_method_needs_pip_sample :
  fst (PdfHtml.main (fun _ (e : unit) => (Fails, e)) (fun s => Some s)
         (fun e => e) (fun _ => true)
         (PdfHtml.mkWorld [(lit "src/part0/a.md", Some (lit "# T"))] [] tt []))
  = PdfHtml.Raised (PdfHtml.CannotStart (PdfHtml.pip_cmd (lit "markdown"))).
Proof.
  rewrite (@html_method_needs_pip unit (fun _ e => (Fails, e)) (fun s => Some s)
             (fun e => e) (fun _ => true)
             (PdfHtml.mkWorld [(lit "src/part0/a.md", Some (lit "# T"))] [] tt []));
    reflexivity.
Defined.

(** A machine on which every command exits with 0: the three installs and
    nothing else. *)
Lemma html_method_converts_nothing_sample :
  PdfHtml.calls
    (snd (PdfHtml.main (fun _ (e : unit) => (Exit 0, e)) (fun s => Some s)
            (fun e => e) (fun _ => true)
            (PdfHtml.mkWorld [(lit "src/part0/a.md", Some (lit "# T"))] []
               tt [])))
  = List.map PdfHtml.pip_cmd PdfHtml.packages.
Proof.
  destruct (@html_method_converts_nothing unit (fun _ e => (Exit 0, e))
              (fun s => Some s) (fun e => e) (fun _ => true)
              (PdfHtml.mkWorld [(lit "src/part0/a.md", Some (lit "# T"))] []
                 tt []))
    as (all_files & lines & e' & _ & _ & E); [discriminate|].
  rewrite E. reflexivity.
Defined.

(** Two HTML files, the second of which cannot be removed: both are
    counted, the first is gone and the second is still there. *)
Lemma pdf_stage_cleans_up_sample :
  let w := PdfHtml.mkWorld
             [(lit "src/part0/a.html", Some (lit "A"));
              (lit "src/part0/b.html", Some (lit "B"))] [] tt [] in
  let keep := fun p => negb (Str.eqb p (lit "src/part0/b.html")) in
  let out := PdfHtml.to_pdf_each (fun _ (e : unit) => (Exit 0, e)) keep
               [lit "src/part0/a.html"; lit "src/part0/b.html"] 0 w in
  fst out = 2%nat
  /\ HtmlOnly.read (PdfHtml.files (snd out)) (lit "src/part0/a.html") = None
  /\ HtmlOnly.read (PdfHtml.files (snd out)) (lit "src/part0/b.html")
     = Some (lit "B").
Proof.
  cbv zeta.
  destruct (@pdf_stage_cleans_up unit (fun _ e => (Exit 0, e))
              (fun p => negb (Str.eqb p (lit "src/part0/b.html")))
              [lit "src/part0/a.html"; lit "src/part0/b.html"] 0
              (PdfHtml.mkWorld
                 [(lit "src/part0/a.html", Some (lit "A"));
                  (lit "src/part0/b.html", Some (lit "B"))] [] tt []))
    as (C & _ & G & K); [reflexivity|].
  split; [exact C|]. split.
  - apply G; [left; reflexivity | vm_compute; reflexivity |].
    repeat constructor; absent_lit.
  - rewrite K; [reflexivity|]. right. vm_compute. reflexivity.
Defined.

(** A machine without the engines: nothing is counted and the HTML file
    stays. *)
Lemma pdf_stage_failure_sample :
  let w := PdfHtml.mkWorld [(lit "src/part0/a.html", Some (lit "A"))] []
             tt [] in
  let out := PdfHtml.to_pdf_each (fun _ (e : unit) => (Fails, e))
               (fun _ => true) [lit "src/part0/a.html"] 0 w in
  fst out = 0%nat /\ PdfHtml.files (snd out) = PdfHtml.files w.
Proof.
  cbv zeta.
  destruct (@pdf_stage_failure_keeps_html unit (fun _ e => (Fails, e))
              (fun _ => true) [lit "src/part0/a.html"] 0
              (PdfHtml.mkWorld [(lit "src/part0/a.html", Some (lit "A"))] []
                 tt []))
    as (C & F & _); [reflexivity|].
  now split.
Defined.

End ToolSamples.
